(** * RAGExplorer back end: evaluation pipeline

    A shallow embedding of the evaluation core of the RAGExplorer back end
    ([rag.py], [workflow.py] and the [rag_utils] package) together with the
    properties its specification states about it.

    Conventions of the embedding.
    - A Python [str] is a [string]: a sequence of characters with code
      points 0..255; [lower], [strip] and [isspace] follow Python on that
      range.
    - A Python [int] is a [Z].
    - A Python [float] is a finite binary64 number, kept as the exact
      rational it denotes ([Binary64.float]); every operation rounds the
      exact result to the nearest binary64 number, ties to even.  The
      exponent range is bounded below (subnormal numbers) and unbounded
      above: infinities and NaN are not represented.
    - A Python [set] of document ids is a [gset Z].
    - Code that may raise returns a [result]: a value, an exception of one
      of the classes the sources name, or [Diverge] for a call that never
      returns.
    - External services (the JSON and literal parsers of the standard
      library, the vector store, the reranker, the language model) are
      parameters of the functions that call them.
    - Values have the types the package gives them.  The [chunk_id] of a
      stored chunk is the [str] of an integer, as [vectorstore.py] writes
      it, and a prompt template has no placeholder but those its
      [substitute] call fills, as the templates of [config.py]; on such
      values [int(..)] and [substitute] do not raise, and they are
      functions here.  What may fail on well-typed values does: so the
      cosine similarity, which raises on vectors of unequal length. *)

From Stdlib Require Import ZArith QArith Qround Qabs Qpower Qreduction Lia Lqa String Ascii List.
From stdpp Require Import base option list gmap.

#[local] Set Warnings "-clear-no-such-hyp".

Local Open Scope Z_scope.

(* ===================================================================== *)
(** * Exceptions *)
(* ===================================================================== *)

(** The exception classes named in the sources.  [JSONDecodeError] is a
    subclass of [ValueError], which [is_ValueError] records. *)
Inductive exn : Type :=
  | JSONDecodeError
  | KeyError
  | TypeError
  | ValueError
  | SyntaxError
  | ZeroDivisionError
  | IndexError
  | RerankFailedError
  | APIError.

Inductive result (A : Type) : Type :=
  | Ok (a : A)
  | Raise (e : exn)
  | Diverge.
Arguments Ok {A} a.
Arguments Raise {A} e.
Arguments Diverge {A}.

Definition bind {A B : Type} (m : result A) (k : A -> result B) : result B :=
  match m with
  | Ok a => k a
  | Raise e => Raise e
  | Diverge => Diverge
  end.

(** What a call to a library function or a remote service gives back. *)
Inductive reply (A : Type) : Type :=
  | Returned (a : A)
  | Failed (e : exn).
Arguments Returned {A} a.
Arguments Failed {A} e.

Definition call {A : Type} (r : reply A) : result A :=
  match r with
  | Returned a => Ok a
  | Failed e => Raise e
  end.

(** [try: m except classes: handler] *)
Definition try_except {A : Type} (m : result A) (classes : exn -> bool)
    (handler : result A) : result A :=
  match m with
  | Raise e => if classes e then handler else Raise e
  | r => r
  end.

Notation "'let*' x ':=' m 'in' k" := (bind m (fun x => k))
  (at level 10, x name, m at level 100, k at level 200).

Definition is_JSONDecodeError (e : exn) : bool :=
  match e with
  | JSONDecodeError => true
  | _ => false
  end.

Definition is_ValueError (e : exn) : bool :=
  match e with
  | ValueError | JSONDecodeError => true
  | _ => false
  end.

Definition is_SyntaxError (e : exn) : bool :=
  match e with
  | SyntaxError => true
  | _ => false
  end.

Definition is_TypeError (e : exn) : bool :=
  match e with
  | TypeError => true
  | _ => false
  end.

Definition is_KeyError (e : exn) : bool :=
  match e with
  | KeyError => true
  | _ => false
  end.

(* ===================================================================== *)
(** * Python strings *)
(* ===================================================================== *)

Module Str.

Definition code (c : ascii) : Z := Z.of_N (N_of_ascii c).
Definition chr (z : Z) : ascii := ascii_of_N (Z.to_N z).

(** [str.lower] on one character: A-Z, and the Latin-1 capitals
    U+00C0..U+00DE except the multiplication sign U+00D7. *)
Definition lower_char (c : ascii) : ascii :=
  let n := code c in
  if ((65 <=? n) && (n <=? 90)
      || (192 <=? n) && (n <=? 222) && negb (n =? 215))%bool
  then chr (n + 32) else c.

Fixpoint lower (s : string) : string :=
  match s with
  | EmptyString => EmptyString
  | String c s' => String (lower_char c) (lower s')
  end.

(** [str.isspace] on one character. *)
Definition is_space (c : ascii) : bool :=
  let n := code c in
  ((9 <=? n) && (n <=? 13) || (28 <=? n) && (n <=? 32)
   || (n =? 133) || (n =? 160))%bool.

Fixpoint lstrip (s : string) : string :=
  match s with
  | EmptyString => EmptyString
  | String c s' => if is_space c then lstrip s' else s
  end.

(** [rstrip] keeps a character when something that is not white space
    follows it or it is not white space itself. *)
Fixpoint rstrip (s : string) : string :=
  match s with
  | EmptyString => EmptyString
  | String c s' =>
      match rstrip s' with
      | EmptyString => if is_space c then EmptyString else String c EmptyString
      | r => String c r
      end
  end.

Definition strip (s : string) : string := rstrip (lstrip s).

Fixpoint startswith (s p : string) : bool :=
  match p, s with
  | EmptyString, _ => true
  | String a p', String b s' => if Ascii.eqb a b then startswith s' p' else false
  | String _ _, EmptyString => false
  end.

Fixpoint drop (n : nat) (s : string) : string :=
  match n, s with
  | O, _ => s
  | S n', String _ s' => drop n' s'
  | S _, EmptyString => EmptyString
  end.

Fixpoint take (n : nat) (s : string) : string :=
  match n, s with
  | O, _ => EmptyString
  | S n', String c s' => String c (take n' s')
  | S _, EmptyString => EmptyString
  end.

Definition len (s : string) : nat := String.length s.

(** [s.endswith(p)] *)
Definition endswith (s p : string) : bool :=
  (Nat.leb (len p) (len s) && String.eqb (drop (len s - len p) s) p)%bool.

(** [s[:-n]] for a positive literal [n]. *)
Definition drop_last (n : nat) (s : string) : string := take (len s - n) s.

(** [needle in s] *)
Fixpoint contains (needle s : string) : bool :=
  (startswith s needle ||
   match s with
   | EmptyString => false
   | String _ s' => contains needle s'
   end)%bool.

(** [s.replace(old, new)] for a non-empty [old]: left-to-right,
    non-overlapping.  [skip] counts the characters of a match still to be
    passed over. *)
Fixpoint replace_from (old new : string) (skip : nat) (s : string) : string :=
  match s with
  | EmptyString => EmptyString
  | String c s' =>
      match skip with
      | S k => replace_from old new k s'
      | O =>
          if startswith s old
          then (new ++ replace_from old new (len old - 1) s')%string
          else String c (replace_from old new 0 s')
      end
  end.

Definition replace (old new s : string) : string := replace_from old new 0 s.

Definition is_empty (s : string) : bool :=
  match s with
  | EmptyString => true
  | _ => false
  end.

End Str.

(* ===================================================================== *)
(** * Binary64 arithmetic *)
(* ===================================================================== *)

Module Binary64.

Local Open Scope Q_scope.

(** A finite binary64 number, as the rational it denotes. *)
Definition float : Type := Q.

(** The binary exponent of a positive [q]: the [e] with
    [2^e <= q < 2^(e+1)]. *)
Definition exponent (q : Q) : Z :=
  let e0 := (Z.log2 (Qnum q) - Z.log2 (Zpos (Qden q)))%Z in
  if Qle_bool (2 ^ e0) q then e0 else (e0 - 1)%Z.

(** The integer nearest to [x], ties to even. *)
Definition rne (x : Q) : Z :=
  let f := Qfloor x in
  match Qcompare (x - inject_Z f) (1 # 2) with
  | Lt => f
  | Gt => (f + 1)%Z
  | Eq => if Z.even f then f else (f + 1)%Z
  end.

(** The number of fractional bits kept for a positive [q]: 53
    significant bits, and none below the least subnormal [2^-1074]. *)
Definition frac_bits (q : Q) : Z := Z.min (52 - exponent q) 1074.

(** Round to nearest, ties to even; the result is in lowest terms. *)
Definition rnd (q : Q) : float :=
  if Qeq_bool q 0 then 0
  else
    let s := frac_bits (Qabs q) in
    Qred (inject_Z (rne (q * 2 ^ s)) * 2 ^ (- s)).

(** [float(z)] *)
Definition of_int (z : Z) : float := rnd (inject_Z z).

(** [a / b] on two ints: the correctly rounded quotient. *)
Definition truediv (a b : Z) : result float :=
  if (b =? 0)%Z then Raise ZeroDivisionError
  else Ok (rnd (inject_Z a / inject_Z b)).

(** [x / y] on two floats. *)
Definition fdiv (x y : float) : result float :=
  if Qeq_bool y 0 then Raise ZeroDivisionError
  else Ok (rnd (x / y)).

(** [x + y] on two floats. *)
Definition fadd (x y : float) : float := rnd (x + y).

(** [x * y] on two floats. *)
Definition fmul (x y : float) : float := rnd (x * y).

(** [x < y] *)
Definition flt (x y : float) : bool := negb (Qle_bool y x).

(** The literals [0.0] and [1.0]. *)
Definition zero : float := 0.
Definition one : float := 1.

(** The literal [0.7]. *)
Definition lit_0_7 : float := Eval vm_compute in rnd (7 # 10).

End Binary64.

(* ===================================================================== *)
(** * Python values *)
(* ===================================================================== *)

(** The values [json.loads] and [ast.literal_eval] produce.  A [dict] keeps
    its items in insertion order, with distinct keys. *)
#[local] Unset Elimination Schemes.
Inductive pyvalue : Type :=
  | PNone
  | PBool (b : bool)
  | PInt (z : Z)
  | PFloat (x : Binary64.float)
  | PStr (s : string)
  | PList (l : list pyvalue)
  | PTuple (l : list pyvalue)
  | PSet (l : list pyvalue)
  | PDict (items : list (pyvalue * pyvalue)).
#[local] Set Elimination Schemes.

(** [bool(v)] *)
Definition truthy (v : pyvalue) : bool :=
  match v with
  | PNone => false
  | PBool b => b
  | PInt z => negb (z =? 0)
  | PFloat x => negb (Qeq_bool x 0)
  | PStr s => negb (Str.is_empty s)
  | PList l | PTuple l | PSet l => match l with [] => false | _ => true end
  | PDict items => match items with [] => false | _ => true end
  end.

Definition is_dict (v : pyvalue) : bool :=
  match v with
  | PDict _ => true
  | _ => false
  end.

Definition key_is (k : string) (key : pyvalue) : bool :=
  match key with
  | PStr s => String.eqb s k
  | _ => false
  end.

(** [k in d] for a string key *)
Definition dict_has (items : list (pyvalue * pyvalue)) (k : string) : bool :=
  existsb (fun kv => key_is k (fst kv)) items.

(** [d.get(k, default)] for a string key *)
Definition dict_get (items : list (pyvalue * pyvalue)) (k : string)
    (default : pyvalue) : pyvalue :=
  match List.find (fun kv => key_is k (fst kv)) items with
  | Some kv => snd kv
  | None => default
  end.

(* ===================================================================== *)
(** * rag_utils/json_parser.py *)
(* ===================================================================== *)

Module Ch.
Definition dquote : ascii := Str.chr 34.
Definition squote : ascii := Str.chr 39.
Definition backslash : ascii := Str.chr 92.
Definition space : ascii := Str.chr 32.
Definition newline : ascii := Str.chr 10.
Definition tab : ascii := Str.chr 9.
Definition cr : ascii := Str.chr 13.
Definition colon : ascii := Str.chr 58.
Definition comma : ascii := Str.chr 44.
Definition lbracket : ascii := Str.chr 91.
Definition rbracket : ascii := Str.chr 93.
Definition lbrace : ascii := Str.chr 123.
Definition rbrace : ascii := Str.chr 125.

(** [c in l] on a list of characters *)
Definition among (c : ascii) (l : list ascii) : bool :=
  existsb (Ascii.eqb c) l.
End Ch.

(** The characters both scanners skip: [' ', '\n', '\t', '\r']. *)
Definition blank4 : list ascii := [Ch.space; Ch.newline; Ch.tab; Ch.cr].
(** The characters that may follow a closing quote. *)
Definition closers : list ascii := [Ch.comma; Ch.rbrace; Ch.rbracket; Ch.newline].

(** The character reached by [while idx ... and s[idx] in blanks: idx += 1]
    ([-= 1] on a reversed prefix), [None] once the index leaves the string. *)
Fixpoint skip_blanks (blanks : list ascii) (s : string) : option ascii :=
  match s with
  | EmptyString => None
  | String c s' => if Ch.among c blanks then skip_blanks blanks s' else Some c
  end.

(** [next_char_idx >= length or s[next_char_idx] in [',', '}', ']', '\n']]
    after the blanks that follow a quote. *)
Definition closer_follows (rest : string) : bool :=
  match skip_blanks blank4 rest with
  | None => true
  | Some c => Ch.among c closers
  end.

(** [_fix_unescaped_quotes].  The index [i] of the source splits the string
    into [before] (the characters below [i], nearest first) and the
    characters from [i] on, on which the two loops recur: [fix_outer] is the
    outer [while], [fix_inner] the loop inside a string value. *)
Fixpoint fix_outer (before s : string) : string :=
  match s with
  | EmptyString => EmptyString
  | String char rest =>
      if (Ascii.eqb char Ch.dquote && negb (Str.is_empty before)
          && match skip_blanks blank4 before with
             | Some p => Ch.among p [Ch.colon; Ch.comma; Ch.lbracket; Ch.lbrace]
             | None => false
             end)%bool
      then String char (fix_inner (String char before) rest)
      else String char (fix_outer (String char before) rest)
  end
with fix_inner (before s : string) : string :=
  match s with
  | EmptyString => EmptyString
  | String c rest =>
      if Ascii.eqb c Ch.dquote then
        if match before with
           | String p _ => Ascii.eqb p Ch.backslash
           | EmptyString => false
           end
        then String Ch.backslash (String Ch.dquote (fix_inner (String c before) rest))
        else if closer_follows rest
        then String Ch.dquote (fix_outer (String c before) rest)
        else String Ch.backslash (String Ch.dquote (fix_inner (String c before) rest))
      else if Ascii.eqb c Ch.backslash then
        match rest with
        | String d rest' =>
            String Ch.backslash (String d (fix_inner (String d (String c before)) rest'))
        | EmptyString => String Ch.backslash EmptyString
        end
      else String c (fix_inner (String c before) rest)
  end.

Definition _fix_unescaped_quotes (python_dict_str : string) : string :=
  fix_outer EmptyString python_dict_str.

(** [find_string_end], on the characters after [idx - 1]: [first] holds at
    [idx = start_idx + 1], [prev] is [s[idx - 1]]. *)
Fixpoint find_end_from (quote_char : ascii) (idx : nat) (first : bool)
    (prev : ascii) (rest : string) : option nat :=
  match rest with
  | EmptyString => None
  | String char rest' =>
      if Ascii.eqb char quote_char then
        if (negb first && Ascii.eqb prev Ch.backslash)%bool
        then find_end_from quote_char (S idx) false char rest'
        else if closer_follows rest' then Some idx
        else find_end_from quote_char (S idx) false char rest'
      else find_end_from quote_char (S idx) false char rest'
  end.

Definition find_string_end (s : string) (start_idx : nat) (quote_char : ascii)
    : option nat :=
  find_end_from quote_char (S start_idx) true quote_char (Str.drop (S start_idx) s).

(** The variables of the main loop of [_convert_python_dict_to_json]. *)
Record convert_state : Type := {
  cv_i : nat;
  cv_in_string : bool;
  cv_string_quote : option ascii;
  cv_result : string
}.

Inductive loop_step (S A : Type) : Type :=
  | Next (st : S)
  | Done (a : A).
Arguments Next {S A} st.
Arguments Done {S A} a.

Definition append_char (s : string) (c : ascii) : string :=
  (s ++ String c EmptyString)%string.

(** One iteration of [while i < length]. *)
Definition convert_step (s : string) (st : convert_state)
    : loop_step convert_state string :=
  let i := cv_i st in
  match String.get i s with
  | None => Done (cv_result st)
  | Some char =>
      if negb (cv_in_string st) then
        if (Ascii.eqb char Ch.squote
            && (Nat.eqb i 0
                || match String.get (i - 1) s with
                   | Some p => Ch.among p [Ch.lbrace; Ch.comma; Ch.colon; Ch.space;
                                           Ch.newline; Ch.tab; Ch.lbracket]
                   | None => false
                   end))%bool
        then
          match find_string_end s i Ch.squote with
          | Some key_end =>
              let content :=
                Str.replace (String Ch.dquote EmptyString)
                            (String Ch.backslash (String Ch.dquote EmptyString))
                            (String.substring (i + 1) (key_end - (i + 1)) s) in
              let quoted :=
                (String Ch.dquote EmptyString ++ content
                 ++ String Ch.dquote EmptyString)%string in
              let is_key :=
                match skip_blanks [Ch.space; Ch.newline; Ch.tab]
                        (Str.drop (key_end + 1) s) with
                | Some c => Ascii.eqb c Ch.colon
                | None => false
                end in
              if is_key
              then Next {| cv_i := key_end + 1; cv_in_string := cv_in_string st;
                           cv_string_quote := cv_string_quote st;
                           cv_result := (cv_result st ++ quoted)%string |}
              else Next {| cv_i := key_end + 1; cv_in_string := cv_in_string st;
                           cv_string_quote := cv_string_quote st;
                           cv_result := (cv_result st ++ quoted)%string |}
          | None => Next st
          end
        else if Ascii.eqb char Ch.dquote then
          Next {| cv_i := i + 1; cv_in_string := true;
                  cv_string_quote := Some Ch.dquote;
                  cv_result := append_char (cv_result st) char |}
        else
          Next {| cv_i := i + 1; cv_in_string := cv_in_string st;
                  cv_string_quote := cv_string_quote st;
                  cv_result := append_char (cv_result st) char |}
      else
        match (if Ascii.eqb char Ch.backslash then String.get (i + 1) s else None) with
        | Some next_char =>
            Next {| cv_i := i + 2; cv_in_string := cv_in_string st;
                    cv_string_quote := cv_string_quote st;
                    cv_result := append_char (append_char (cv_result st) char) next_char |}
        | None =>
            if match cv_string_quote st with
               | Some q => Ascii.eqb char q
               | None => false
               end
            then Next {| cv_i := i + 1; cv_in_string := false;
                         cv_string_quote := None;
                         cv_result := append_char (cv_result st) char |}
            else Next {| cv_i := i + 1; cv_in_string := cv_in_string st;
                         cv_string_quote := cv_string_quote st;
                         cv_result := append_char (cv_result st) char |}
        end
  end.

(** The loop, for at most [fuel] iterations; [None] when it is still
    running after them. *)
Fixpoint convert_loop (fuel : nat) (s : string) (st : convert_state)
    : option string :=
  match fuel with
  | O => None
  | S fuel' =>
      match convert_step s st with
      | Done out => Some out
      | Next st' => convert_loop fuel' s st'
      end
  end.

Definition convert_init : convert_state :=
  {| cv_i := 0; cv_in_string := false; cv_string_quote := None;
     cv_result := EmptyString |}.

(** [_convert_python_dict_to_json].  An iteration either moves [i] forward
    or leaves every variable as it was, so a loop that has not finished
    after [length + 1] iterations never does ([convert_loop_exhausted]
    below): the call then diverges. *)
Definition _convert_python_dict_to_json (python_dict_str : string)
    : result string :=
  match convert_loop (S (String.length python_dict_str)) python_dict_str
          convert_init with
  | Some out => Ok out
  | None => Diverge
  end.

(** The library functions and remote services the package calls. *)
Class External : Type := {
  (** [json.loads] *)
  json_loads : string -> reply pyvalue;
  (** [ast.literal_eval] *)
  ast_literal_eval : string -> reply pyvalue;
  (** [str] on a parsed value *)
  py_str : pyvalue -> string;
  (** [int] on a document id of the vector store *)
  int_of_str : string -> reply Z;
  (** [call_openai_api] on a single user message *)
  call_openai_api : string -> reply string;
  (** [Template(generation_error_analysis_prompt).substitute] with, in
      this order, [context_coverage], [query], [ground_truth], [response]
      and [raw_response] *)
  generation_error_prompt : string -> string -> string -> string -> string -> string;
  (** the format [:.0%] of a ratio *)
  format_percent : Binary64.float -> string;
  (** [evaluate_prompt_with_query] of [config.py] *)
  evaluate_prompt_with_query : string;
  (** [calculate_cosine_similarity] of [utils.py], which is numpy
      arithmetic: [np.dot] raises [ValueError] on two vectors of unequal
      length *)
  calculate_cosine_similarity :
    list Binary64.float -> list Binary64.float -> reply Binary64.float;
  (** [Template(prompt_template).substitute(context=.., question=..)], on
      a template whose placeholders are [$context] and [$question], as
      those of [rag_prompt_with_quotes_json], the one template the
      package sets *)
  substitute_prompt : string -> string -> string -> string;
  (** [str(e)] on an exception *)
  str_of_exn : exn -> string
}.

Section Parsing.

Context {ext : External}.

(** The code-fence cleaning at the head of [parse_json_safely]. *)
Definition clean_code_fence (raw_response : string) : string :=
  let cleaned := Str.strip raw_response in
  let cleaned :=
    if Str.startswith cleaned "```json" then Str.drop 7 cleaned
    else if Str.startswith cleaned "```" then Str.drop 3 cleaned
    else cleaned in
  let cleaned :=
    if Str.endswith cleaned "```" then Str.drop_last 3 cleaned else cleaned in
  Str.strip cleaned.

(** The [ast.literal_eval] attempt on the repaired string; its value is
    used only when it is a dict, every exception is swallowed. *)
Definition repaired_literal (cleaned : string) : result (option pyvalue) :=
  let fixed_response := _fix_unescaped_quotes cleaned in
  if String.eqb fixed_response cleaned then Ok None
  else
    match ast_literal_eval fixed_response with
    | Returned v => if is_dict v then Ok (Some v) else Ok None
    | Failed _ => Ok None
    end.

(** The last attempt: quote conversion, then [json.loads]. *)
Definition converted_json (cleaned : string) : result pyvalue :=
  try_except
    (let* converted := _convert_python_dict_to_json cleaned in
     call (json_loads converted))
    (fun e => (is_JSONDecodeError e || is_ValueError e || is_TypeError e)%bool)
    (Ok PNone).

(** [parse_json_safely], on a [str]; the Python [None] it returns is
    [PNone]. *)
Definition parse_json_safely (raw_response : string) : result pyvalue :=
  let cleaned_response := clean_code_fence raw_response in
  if Str.is_empty cleaned_response then Ok PNone
  else
    try_except (call (json_loads cleaned_response)) is_JSONDecodeError
      (try_except
         (let* response_data := call (ast_literal_eval cleaned_response) in
          if is_dict response_data then Ok response_data
          else Raise ValueError)
         (fun e => (is_ValueError e || is_SyntaxError e)%bool)
         (let* repaired := repaired_literal cleaned_response in
          match repaired with
          | Some response_data => Ok response_data
          | None => converted_json cleaned_response
          end)).

(* =================================================================== *)
(** * rag_utils/response_parser.py *)
(* =================================================================== *)

(** [parse_rag_response], on a [str]. *)
Definition parse_rag_response (raw_response : string)
    : result (string * list pyvalue) :=
  try_except
    (let* response_data := parse_json_safely raw_response in
     match response_data with
     | PNone => Ok (raw_response, [])
     | PDict items =>
         let supporting_sentences :=
           dict_get items "supporting_sentences" (PList []) in
         let final_answer := dict_get items "final_answer" (PStr raw_response) in
         let supporting_sentences :=
           match supporting_sentences with
           | PList l => l
           | v => if truthy v then [PStr (py_str v)] else []
           end in
         let final_answer :=
           match final_answer with
           | PStr s => s
           | v => if truthy v then py_str v else EmptyString
           end in
         Ok (final_answer, supporting_sentences)
     | _ => Ok (raw_response, [])
     end)
    (fun e => (is_JSONDecodeError e || is_KeyError e || is_TypeError e
               || is_ValueError e || is_SyntaxError e)%bool)
    (Ok (raw_response, [])).

End Parsing.

(* ===================================================================== *)
(** * rag_utils/evaluator.py *)
(* ===================================================================== *)

Section Evaluator.

Context {ext : External}.

(** [evaluate_response]: one judgment call, [False] on any failure. *)
Definition evaluate_response (query response ground_truth : string) : bool :=
  let content :=
    Str.replace "$predicted_answer" response
      (Str.replace "$ground_truth" ground_truth
         (Str.replace "$question" query evaluate_prompt_with_query)) in
  match call_openai_api content with
  | Returned full_response =>
      let normalized_response := Str.lower (Str.strip full_response) in
      existsb (String.eqb normalized_response)
        ["true"; "yes"; "correct"; "right"]%string
  | Failed _ => false
  end.

End Evaluator.

(* ===================================================================== *)
(** * rag_utils/evidence_analyzer.py *)
(* ===================================================================== *)

(** An evidence item, read with [evidence.get('fact', '')] and
    [evidence.get('title', '')]. *)
Record evidence : Type := {
  ev_fact : string;
  ev_title : string
}.

(** The lookup the analyzer makes on the vector store:
    [get(where_document={"$contains": fact}, where={'title': title})]
    ([where=None] without a title).  The reply is the ['ids'] of the hits,
    [None] for an empty reply or one without ['ids']. *)
Record vectorstore : Type := {
  vs_get : string -> option string -> reply (option (list string))
}.

Record hit_counts : Type := {
  context_hits : Z;
  backup_hits : Z;
  total_evidence : Z
}.

(** The dict [check_evidence_retrieval] returns.  A key that is absent is
    [None]; [evidence_to_doc_ids_map] is keyed by position. *)
Record evidence_analysis : Type := {
  ea_status : option string;
  ea_evidence_list : list evidence;
  ea_evidence_to_doc_ids_map : list (list Z);
  ea_context_doc_ids : gset Z;
  ea_retrieved_pool_doc_ids : gset Z;
  ea_hit_counts : option hit_counts;
  ea_ap : option Binary64.float;
  ea_mrr_score : option Binary64.float
}.

Definition status_only (msg : string) : evidence_analysis :=
  {| ea_status := Some msg; ea_evidence_list := [];
     ea_evidence_to_doc_ids_map := []; ea_context_doc_ids := ∅;
     ea_retrieved_pool_doc_ids := ∅; ea_hit_counts := None;
     ea_ap := None; ea_mrr_score := None |}.

(** The variables of the ranking loop. *)
Record rank_state : Type := {
  relevant_docs_found_count : Z;
  ap_sum : Binary64.float;
  first_hit_rank : Z
}.

Definition rank_init : rank_state :=
  {| relevant_docs_found_count := 0; ap_sum := Binary64.zero;
     first_hit_rank := 0 |}.

(** [for rank, (doc_id, _) in all_retrieved_docs_with_rank], from [rank]
    on. *)
Fixpoint rank_loop (all_true_doc_ids : gset Z) (rank : Z)
    (docs : list (Z * Binary64.float)) (st : rank_state) : result rank_state :=
  match docs with
  | [] => Ok st
  | (doc_id, _) :: rest =>
      if bool_decide (doc_id ∈ all_true_doc_ids) then
        let count := relevant_docs_found_count st + 1 in
        let* precision_at_k := Binary64.truediv count rank in
        rank_loop all_true_doc_ids (rank + 1) rest
          {| relevant_docs_found_count := count;
             ap_sum := Binary64.fadd (ap_sum st) precision_at_k;
             first_hit_rank :=
               if first_hit_rank st =? 0 then rank else first_hit_rank st |}
      else rank_loop all_true_doc_ids (rank + 1) rest st
  end.

(** [[int(doc_id) for doc_id in ids]] *)
Fixpoint ints_of (conv : string -> reply Z) (ids : list string) : reply (list Z) :=
  match ids with
  | [] => Returned []
  | id :: rest =>
      match conv id with
      | Failed e => Failed e
      | Returned z =>
          match ints_of conv rest with
          | Failed e => Failed e
          | Returned zs => Returned (z :: zs)
          end
      end
  end.

Section EvidenceAnalyzer.

Context {ext : External}.

(** The body of the loop over the evidence items: the document ids of one
    item, [[]] for an empty fact, a reply without ids or any exception. *)
Definition evidence_doc_ids (vs : vectorstore) (ev : evidence) : list Z :=
  if Str.is_empty (ev_fact ev) then []
  else
    match vs_get vs (ev_fact ev)
            (if Str.is_empty (ev_title ev) then None else Some (ev_title ev)) with
    | Returned (Some ids) =>
        match ints_of int_of_str ids with
        | Returned found_ids => found_ids
        | Failed _ => []
        end
    | Returned None => []
    | Failed _ => []
    end.

(** [all_true_doc_ids], by [update] over the values of the map. *)
Definition collect_true_doc_ids (m : list (list Z)) : gset Z :=
  foldl (fun acc doc_ids => acc ∪ list_to_set doc_ids) ∅ m.

Definition check_evidence_retrieval (evidence_list : list evidence)
    (retrieved_docs backup_docs : list (Z * Binary64.float))
    (vectorstore : option vectorstore) : result evidence_analysis :=
  match evidence_list, vectorstore with
  | [], _ => Ok (status_only "No evidence provided.")
  | _, None => Ok (status_only "Vectorstore not provided.")
  | _, Some vs =>
      let context_doc_ids : gset Z := list_to_set (map fst retrieved_docs) in
      let backup_doc_ids : gset Z := list_to_set (map fst backup_docs) in
      let retrieved_pool_doc_ids := context_doc_ids ∪ backup_doc_ids in
      let evidence_to_doc_ids_map := map (evidence_doc_ids vs) evidence_list in
      let all_true_doc_ids := collect_true_doc_ids evidence_to_doc_ids_map in
      let context_hits :=
        Z.of_nat (size (context_doc_ids ∩ all_true_doc_ids)) in
      let backup_hits :=
        Z.of_nat (size (retrieved_pool_doc_ids ∩ all_true_doc_ids))
        - context_hits in
      let total_relevant_docs := Z.of_nat (size all_true_doc_ids) in
      let* st := rank_loop all_true_doc_ids 1
                   (retrieved_docs ++ backup_docs) rank_init in
      let* ap :=
        if 0 <? total_relevant_docs
        then Binary64.fdiv (ap_sum st) (Binary64.of_int total_relevant_docs)
        else Ok Binary64.zero in
      let* mrr :=
        if 0 <? first_hit_rank st
        then Binary64.fdiv Binary64.one (Binary64.of_int (first_hit_rank st))
        else Ok Binary64.zero in
      Ok {| ea_status := None;
            ea_evidence_list := evidence_list;
            ea_evidence_to_doc_ids_map := evidence_to_doc_ids_map;
            ea_context_doc_ids := context_doc_ids;
            ea_retrieved_pool_doc_ids := retrieved_pool_doc_ids;
            ea_hit_counts :=
              Some {| context_hits := context_hits;
                      backup_hits := backup_hits;
                      total_evidence := Z.of_nat (size all_true_doc_ids) |};
            ea_ap := Some ap;
            ea_mrr_score := Some mrr |}
  end.

End EvidenceAnalyzer.

(* ===================================================================== *)
(** * rag_utils/error_analysis.py *)
(* ===================================================================== *)

(** The dict [analyze_error_type] returns, without its ['description']. *)
Record error_analysis : Type := {
  error_type : string;
  details : option hit_counts
}.

Definition label (name : string) : error_analysis :=
  {| error_type := name; details := None |}.

Section ErrorAnalysis.

Context {ext : External}.

(** [hit_counts and hit_counts['total_evidence'] > 0] *)
Definition has_evidence (counts : option hit_counts) : option hit_counts :=
  match counts with
  | Some hc => if 0 <? total_evidence hc then Some hc else None
  | None => None
  end.

(** Step 3: the two coverage rules; [None] when neither fires. *)
Definition retrieval_errors (counts : option hit_counts)
    : result (option error_analysis) :=
  match has_evidence counts with
  | Some hc =>
      let total_hits := context_hits hc + backup_hits hc in
      let* retrieval_coverage_ratio :=
        Binary64.truediv total_hits (total_evidence hc) in
      let* context_coverage_ratio :=
        Binary64.truediv (context_hits hc) (total_evidence hc) in
      if Binary64.flt retrieval_coverage_ratio Binary64.lit_0_7 then
        Ok (Some {| error_type := "missed_top_ranked_documents";
                    details := Some hc |})
      else if Binary64.flt context_coverage_ratio Binary64.lit_0_7 then
        Ok (Some {| error_type := "not_in_context"; details := Some hc |})
      else Ok None
  | None => Ok None
  end.

(** Step 4b: the verdict of the language model, normalised. *)
Definition normalise_verdict (completion : string) : string :=
  Str.strip
    (Str.replace "(fp7)" EmptyString
       (Str.replace "(fp6)" EmptyString
          (Str.replace "(fp4)" EmptyString (Str.lower (Str.strip completion))))).

Definition generation_errors (query response ground_truth raw_response : string)
    (counts : option hit_counts) : result error_analysis :=
  let* context_coverage_for_prompt :=
    match has_evidence counts with
    | Some hc =>
        let* ratio := Binary64.truediv (context_hits hc) (total_evidence hc) in
        Ok (format_percent ratio)
    | None => Ok "N/A"%string
    end in
  let generation_error_prompt :=
    generation_error_prompt context_coverage_for_prompt query ground_truth
      response raw_response in
  match call_openai_api generation_error_prompt with
  | Returned completion =>
      let llm_verdict := normalise_verdict completion in
      if existsb (String.eqb llm_verdict) ["incorrect_specificity"; "incomplete"]%string
      then Ok (label llm_verdict)
      else Ok (label "unknown")
  | Failed _ => Ok (label "unknown")
  end.

Definition analyze_error_type (query : string) (is_correct : bool)
    (response ground_truth : string)
    (evidence_retrieval_analysis : evidence_analysis)
    (raw_response : string) : result error_analysis :=
  if is_correct then Ok (label "correct")
  else
    let gt_is_insufficient :=
      Str.contains "insufficient information" (Str.lower ground_truth) in
    let res_is_insufficient :=
      Str.contains "insufficient information" (Str.lower response) in
    if (gt_is_insufficient && negb res_is_insufficient)%bool
    then Ok (label "missing_content")
    else
      let* response_data := parse_json_safely raw_response in
      match response_data with
      | PDict items =>
          let has_supporting_sentences := dict_has items "supporting_sentences" in
          let has_final_answer := dict_has items "final_answer" in
          if (negb has_final_answer || negb has_supporting_sentences)%bool
          then Ok (label "incomplete")
          else
            let counts := ea_hit_counts evidence_retrieval_analysis in
            let* fired := retrieval_errors counts in
            match fired with
            | Some verdict => Ok verdict
            | None =>
                match has_evidence counts with
                | Some hc =>
                    if context_hits hc =? total_evidence hc
                    then Ok {| error_type := "not_extracted";
                               details := Some hc |}
                    else generation_errors query response ground_truth
                           raw_response counts
                | None =>
                    generation_errors query response ground_truth
                      raw_response counts
                end
            end
      | _ => Ok (label "wrong_format")
      end.

End ErrorAnalysis.

(* ===================================================================== *)
(** * Python sequences *)
(* ===================================================================== *)

Module Seq.

(** [l[:k]] *)
Definition slice_to {A : Type} (k : Z) (l : list A) : list A :=
  if 0 <=? k then take (Z.to_nat k) l
  else take (Z.to_nat (Z.of_nat (length l) + k)) l.

(** [l[k:]] *)
Definition slice_from {A : Type} (k : Z) (l : list A) : list A :=
  if 0 <=? k then drop (Z.to_nat k) l
  else drop (Z.to_nat (Z.of_nat (length l) + k)) l.

(** [l[i]] *)
Definition index {A : Type} (l : list A) (i : Z) : result A :=
  let j := if 0 <=? i then i else Z.of_nat (length l) + i in
  if j <? 0 then Raise IndexError
  else
    match l !! Z.to_nat j with
    | Some a => Ok a
    | None => Raise IndexError
    end.

(** [zip(a, b, c)] *)
Fixpoint zip3 {A B C : Type} (a : list A) (b : list B) (c : list C)
    : list (A * B * C) :=
  match a, b, c with
  | x :: a', y :: b', z :: c' => (x, y, z) :: zip3 a' b' c'
  | _, _, _ => []
  end.

(** [sep.join(l)] *)
Fixpoint join (sep : string) (l : list string) : string :=
  match l with
  | [] => EmptyString
  | [x] => x
  | x :: rest => (x ++ sep ++ join sep rest)%string
  end.

End Seq.

(* ===================================================================== *)
(** * rag_utils/reranker.py *)
(* ===================================================================== *)

(** A retrieved chunk: [int(doc.metadata["chunk_id"])] and
    [doc.page_content].  The store writes [str(index)] as the [chunk_id]
    of every chunk it holds ([vectorstore.py]), so the conversion of a
    stored id gives the index back. *)
Record Document : Type := {
  chunk_id : Z;
  page_content : string
}.

(** One entry of the reranker's reply; a key that is absent is [None]. *)
Record rerank_item : Type := {
  ri_index : option Z;
  ri_relevance_score : option Binary64.float
}.

(** [rerank_function.rerank(query, documents)] *)
Definition reranker : Type := string -> list string -> reply (list rerank_item).

(** The loop over [rerank_results]. *)
Fixpoint rerank_collect (docs : list Document) (rerank_results : list rerank_item)
    : result (list Document * list Binary64.float) :=
  match rerank_results with
  | [] => Ok ([], [])
  | item :: rest =>
      let* doc_index :=
        match ri_index item with
        | Some i => Ok i
        | None => Raise KeyError
        end in
      let rerank_score :=
        match ri_relevance_score item with
        | Some x => x
        | None => Binary64.zero
        end in
      let* doc := Seq.index docs doc_index in
      let* tail := rerank_collect docs rest in
      Ok (doc :: fst tail, rerank_score :: snd tail)
  end.

Definition rerank_documents (query : string) (docs : list Document)
    (scores : list Binary64.float) (rerank_function : option reranker)
    (raise_on_error : bool) : result (list Document * list Binary64.float) :=
  match rerank_function, docs with
  | None, _ => Ok (docs, scores)
  | _, [] => Ok (docs, scores)
  | Some rerank, _ =>
      try_except
        (let* rerank_results := call (rerank query (map page_content docs)) in
         rerank_collect docs rerank_results)
        (fun _ => true)
        (if raise_on_error then Raise RerankFailedError else Ok (docs, scores))
  end.

(* ===================================================================== *)
(** * rag.py *)
(* ===================================================================== *)

Record RAGConfig : Type := {
  rerank_model : option string;
  k : Z;
  rerank_range : Z;
  prompt_template : string
}.

(** The components of an [OptimizedRAG] object that [rag_workflow] and the
    evidence analyzer call. *)
Record OptimizedRAG : Type := {
  config : RAGConfig;
  (** [embedding_function.embed_query] *)
  embed_query : string -> reply (list Binary64.float);
  (** [vectorstore.similarity_search_by_vector(embedding=.., k=..)] *)
  similarity_search_by_vector : list Binary64.float -> Z -> reply (list Document);
  (** [vectorstore._collection.get(ids=[str(doc_id)],
      include=['embeddings'])['embeddings'][0]] *)
  collection_embedding : Z -> reply (list Binary64.float);
  rerank_function : option reranker;
  (** [llm.invoke(prompt)], with the text of its reply *)
  llm_invoke : string -> reply string;
  (** the substring lookup on the same vector store *)
  rag_vectorstore : vectorstore
}.

(** [(doc_id, score, [], doc.page_content)] *)
Definition retrieved_doc : Type := Z * Binary64.float * list string * string.

Definition doc_tuple (t : Z * Binary64.float * Document) : retrieved_doc :=
  match t with
  | (doc_id, score, doc) => (doc_id, score, [], page_content doc)
  end.

(** [[f(x) for x in l]] for a call that may fail *)
Fixpoint mapM {A B : Type} (f : A -> result B) (l : list A) : result (list B) :=
  match l with
  | [] => Ok []
  | x :: rest =>
      let* y := f x in
      let* ys := mapM f rest in
      Ok (y :: ys)
  end.

Definition truthy_str (s : option string) : bool :=
  match s with
  | Some s => negb (Str.is_empty s)
  | None => false
  end.

Section Rag.

Context {ext : External}.

Definition format_docs (docs : list Document) : string :=
  Seq.join (String Ch.newline (String Ch.newline EmptyString))
           (map page_content docs).

(** The cosine score of every candidate, from its stored embedding: the
    embeddings are fetched first, the scores computed next, and neither
    loop is inside a [try]. *)
Definition similarity_scores (rag : OptimizedRAG)
    (embedding_vector : list Binary64.float) (docs : list Document)
    : result (list Binary64.float) :=
  let doc_ids := map chunk_id docs in
  let* doc_vectors :=
    mapM (fun doc_id => call (collection_embedding rag doc_id)) doc_ids in
  mapM (fun doc_vec => call (calculate_cosine_similarity embedding_vector doc_vec))
    doc_vectors.

(** The candidate list once the optional rerank has run: [docs] and
    [all_scores] at the point where [rag_workflow] partitions them; a
    [RerankFailedError] when the reranker failed. *)
Definition candidate_pool (rag : OptimizedRAG) (query : string)
    (docs : list Document) (all_scores : list Binary64.float)
    : result (list Document * list Binary64.float) :=
  if (truthy_str (rerank_model (config rag))
      && match rerank_function rag with Some _ => true | None => false end)%bool
  then rerank_documents query docs all_scores (rerank_function rag) true
  else Ok (docs, all_scores).

(** The partition of the candidates into context and backup. *)
Definition partition_pool (k : Z) (docs : list Document)
    (all_scores : list Binary64.float)
    : list retrieved_doc * list retrieved_doc :=
  let doc_ids := map chunk_id docs in
  let top_k_doc_ids := Seq.slice_to k doc_ids in
  let top_k_scores := Seq.slice_to k all_scores in
  let top_k_docs := Seq.slice_to k docs in
  let backup_docs_list :=
    if k <? Z.of_nat (length docs) then Seq.slice_from k docs else [] in
  let backup_doc_ids :=
    if k <? Z.of_nat (length doc_ids) then Seq.slice_from k doc_ids else [] in
  let backup_scores :=
    if k <? Z.of_nat (length all_scores) then Seq.slice_from k all_scores else [] in
  (map doc_tuple (Seq.zip3 top_k_doc_ids top_k_scores top_k_docs),
   map doc_tuple (Seq.zip3 backup_doc_ids backup_scores backup_docs_list)).

(** [rag_workflow]: the query embedding, the context, the backup and the
    text of the response. *)
Definition rag_workflow (rag : OptimizedRAG) (query : string)
    : result (list Binary64.float * list retrieved_doc * list retrieved_doc
              * string) :=
  let* embedding_vector := call (embed_query rag query) in
  let* docs :=
    call (similarity_search_by_vector rag embedding_vector
            (rerank_range (config rag))) in
  match docs with
  | [] => Ok (embedding_vector, [], [],
              "No documents found for the given query."%string)
  | _ =>
      let* all_scores := similarity_scores rag embedding_vector docs in
      match candidate_pool rag query docs all_scores with
      | Raise RerankFailedError => Ok (embedding_vector, [], [], EmptyString)
      | Raise e => Raise e
      | Diverge => Diverge
      | Ok (docs, all_scores) =>
          let parts := partition_pool (k (config rag)) docs all_scores in
          let top_k_docs := Seq.slice_to (k (config rag)) docs in
          let context := format_docs top_k_docs in
          let prompt :=
            substitute_prompt (prompt_template (config rag)) context query in
          let response_text :=
            match llm_invoke rag prompt with
            | Returned text => text
            | Failed e => ("Error generating response: " ++ str_of_exn e)%string
            end in
          Ok (embedding_vector, fst parts, snd parts, response_text)
      end
  end.

End Rag.

(* ===================================================================== *)
(** * workflow.py *)
(* ===================================================================== *)

(** The drivers are modelled on the results array they fill.  The progress
    bar, the printed messages and the persistence callback [save_func],
    which reads the array and does not change it, are left out. *)

Record qa_item : Type := {
  qa_query : string;
  qa_answer : string;
  (** [qa_item.get('evidence_list', [])] *)
  qa_evidence_list : list evidence
}.

(** The dict [query_rag_with_details] returns. *)
Record rag_details : Type := {
  rd_answer : string;
  rd_supporting_sentences : list pyvalue;
  rd_retrieved_docs : list retrieved_doc;
  rd_backup_docs : list retrieved_doc;
  rd_raw_response : string
}.

(** The record of one question, as stored in the results array. *)
Record question_result : Type := {
  qr_query : string;
  qr_response : string;
  qr_answer : string;
  qr_correct : bool;
  qr_supporting_sentences : list pyvalue;
  qr_retrieved_docs : list retrieved_doc;
  qr_backup_docs : list retrieved_doc;
  qr_raw_response : string;
  qr_evidence_list : list evidence;
  qr_evidence_retrieval_analysis : evidence_analysis;
  qr_error_type : string;
  qr_error_details : option hit_counts
}.

(** The results array: one slot per question, [None] until filled. *)
Definition results_array : Type := list (option question_result).

(** The dict the two test drivers return. *)
Record rag_result : Type := {
  rr_accuracy : Binary64.float;
  rr_correct : Z;
  rr_total : Z;
  rr_results : results_array
}.

(** The dict [batch_evaluate_configuration] returns. *)
Record batch_result : Type := {
  br_rag_result : rag_result;
  br_rag_accuracy : Binary64.float;
  br_rag_recall : Binary64.float;
  br_rag_mrr : Binary64.float;
  br_rag_map : Binary64.float;
  br_total_questions : Z;
  br_retrieval_eligible_questions : Z;
  br_correct_answers : Z
}.

(** The accumulators of the aggregation loop. *)
Record totals : Type := {
  total_context_hits : Z;
  total_evidence_count : Z;
  total_reciprocal_rank : Binary64.float;
  total_ap : Binary64.float;
  questions_with_analysis : Z;
  retrieval_eligible_questions : Z
}.

Definition totals_init : totals :=
  {| total_context_hits := 0; total_evidence_count := 0;
     total_reciprocal_rank := Binary64.zero; total_ap := Binary64.zero;
     questions_with_analysis := 0; retrieval_eligible_questions := 0 |}.

(** One iteration of [for result in rag_result['results']]. *)
Definition totals_step (t : totals) (slot : option question_result) : totals :=
  match slot with
  | None => t
  | Some result =>
      let evidence_analysis := qr_evidence_retrieval_analysis result in
      let eligible :=
        match ea_hit_counts evidence_analysis with
        | Some hc => 0 <? total_evidence hc
        | None => false
        end in
      {| total_context_hits :=
           match ea_hit_counts evidence_analysis with
           | Some hc => if eligible then total_context_hits t + context_hits hc
                        else total_context_hits t
           | None => total_context_hits t
           end;
         total_evidence_count :=
           match ea_hit_counts evidence_analysis with
           | Some hc => if eligible then total_evidence_count t + total_evidence hc
                        else total_evidence_count t
           | None => total_evidence_count t
           end;
         total_reciprocal_rank :=
           match ea_mrr_score evidence_analysis with
           | Some mrr_score => Binary64.fadd (total_reciprocal_rank t) mrr_score
           | None => total_reciprocal_rank t
           end;
         total_ap :=
           match ea_ap evidence_analysis with
           | Some ap => Binary64.fadd (total_ap t) ap
           | None => total_ap t
           end;
         questions_with_analysis := questions_with_analysis t + 1;
         retrieval_eligible_questions :=
           if eligible then retrieval_eligible_questions t + 1
           else retrieval_eligible_questions t |}
  end.

(** The three ratios computed after the loop:
    [(overall_recall_at_k, avg_mrr, avg_map)]. *)
Definition aggregate_metrics (results : results_array)
    : result (Binary64.float * Binary64.float * Binary64.float) :=
  let t := foldl totals_step totals_init results in
  let* overall_recall_at_k :=
    if 0 <? total_evidence_count t
    then Binary64.truediv (total_context_hits t) (total_evidence_count t)
    else Ok Binary64.zero in
  let* avg_mrr :=
    if 0 <? retrieval_eligible_questions t
    then Binary64.fdiv (total_reciprocal_rank t)
           (Binary64.of_int (retrieval_eligible_questions t))
    else Ok Binary64.zero in
  let* avg_map :=
    if 0 <? retrieval_eligible_questions t
    then Binary64.fdiv (total_ap t)
           (Binary64.of_int (retrieval_eligible_questions t))
    else Ok Binary64.zero in
  Ok (overall_recall_at_k, avg_mrr, avg_map).

(** [sum(1 for r in results_placeholder if r and r.get('correct'))] *)
Definition count_correct (results : results_array) : Z :=
  Z.of_nat (length (List.filter (fun slot =>
    match slot with
    | Some r => qr_correct r
    | None => false
    end) results)).

(** [(correct / len(qa_dataset)) * 100 if qa_dataset else 0] *)
Definition accuracy_of (correct : Z) (qa_dataset : list qa_item)
    : result Binary64.float :=
  match qa_dataset with
  | [] => Ok Binary64.zero
  | _ =>
      let* ratio := Binary64.truediv correct (Z.of_nat (length qa_dataset)) in
      Ok (Binary64.fmul ratio (Binary64.of_int 100))
  end.

Definition summary (qa_dataset : list qa_item) (results : results_array)
    : result rag_result :=
  let correct := count_correct results in
  let* accuracy := accuracy_of correct qa_dataset in
  Ok {| rr_accuracy := accuracy; rr_correct := correct;
        rr_total := Z.of_nat (length qa_dataset); rr_results := results |}.

(** [i < len(results_placeholder) and results_placeholder[i] is not None] *)
Definition slot_filled (results : results_array) (i : nat) : bool :=
  match results !! i with
  | Some (Some _) => true
  | _ => false
  end.

(** [results_placeholder[i] = result] *)
Definition store (results : results_array) (i : nat) (r : question_result)
    : result results_array :=
  if bool_decide (i < length results)%nat then Ok (<[i := Some r]> results)
  else Raise IndexError.

Section Workflow.

Context {ext : External}.

Definition simple (docs : list retrieved_doc) : list (Z * Binary64.float) :=
  map (fun doc => (fst (fst (fst doc)), snd (fst (fst doc)))) docs.

Definition empty_details (retrieved_docs backup_docs : list retrieved_doc)
    : rag_details :=
  {| rd_answer := EmptyString; rd_supporting_sentences := [];
     rd_retrieved_docs := retrieved_docs; rd_backup_docs := backup_docs;
     rd_raw_response := EmptyString |}.

(** [query_rag_with_details]; every exception gives the empty details. *)
Definition query_rag_with_details (rag : OptimizedRAG) (query : string)
    : result rag_details :=
  try_except
    (let* out := rag_workflow rag query in
     match out with
     | (_, retrieved_docs, backup_docs, response) =>
         if Str.is_empty response
         then Ok (empty_details retrieved_docs backup_docs)
         else
           let* parsed := parse_rag_response response in
           Ok {| rd_answer := fst parsed;
                 rd_supporting_sentences := snd parsed;
                 rd_retrieved_docs := retrieved_docs;
                 rd_backup_docs := backup_docs;
                 rd_raw_response := response |}
     end)
    (fun _ => true)
    (Ok (empty_details [] [])).

(** [_process_rag_question]; the body of the sequential loop repeats the
    same statements. *)
Definition _process_rag_question (rag : OptimizedRAG) (item : qa_item)
    : result question_result :=
  let query := qa_query item in
  let answer := qa_answer item in
  let evidence_list := qa_evidence_list item in
  let* rag_details := query_rag_with_details rag query in
  let is_rag_correct := evaluate_response query (rd_answer rag_details) answer in
  let retrieved_docs_simple := simple (rd_retrieved_docs rag_details) in
  let backup_docs_simple := simple (rd_backup_docs rag_details) in
  let* evidence_retrieval_analysis :=
    check_evidence_retrieval evidence_list retrieved_docs_simple
      backup_docs_simple (Some (rag_vectorstore rag)) in
  let* error_analysis :=
    analyze_error_type query is_rag_correct (rd_answer rag_details) answer
      evidence_retrieval_analysis (rd_raw_response rag_details) in
  Ok {| qr_query := query;
        qr_response := rd_answer rag_details;
        qr_answer := answer;
        qr_correct := is_rag_correct;
        qr_supporting_sentences := rd_supporting_sentences rag_details;
        qr_retrieved_docs := rd_retrieved_docs rag_details;
        qr_backup_docs := rd_backup_docs rag_details;
        qr_raw_response := rd_raw_response rag_details;
        qr_evidence_list := evidence_list;
        qr_evidence_retrieval_analysis := evidence_retrieval_analysis;
        qr_error_type := error_type error_analysis;
        qr_error_details := details error_analysis |}.

(** The loop of [_test_rag_sequential] from question [i] on.  It gives
    the array as the loop leaves it, also when an exception ends it. *)
Fixpoint sequential_loop (rag : OptimizedRAG) (i : nat) (items : list qa_item)
    (results : results_array) : results_array * result unit :=
  match items with
  | [] => (results, Ok tt)
  | item :: rest =>
      if slot_filled results i then sequential_loop rag (S i) rest results
      else
        match (let* r := _process_rag_question rag item in
               store results i r) with
        | Ok results' => sequential_loop rag (S i) rest results'
        | Raise e => (results, Raise e)
        | Diverge => (results, Diverge)
        end
  end.

Definition initial_results (qa_dataset : list qa_item)
    (results_placeholder : option results_array) : results_array :=
  match results_placeholder with
  | Some results => results
  | None => replicate (length qa_dataset) None
  end.

Definition _test_rag_sequential (rag : OptimizedRAG) (qa_dataset : list qa_item)
    (results_placeholder : option results_array)
    : results_array * result rag_result :=
  let results := initial_results qa_dataset results_placeholder in
  match sequential_loop rag 0 qa_dataset results with
  | (results', Ok _) => (results', summary qa_dataset results')
  | (results', Raise e) => (results', Raise e)
  | (results', Diverge) => (results', Diverge)
  end.

(** The questions submitted to the pool, with their index:
    [i >= len(results_placeholder) or results_placeholder[i] is None]. *)
Definition pending (qa_dataset : list qa_item) (results : results_array)
    : list (nat * qa_item) :=
  List.filter (fun p => negb (slot_filled results (fst p)))
              (imap (fun i item => (i, item)) qa_dataset).

(** The body of [for future in as_completed(future_to_index)], for the
    future of question [index]. *)
Definition concurrent_step (rag : OptimizedRAG) (qa_dataset : list qa_item)
    (results : results_array) (index : nat) : result results_array :=
  match qa_dataset !! index with
  | None => Ok results
  | Some item =>
      match _process_rag_question rag item with
      | Diverge => Diverge
      | Raise _ => Ok results
      | Ok r =>
          if (Str.is_empty (qr_raw_response r) || Str.is_empty (qr_response r))%bool
          then Ok results
          else
            match store results index r with
            | Ok results' => Ok results'
            | Raise _ => Ok results
            | Diverge => Diverge
            end
      end
  end.

(** The loop over the futures in their order of completion. *)
Fixpoint concurrent_loop (rag : OptimizedRAG) (qa_dataset : list qa_item)
    (completion_order : list nat) (results : results_array)
    : result results_array :=
  match completion_order with
  | [] => Ok results
  | index :: rest =>
      let* results' := concurrent_step rag qa_dataset results index in
      concurrent_loop rag qa_dataset rest results'
  end.

(** [_test_rag_concurrent].  [completion_order] is the order in which
    the futures complete: a permutation of the pending indices. *)
Definition _test_rag_concurrent (rag : OptimizedRAG) (qa_dataset : list qa_item)
    (completion_order : list nat) (results_placeholder : option results_array)
    : result rag_result :=
  let results := initial_results qa_dataset results_placeholder in
  match pending qa_dataset results with
  | [] => summary qa_dataset results
  | _ =>
      let* results' := concurrent_loop rag qa_dataset completion_order results in
      summary qa_dataset results'
  end.

(** [batch_evaluate_configuration]; [cached] is
    [cache_item.get('rag_result', {}).get('results')]. *)
Definition batch_evaluate_configuration (rag : OptimizedRAG)
    (qa_dataset : list qa_item) (concurrent_workers : Z)
    (completion_order : list nat) (cached : option results_array)
    : result batch_result :=
  let* rag_result :=
    if concurrent_workers <=? 1
    then snd (_test_rag_sequential rag qa_dataset cached)
    else _test_rag_concurrent rag qa_dataset completion_order cached in
  let* metrics := aggregate_metrics (rr_results rag_result) in
  match metrics with
  | (overall_recall_at_k, avg_mrr, avg_map) =>
      Ok {| br_rag_result := rag_result;
            br_rag_accuracy := rr_accuracy rag_result;
            br_rag_recall := overall_recall_at_k;
            br_rag_mrr := avg_mrr;
            br_rag_map := avg_map;
            br_total_questions := Z.of_nat (length qa_dataset);
            br_retrieval_eligible_questions :=
              retrieval_eligible_questions
                (foldl totals_step totals_init (rr_results rag_result));
            br_correct_answers := rr_correct rag_result |}
  end.

End Workflow.

(* ===================================================================== *)
(** * Notions of the specification *)
(* ===================================================================== *)

(** [needle] occurs in [s] as a substring. *)
Definition occurs (needle s : string) : Prop :=
  exists pre post : string, s = (pre ++ needle ++ post)%string.

(** The ids of the documents that satisfy at least one evidence item. *)
Definition all_true_ids {ext : External} (vs : vectorstore)
    (evidence_list : list evidence) : gset Z :=
  ⋃ (map (fun ev => list_to_set (evidence_doc_ids vs ev)) evidence_list).

(** [n] is the number of distinct document ids with the property [P]. *)
Definition counts_distinct (n : Z) (P : Z -> Prop) : Prop :=
  exists l : list Z,
    NoDup l /\ (forall d, d ∈ l <-> P d) /\ n = Z.of_nat (length l).

(** A document satisfies the evidence when the lookup of some evidence
    item returns its id. *)
Definition satisfies_evidence {ext : External} (vs : vectorstore)
    (evidence_list : list evidence) (d : Z) : Prop :=
  exists ev, ev ∈ evidence_list /\ d ∈ evidence_doc_ids vs ev.

(** [enumerate(l, start)] *)
Definition enumerate_from {A : Type} (start : Z) (l : list A) : list (Z * A) :=
  imap (fun i x => (Z.of_nat i + start, x)) l.

(** The ranks, counted from [start], at which a ranked list holds a
    relevant document. *)
Definition relevant_ranks_from (start : Z) (relevant : gset Z)
    (docs : list (Z * Binary64.float)) : list Z :=
  map fst (List.filter (fun p => bool_decide (fst (snd p) ∈ relevant))
                       (enumerate_from start docs)).

Definition relevant_ranks : gset Z -> list (Z * Binary64.float) -> list Z :=
  relevant_ranks_from 1.

(** The precision at each relevant rank: the [j]-th relevant document (from
    [found + 1] on) over its rank. *)
Definition precision_terms_from (found : Z) (ranks : list Z)
    : list Binary64.float :=
  imap (fun j rank =>
          Binary64.rnd (inject_Z (found + Z.of_nat j + 1) / inject_Z rank)) ranks.

Definition precision_terms : list Z -> list Binary64.float :=
  precision_terms_from 0.

(** A sum of floats, accumulated from the left. *)
Definition float_sum_from (start : Binary64.float) (l : list Binary64.float)
    : Binary64.float :=
  foldl Binary64.fadd start l.

Definition float_sum : list Binary64.float -> Binary64.float :=
  float_sum_from Binary64.zero.

(** Average precision of a ranked list against the relevant ids: the sum
    of the precisions at the relevant ranks over the number of relevant
    ids, [0] when there is none. *)
Definition average_precision (relevant : gset Z)
    (docs : list (Z * Binary64.float)) : Binary64.float :=
  if bool_decide (relevant = ∅) then Binary64.zero
  else Binary64.rnd
         (float_sum (precision_terms (relevant_ranks relevant docs))
          / Binary64.of_int (Z.of_nat (size relevant))).

(** Reciprocal rank: one over the first relevant rank, [0] without one. *)
Definition reciprocal_rank (relevant : gset Z)
    (docs : list (Z * Binary64.float)) : Binary64.float :=
  match relevant_ranks relevant docs with
  | rank :: _ => Binary64.rnd (Binary64.one / Binary64.of_int rank)
  | [] => Binary64.zero
  end.

(** The exceptions [parse_rag_response] catches. *)
Definition handled (e : exn) : bool :=
  (is_JSONDecodeError e || is_KeyError e || is_TypeError e
   || is_ValueError e || is_SyntaxError e)%bool.

(** The parse of a raw response settles when it returns, or raises an
    exception that [parse_rag_response] catches. *)
Definition settles (r : result pyvalue) : Prop :=
  match r with
  | Ok _ => True
  | Raise e => handled e = true
  | Diverge => False
  end.

(** The parse gave a mapping with the key [k]. *)
Definition provides (r : result pyvalue) (k : string) : bool :=
  match r with
  | Ok (PDict items) => dict_has items k
  | _ => false
  end.

(** The parse gave a mapping. *)
Definition gives_mapping (r : result pyvalue) : bool :=
  match r with
  | Ok (PDict _) => true
  | _ => false
  end.

(** The value under the key [k] of the mapping the parse gave. *)
Definition value_at (r : result pyvalue) (k : string) : option pyvalue :=
  match r with
  | Ok (PDict items) =>
      option_map snd (List.find (fun kv => key_is k (fst kv)) items)
  | _ => None
  end.

(** What [parse_rag_response] makes of the value under [final_answer]:
    a [str] is kept, another value is replaced by its [str(..)] when it
    is truthy and by the empty string when it is not. *)
Definition answer_of {ext : External} (v : pyvalue) : string :=
  match v with
  | PStr s => s
  | _ => if truthy v then py_str v else EmptyString
  end.

(** What it makes of the value under [supporting_sentences]: a [list] is
    kept, another value is replaced by the list of its [str(..)] when it
    is truthy and by the empty list when it is not. *)
Definition sentences_of {ext : External} (v : pyvalue) : list pyvalue :=
  match v with
  | PList l => l
  | _ => if truthy v then [PStr (py_str v)] else []
  end.

(** The answer of [parse_rag_response] fed back into it, [n] times. *)
Fixpoint reparse {ext : External} (n : nat) (raw_response : string)
    : result (string * list pyvalue) :=
  match n with
  | O => parse_rag_response raw_response
  | S n' =>
      let* parsed := reparse n' raw_response in
      parse_rag_response (fst parsed)
  end.

(** The analyses of the questions a results array holds. *)
Definition analysed (results : results_array) : list evidence_analysis :=
  omap (fun slot => option_map qr_evidence_retrieval_analysis slot) results.

(** A question is retrieval-eligible when its analysis found at least one
    evidence-bearing document id. *)
Definition is_eligible (a : evidence_analysis) : bool :=
  match ea_hit_counts a with
  | Some hc => 0 <? total_evidence hc
  | None => false
  end.

Definition eligible (results : results_array) : list evidence_analysis :=
  List.filter is_eligible (analysed results).

Definition hits_of (a : evidence_analysis) : Z :=
  match ea_hit_counts a with
  | Some hc => context_hits hc
  | None => 0
  end.

Definition evidence_of (a : evidence_analysis) : Z :=
  match ea_hit_counts a with
  | Some hc => total_evidence hc
  | None => 0
  end.

Definition score_of (o : option Binary64.float) : Binary64.float :=
  match o with
  | Some x => x
  | None => Binary64.zero
  end.

Definition sum_counts (l : list Z) : Z := foldr Z.add 0 l.

(** Document-level recall: the context hits of the eligible questions over
    their evidence-bearing ids, as one ratio. *)
Definition document_recall (results : results_array) : Binary64.float :=
  let hits := sum_counts (map hits_of (eligible results)) in
  let ids := sum_counts (map evidence_of (eligible results)) in
  if 0 <? ids then Binary64.rnd (inject_Z hits / inject_Z ids)
  else Binary64.zero.

(** The mean of a per-question score over the eligible questions. *)
Definition eligible_mean (score : evidence_analysis -> option Binary64.float)
    (results : results_array) : Binary64.float :=
  let n := Z.of_nat (length (eligible results)) in
  if 0 <? n
  then Binary64.rnd
         (float_sum (map (fun a => score_of (score a)) (eligible results))
          / Binary64.of_int n)
  else Binary64.zero.

(** An analysis that some call of [check_evidence_retrieval] returned. *)
Definition from_analyzer {ext : External} (a : evidence_analysis) : Prop :=
  exists (evidence_list : list evidence)
         (retrieved_docs backup_docs : list (Z * Binary64.float))
         (vectorstore : option vectorstore),
    check_evidence_retrieval evidence_list retrieved_docs backup_docs vectorstore
    = Ok a.

(** A non-negative binary64 number. *)
Definition representable (x : Q) : Prop :=
  (0 <= x)%Q /\ Binary64.rnd x = x.

(** What the aggregation needs to know of an analysis: either it has no
    metrics at all, or it has its three metrics, both scores are
    non-negative floats, and both are [0.0] when no evidence-bearing id
    was found. *)
Definition well_scored (a : evidence_analysis) : Prop :=
  (ea_hit_counts a = None /\ ea_mrr_score a = None /\ ea_ap a = None)
  \/ exists (hc : hit_counts) (mrr ap : Binary64.float),
       ea_hit_counts a = Some hc /\ ea_mrr_score a = Some mrr
       /\ ea_ap a = Some ap /\ 0 <= total_evidence hc
       /\ representable mrr /\ representable ap
       /\ (total_evidence hc = 0 -> mrr = Binary64.zero /\ ap = Binary64.zero).

(** The candidates of a query as the tuples [rag_workflow] returns, in
    pool order. *)
Definition pool_tuples (pool : list Document) (scores : list Binary64.float)
    : list retrieved_doc :=
  map doc_tuple (Seq.zip3 (map chunk_id pool) scores pool).

(** The candidate pool of a query: the nearest neighbours of its embedding
    with their scores, after the rerank when one is configured; empty when
    the search finds nothing. *)
Definition retrieval_pool {ext : External} (rag : OptimizedRAG) (query : string)
    : result (list Document * list Binary64.float) :=
  let* embedding_vector := call (embed_query rag query) in
  let* docs :=
    call (similarity_search_by_vector rag embedding_vector
            (rerank_range (config rag))) in
  match docs with
  | [] => Ok ([], [])
  | _ =>
      let* all_scores := similarity_scores rag embedding_vector docs in
      candidate_pool rag query docs all_scores
  end.




(** [c in s] for a character. *)
Fixpoint has_char (c : ascii) (s : string) : bool :=
  match s with
  | EmptyString => false
  | String a s' => (Ascii.eqb a c || has_char c s')%bool
  end.

(** Every character of [s] is white space. *)
Fixpoint blank (s : string) : bool :=
  match s with
  | EmptyString => true
  | String c s' => (Str.is_space c && blank s')%bool
  end.

(** The test the conversion loop makes on the text [p] before an
    apostrophe, to take the apostrophe for the start of a string:
    [i == 0 or python_dict_str[i-1] in ['{', ',', ':', ' ', '\n', '\t', '[']]. *)
Definition opens_string (p : string) : bool :=
  (Nat.eqb (String.length p) 0
   || match String.get (String.length p - 1) p with
      | Some c => Ch.among c [Ch.lbrace; Ch.comma; Ch.colon; Ch.space;
                              Ch.newline; Ch.tab; Ch.lbracket]
      | None => false
      end)%bool.

(** The result of the conversion loop is the part of the input it has
    read. *)
Definition copied (s : string) (st : convert_state) : Prop :=
  exists rest : string,
    s = (cv_result st ++ rest)%string /\ cv_i st = String.length (cv_result st).

(** The nine labels of the taxonomy. *)
Definition error_labels : list string :=
  ["correct"; "missing_content"; "wrong_format"; "incomplete";
   "missed_top_ranked_documents"; "not_in_context"; "not_extracted";
   "incorrect_specificity"; "unknown"]%string.

(** The two coverage rules on exact rationals: pool coverage below 7/10,
    then context coverage below 7/10. *)
Definition coverage_verdict (hc : hit_counts) : option error_analysis :=
  if 10 * (context_hits hc + backup_hits hc) <? 7 * total_evidence hc
  then Some {| error_type := "missed_top_ranked_documents"; details := Some hc |}
  else if 10 * context_hits hc <? 7 * total_evidence hc
  then Some {| error_type := "not_in_context"; details := Some hc |}
  else None.

(** An analysis that carries the hit counts [hc]. *)
Definition analysis_with (hc : hit_counts) : evidence_analysis :=
  {| ea_status := None; ea_evidence_list := [];
     ea_evidence_to_doc_ids_map := []; ea_context_doc_ids := ∅;
     ea_retrieved_pool_doc_ids := ∅; ea_hit_counts := Some hc;
     ea_ap := Some Binary64.zero; ea_mrr_score := Some Binary64.zero |}.

(** What the future of question [index] brings: the record to store, or
    nothing when the question does not exist, its run raised, or its
    response is empty. *)
Definition future_outcome {ext : External} (rag : OptimizedRAG)
    (qa_dataset : list qa_item) (index : nat) : result (option question_result) :=
  match qa_dataset !! index with
  | None => Ok None
  | Some item =>
      match _process_rag_question rag item with
      | Diverge => Diverge
      | Raise _ => Ok None
      | Ok r =>
          if (Str.is_empty (qr_raw_response r) || Str.is_empty (qr_response r))%bool
          then Ok None
          else Ok (Some r)
      end
  end.

(** The array after the outcome [o] of the future of question [index]. *)
Definition settle (results : results_array) (index : nat)
    (o : option question_result) : results_array :=
  match o with
  | Some r => <[index := Some r]> results
  | None => results
  end.

(** A checkpoint of a run: every slot is as in the array the run started
    from, or already holds what the run puts there. *)
Definition checkpoint_of (start final checkpoint : results_array) : Prop :=
  length checkpoint = length start
  /\ forall j : nat,
       checkpoint !! j = start !! j
       \/ (start !! j = Some None /\ checkpoint !! j = final !! j).

(** The results of a batch over no question. *)
Definition empty_run : rag_result :=
  {| rr_accuracy := Binary64.zero; rr_correct := 0; rr_total := 0;
     rr_results := [] |}.

Definition empty_batch : batch_result :=
  {| br_rag_result := empty_run; br_rag_accuracy := Binary64.zero;
     br_rag_recall := Binary64.zero; br_rag_mrr := Binary64.zero;
     br_rag_map := Binary64.zero; br_total_questions := 0;
     br_retrieval_eligible_questions := 0; br_correct_answers := 0 |}.

(* ===================================================================== *)
(** * rag_utils/cache_manager.py and rag_utils/workflow_factory.py *)
(* ===================================================================== *)

(** [s.split(sep)[-1]] for a one-character separator: the text after the
    last [sep], all of [s] without one. *)
Fixpoint after_last (sep : ascii) (s : string) : string :=
  match s with
  | EmptyString => EmptyString
  | String c s' =>
      if has_char sep s' then after_last sep s'
      else if Ascii.eqb c sep then s' else s
  end.

(** The dictionary [selected_params], of the format
    [{'param_name': ['value'], ...}]: the list of values of each key the
    two functions read, [None] for an absent key. *)
Record selected_params : Type := {
  sp_dataset : option (list string);
  sp_rag_response_model : option (list string);
  sp_embedding_model : option (list string);
  sp_rerank_model : option (list string);
  sp_evaluate_model : option (list string);
  sp_k : option (list string);
  sp_rerank_range : option (list string);
  sp_chunk_size : option (list string);
  sp_chunk_overlap : option (list string);
  sp_corpus : option (list string)
}.

(** [selected_params.get(key, [default])[0]] *)
Definition first_of (values : option (list string)) (default : string)
    : result string :=
  match values with
  | None => Ok default
  | Some [] => Raise IndexError
  | Some (value :: _) => Ok value
  end.

Definition normalize_embedding_model_name (embedding_model : string) : string :=
  Str.replace "Pro/BAAI/bge-m3" "BAAI/bge-m3" embedding_model.

(** The short names [generate_cache_filename] builds. *)
Definition model_short (model : string) : string :=
  Str.replace "claude-" "claude"
    (Str.replace "anthropic/" EmptyString (Str.replace "gpt-" "gpt" model)).

Definition embedding_model_short (embedding_model : string) : string :=
  Str.replace "Embedding-" "Emb"
    (after_last "/" (normalize_embedding_model_name embedding_model)).

Definition rerank_model_short (rerank_model : string) : string :=
  if negb (String.eqb rerank_model "none")
  then Str.replace "Pro/BAAI/bge-reranker-v2-m3" "BAAI/bge-reranker-v2-m3"
         rerank_model
  else EmptyString.

(** The three replacements that make the name a file name. *)
Definition plain_name (filename : string) : string :=
  Str.replace "." "_" (Str.replace "-" "_" (Str.replace "/" "_" filename)).

Definition generate_cache_filename (params : selected_params)
    (cache_version : string) : result string :=
  let* dataset := first_of (sp_dataset params) "MultiHop-RAG" in
  let* rag_response_model := first_of (sp_rag_response_model params) "gpt-4o-mini" in
  let* embedding_model :=
    first_of (sp_embedding_model params) "Qwen/Qwen3-Embedding-0.6B" in
  let* rerank_model := first_of (sp_rerank_model params) "none" in
  let* evaluate_model := first_of (sp_evaluate_model params) "gpt-4o-mini" in
  let* k := first_of (sp_k params) "5" in
  let* rerank_range := first_of (sp_rerank_range params) "20" in
  let* chunk_size := first_of (sp_chunk_size params) "1000" in
  let* chunk_overlap := first_of (sp_chunk_overlap params) "100" in
  let dataset_short :=
    Str.replace "yixuantt/" EmptyString
      (Str.replace "MultiHop-RAG" "MultiHopRAG" dataset) in
  let filename :=
    ("cache_" ++ dataset_short ++ "_" ++ model_short rag_response_model
     ++ "_" ++ embedding_model_short embedding_model
     ++ "_" ++ rerank_model_short rerank_model
     ++ "_" ++ model_short evaluate_model
     ++ "_k" ++ k ++ "_rerank" ++ rerank_range ++ "_chunk" ++ chunk_size
     ++ "_overlap" ++ chunk_overlap ++ "_" ++ cache_version)%string in
  Ok (plain_name filename ++ ".pkl")%string.

(** The arguments [create_workflow] passes to [SimpleWorkflow]. *)
Record workflow_arguments : Type := {
  wa_rag_response_model : string;
  wa_embedding_model : string;
  wa_rerank_model : option string;
  wa_evaluate_model : string;
  wa_k : Z;
  wa_chunk_size : Z;
  wa_chunk_overlap : Z;
  wa_rerank_range : Z;
  wa_corpus_name : string
}.

Definition create_workflow {ext : External} (params : selected_params)
    : result workflow_arguments :=
  let* rag_response_model := first_of (sp_rag_response_model params) "gpt-4o-mini" in
  let* embedding_model :=
    first_of (sp_embedding_model params) "Qwen/Qwen3-Embedding-0.6B" in
  let* rerank_model := first_of (sp_rerank_model params) "none" in
  let* evaluate_model := first_of (sp_evaluate_model params) "gpt-4o-mini" in
  let* k := let* v := first_of (sp_k params) "5" in call (int_of_str v) in
  let* rerank_range :=
    let* v := first_of (sp_rerank_range params) "20" in call (int_of_str v) in
  let* chunk_size :=
    let* v := first_of (sp_chunk_size params) "1000" in call (int_of_str v) in
  let* chunk_overlap :=
    let* v := first_of (sp_chunk_overlap params) "100" in call (int_of_str v) in
  let* corpus_name := first_of (sp_corpus params) "corpus" in
  Ok {| wa_rag_response_model := rag_response_model;
        wa_embedding_model := embedding_model;
        wa_rerank_model :=
          if String.eqb rerank_model "none" then None else Some rerank_model;
        wa_evaluate_model := evaluate_model;
        wa_k := k;
        wa_chunk_size := chunk_size;
        wa_chunk_overlap := chunk_overlap;
        wa_rerank_range := rerank_range;
        wa_corpus_name := corpus_name |}.

(** [params] with another embedding model, rerank model or corpus. *)
Definition with_embedding_model (params : selected_params) (model : string)
    : selected_params :=
  {| sp_dataset := sp_dataset params;
     sp_rag_response_model := sp_rag_response_model params;
     sp_embedding_model := Some [model];
     sp_rerank_model := sp_rerank_model params;
     sp_evaluate_model := sp_evaluate_model params;
     sp_k := sp_k params; sp_rerank_range := sp_rerank_range params;
     sp_chunk_size := sp_chunk_size params;
     sp_chunk_overlap := sp_chunk_overlap params;
     sp_corpus := sp_corpus params |}.

Definition with_rerank_model (params : selected_params) (model : string)
    : selected_params :=
  {| sp_dataset := sp_dataset params;
     sp_rag_response_model := sp_rag_response_model params;
     sp_embedding_model := sp_embedding_model params;
     sp_rerank_model := Some [model];
     sp_evaluate_model := sp_evaluate_model params;
     sp_k := sp_k params; sp_rerank_range := sp_rerank_range params;
     sp_chunk_size := sp_chunk_size params;
     sp_chunk_overlap := sp_chunk_overlap params;
     sp_corpus := sp_corpus params |}.

Definition with_corpus (params : selected_params) (corpus : string)
    : selected_params :=
  {| sp_dataset := sp_dataset params;
     sp_rag_response_model := sp_rag_response_model params;
     sp_embedding_model := sp_embedding_model params;
     sp_rerank_model := sp_rerank_model params;
     sp_evaluate_model := sp_evaluate_model params;
     sp_k := sp_k params; sp_rerank_range := sp_rerank_range params;
     sp_chunk_size := sp_chunk_size params;
     sp_chunk_overlap := sp_chunk_overlap params;
     sp_corpus := Some [corpus] |}.

(** The parameter set in which every key is absent. *)
Definition no_params : selected_params :=
  {| sp_dataset := None; sp_rag_response_model := None;
     sp_embedding_model := None; sp_rerank_model := None;
     sp_evaluate_model := None; sp_k := None; sp_rerank_range := None;
     sp_chunk_size := None; sp_chunk_overlap := None; sp_corpus := None |}.

(** The key is absent or its list of values is not empty. *)
Definition given (values : option (list string)) : bool :=
  match values with
  | Some [] => false
  | _ => true
  end.

(** What [create_workflow] passes for the corpus [corpus] when every other
    key is absent. *)
Definition default_arguments (corpus : string) : workflow_arguments :=
  {| wa_rag_response_model := "gpt-4o-mini";
     wa_embedding_model := "Qwen/Qwen3-Embedding-0.6B";
     wa_rerank_model := None;
     wa_evaluate_model := "gpt-4o-mini";
     wa_k := 5; wa_chunk_size := 1000; wa_chunk_overlap := 100;
     wa_rerank_range := 20; wa_corpus_name := corpus |}.

(* ===================================================================== *)
(** * rag_utils/rate_limiter.py *)
(* ===================================================================== *)

Definition is_rate_limit_error (error_msg : string) : bool :=
  let error_lower := Str.lower error_msg in
  existsb (fun keyword => Str.contains keyword error_lower)
    ["400"; "rate limit"; "quota"; "too many requests"]%string.

(** [int(x)] on a float: truncation towards zero. *)
Definition int_of_float (x : Binary64.float) : Z :=
  Z.quot (Qnum x) (Zpos (Qden x)).

(** The argument [texts] of [_estimate_tokens]: a [str] or a list. *)
Inductive texts_argument : Type :=
  | Text (text : string)
  | Texts (texts : list string).

Definition text_list (texts : texts_argument) : list string :=
  match texts with
  | Text text => [text]
  | Texts texts => texts
  end.

(** [sum(len(text) for text in texts)] *)
Definition total_chars (texts : list string) : Z :=
  foldl (fun acc text => acc + Z.of_nat (Str.len text)) 0 texts.

(** [_estimate_tokens]; the divisor is the literal [3.5], which is the
    binary64 number [7/2]. *)
Definition _estimate_tokens (texts : texts_argument) : Z :=
  let texts := text_list texts in
  let estimated_tokens :=
    int_of_float
      (Binary64.rnd (Binary64.of_int (total_chars texts) / (7 # 2))) in
  Z.max estimated_tokens (Z.of_nat (length texts)).

(* ===================================================================== *)
(** * Sample collaborators *)
(* ===================================================================== *)

(** Concrete stand-ins for the external services, used to run the
    embedding on examples.  Each parser agrees with the library function
    of its name on the strings the examples pass to it. *)
Module Sample.

Local Open Scope string_scope.

(** [s] between double quotes. *)
Definition quoted (s : string) : string :=
  String Ch.dquote s ++ String Ch.dquote EmptyString.

(** A JSON object with both keys, one with only [final_answer], one with
    only [supporting_sentences]. *)
Definition both_keys : string :=
  "{" ++ quoted "supporting_sentences" ++ ": [" ++ quoted "Paris is the capital."
  ++ "], " ++ quoted "final_answer" ++ ": " ++ quoted "Paris" ++ "}".
Definition only_answer : string :=
  "{" ++ quoted "final_answer" ++ ": " ++ quoted "x" ++ "}".
Definition only_sentences : string :=
  "{" ++ quoted "supporting_sentences" ++ ": [" ++ quoted "s" ++ "]}".
(** A JSON object whose only key is [final_answer], with a number. *)
Definition numeric_answer : string :=
  "{" ++ quoted "final_answer" ++ ": 42}".
Definition plain_text : string := "no idea".
Definition quoted_text : string := "The answer is 'Paris' according to the text.".

Definition loads (s : string) : reply pyvalue :=
  if String.eqb s both_keys then
    Returned (PDict [(PStr "supporting_sentences",
                      PList [PStr "Paris is the capital."]);
                     (PStr "final_answer", PStr "Paris")])
  else if String.eqb s only_answer then
    Returned (PDict [(PStr "final_answer", PStr "x")])
  else if String.eqb s only_sentences then
    Returned (PDict [(PStr "supporting_sentences", PList [PStr "s"])])
  else if String.eqb s numeric_answer then
    Returned (PDict [(PStr "final_answer", PInt 42)])
  else Failed JSONDecodeError.

Definition literal_eval (s : string) : reply pyvalue :=
  match loads s with
  | Returned v => Returned v
  | Failed _ => Failed SyntaxError
  end.

Definition str_of (v : pyvalue) : string :=
  match v with
  | PStr s => s
  | PNone => "None"
  | PBool true => "True"
  | PBool false => "False"
  | PInt 42 => "42"
  | _ => "..."
  end.

(** [int] on a string of decimal digits. *)
Fixpoint digits (acc : Z) (s : string) : reply Z :=
  match s with
  | EmptyString => Returned acc
  | String c s' =>
      let n := Str.code c in
      if ((48 <=? n)%Z && (n <=? 57)%Z)%bool then digits (10 * acc + (n - 48))%Z s'
      else Failed ValueError
  end.

Definition to_int (s : string) : reply Z :=
  match s with
  | EmptyString => Failed ValueError
  | _ => digits 0 s
  end.

#[export] Instance ext : External := {|
  json_loads := loads;
  ast_literal_eval := literal_eval;
  py_str := str_of;
  int_of_str := to_int;
  call_openai_api := fun _ => Returned "False";
  generation_error_prompt := fun coverage query ground_truth response raw =>
    coverage ++ query ++ ground_truth ++ response ++ raw;
  format_percent := fun _ => "%";
  evaluate_prompt_with_query :=
    "Question: $question Reference Answer: $ground_truth Predicted Answer: $predicted_answer";
  calculate_cosine_similarity := fun vec1 vec2 =>
    if (length vec1 =? length vec2)%nat then Returned Binary64.one
    else Failed ValueError;
  substitute_prompt := fun template context question => context ++ question;
  str_of_exn := fun _ => "error"
|}.

(** A store of three chunks: the fact "alpha" is in chunks 1 and 2, the
    fact "beta" in chunk 2. *)
Definition store : vectorstore :=
  {| vs_get := fun fact _ =>
       if String.eqb fact "alpha" then Returned (Some ["1"; "2"])
       else if String.eqb fact "beta" then Returned (Some ["2"])
       else Returned None |}.

Definition chunks : list Document :=
  [ {| chunk_id := 1; page_content := "alpha one" |};
    {| chunk_id := 2; page_content := "alpha beta two" |};
    {| chunk_id := 3; page_content := "three" |} ].

(** A system without reranker, whose model answers with both keys. *)
Definition rag : OptimizedRAG :=
  {| config := {| rerank_model := None; k := 2; rerank_range := 3;
                  prompt_template := EmptyString |};
     embed_query := fun _ => Returned [Binary64.one];
     similarity_search_by_vector := fun _ _ => Returned chunks;
     collection_embedding := fun _ => Returned [Binary64.one];
     rerank_function := None;
     llm_invoke := fun _ => Returned both_keys;
     rag_vectorstore := store |}.

(** The same system behind a reranker whose service is down. *)
Definition rag_rerank_down : OptimizedRAG :=
  {| config := {| rerank_model := Some "reranker"; k := 2; rerank_range := 3;
                  prompt_template := EmptyString |};
     embed_query := embed_query rag;
     similarity_search_by_vector := similarity_search_by_vector rag;
     collection_embedding := collection_embedding rag;
     rerank_function := Some (fun _ _ => Failed APIError);
     llm_invoke := llm_invoke rag;
     rag_vectorstore := store |}.

(** A reranker that ranks the third candidate first, then the first, which
    it names by its index from the end and leaves without score, and
    leaves the second out. *)
Definition third_then_first : reranker :=
  fun _ _ =>
    Returned [ {| ri_index := Some 2; ri_relevance_score := Some Binary64.one |};
               {| ri_index := Some (-3); ri_relevance_score := None |} ].

(** The same system behind that reranker. *)
Definition rag_reranked : OptimizedRAG :=
  {| config := {| rerank_model := Some "reranker"; k := 2; rerank_range := 3;
                  prompt_template := EmptyString |};
     embed_query := embed_query rag;
     similarity_search_by_vector := similarity_search_by_vector rag;
     collection_embedding := collection_embedding rag;
     rerank_function := Some third_then_first;
     llm_invoke := llm_invoke rag;
     rag_vectorstore := store |}.

(** The system [rag] on a store whose embeddings have two components,
    while the query embedding has one. *)
Definition rag_other_dimension : OptimizedRAG :=
  {| config := config rag;
     embed_query := embed_query rag;
     similarity_search_by_vector := similarity_search_by_vector rag;
     collection_embedding := fun _ => Returned [Binary64.one; Binary64.one];
     rerank_function := None;
     llm_invoke := llm_invoke rag;
     rag_vectorstore := store |}.

Definition evidence_alpha : list evidence :=
  [ {| ev_fact := "alpha"; ev_title := EmptyString |} ].
Definition context_docs : list (Z * Binary64.float) :=
  [(1, Binary64.one); (3, Binary64.one)].
Definition backup_docs : list (Z * Binary64.float) := [(2, Binary64.one)].

(** The value a call returns, for a call that returns. *)
Definition returned {A : Type} (default : A) (r : result A) : A :=
  match r with
  | Ok a => a
  | _ => default
  end.

(** The analysis of [context_docs] and [backup_docs] against the fact
    "alpha": one hit in the context, one in the backup. *)
Definition analysis : evidence_analysis :=
  returned (status_only EmptyString)
    (check_evidence_retrieval evidence_alpha context_docs backup_docs
       (Some store)).

(** An analysis in which the context holds 7 of 10 relevant ids. *)
Definition seven_of_ten : evidence_analysis :=
  {| ea_status := None; ea_evidence_list := evidence_alpha;
     ea_evidence_to_doc_ids_map := []; ea_context_doc_ids := ∅;
     ea_retrieved_pool_doc_ids := ∅;
     ea_hit_counts := Some {| context_hits := 7; backup_hits := 0;
                              total_evidence := 10 |};
     ea_ap := Some Binary64.zero; ea_mrr_score := Some Binary64.zero |}.

(** A stored result with the analysis [a]. *)
Definition result_with (a : evidence_analysis) : question_result :=
  {| qr_query := "q"; qr_response := "Rome"; qr_answer := "Paris";
     qr_correct := false; qr_supporting_sentences := [];
     qr_retrieved_docs := []; qr_backup_docs := [];
     qr_raw_response := "Rome"; qr_evidence_list := [];
     qr_evidence_retrieval_analysis := a;
     qr_error_type := "unknown"; qr_error_details := None |}.

(** Three slots: a question with evidence, an empty slot, and a question
    without evidence. *)
Definition stored_results : results_array :=
  [Some (result_with analysis); None;
   Some (result_with (status_only "No evidence provided."))].

Definition question : qa_item :=
  {| qa_query := "What is the capital of France?"; qa_answer := "Paris";
     qa_evidence_list := [ {| ev_fact := "alpha"; ev_title := EmptyString |} ] |}.

End Sample.

(* ===================================================================== *)
(** * Properties of the binary64 rounding *)
(* ===================================================================== *)

Section Rounding.

Import Binary64.
Local Open Scope Q_scope.

Lemma two_pow_pos (e : Z) : 0 < 2 ^ e.
Proof. apply Qpower_0_lt. reflexivity. Qed.

Lemma two_pow_succ (e : Z) : 2 ^ (e + 1) == 2 * 2 ^ e.
Proof. rewrite Qpower_plus by discriminate. change (2 ^ 1) with 2. ring. Qed.

Lemma two_pow_le (e e' : Z) : (e <= e')%Z -> 2 ^ e <= 2 ^ e'.
Proof. intros H. apply Qpower_le_compat_l; [exact H | discriminate]. Qed.

Lemma two_pow_inject (a : Z) : (0 <= a)%Z -> inject_Z (2 ^ a) == 2 ^ a.
Proof. intros H. apply (Zpower_Qpower 2 a H). Qed.

Lemma log2_bounds (n : Z) :
(0 < n)%Z -> 2 ^ Z.log2 n <= inject_Z n /\ inject_Z n < 2 ^ (Z.log2 n + 1).
Proof.
intros Hn. destruct (Z.log2_spec n Hn) as [H1 H2].
pose proof (Z.log2_nonneg n) as H0.
split.
- rewrite <- two_pow_inject by exact H0. rewrite <- Zle_Qle. exact H1.
- rewrite <- two_pow_inject by lia. rewrite <- Zlt_Qlt.
  replace (Z.log2 n + 1)%Z with (Z.succ (Z.log2 n)) by lia. exact H2.
Qed.

Lemma Q_as_ratio (q : Q) : q * inject_Z (Zpos (Qden q)) == inject_Z (Qnum q).
Proof.
destruct q as [n d]. unfold Qeq, Qmult, inject_Z. simpl.
rewrite Pos.mul_1_r. ring.
Qed.

Lemma exponent_spec (q : Q) :
0 < q -> 2 ^ exponent q <= q /\ q < 2 ^ (exponent q + 1).
Proof.
intros Hq.
assert (Hn : (0 < Qnum q)%Z).
{ destruct q as [n d]. unfold Qlt in Hq. simpl in *. lia. }
destruct (log2_bounds (Qnum q) Hn) as [Ha1 Ha2].
destruct (log2_bounds (Zpos (Qden q)) eq_refl) as [Hb1 Hb2].
pose proof (Q_as_ratio q) as Hr.
set (a := Z.log2 (Qnum q)) in *. set (b := Z.log2 (Zpos (Qden q))) in *.
set (N := inject_Z (Qnum q)) in *. set (D := inject_Z (Zpos (Qden q))) in *.
assert (HD : 0 < D) by (unfold D; rewrite <- (Zlt_Qlt 0); reflexivity).
unfold exponent. fold a b.
pose proof (two_pow_pos (a - b)) as Hp.
pose proof (two_pow_pos b) as Hpb.
assert (E1 : 2 ^ (a + 1) == 2 * 2 ^ (a - b) * 2 ^ b).
{ rewrite two_pow_succ. replace a with ((a - b) + b)%Z at 1 by ring.
  rewrite Qpower_plus by discriminate. ring. }
assert (E2 : 2 ^ a == 2 ^ (a - b) * 2 ^ b).
{ replace a with ((a - b) + b)%Z at 1 by ring.
  rewrite Qpower_plus by discriminate. ring. }
assert (E3 : 2 ^ (b + 1) == 2 * 2 ^ b) by apply two_pow_succ.
destruct (Qle_bool (2 ^ (a - b)) q) eqn:Hle.
- apply Qle_bool_iff in Hle. split; [exact Hle|].
  rewrite two_pow_succ. nra.
- assert (Hlt : q < 2 ^ (a - b)).
  { apply Qnot_le_lt. intros H. apply Qle_bool_iff in H. congruence. }
  replace (a - b - 1 + 1)%Z with (a - b)%Z by ring.
  split; [|exact Hlt].
  assert (E4 : 2 ^ (a - b) == 2 * 2 ^ (a - b - 1)).
  { replace (a - b)%Z with ((a - b - 1) + 1)%Z at 1 by ring. apply two_pow_succ. }
  pose proof (two_pow_pos (a - b - 1)) as Hp1.
  nra.
Qed.

Lemma exponent_unique (q : Q) (e : Z) :
0 < q -> 2 ^ e <= q -> q < 2 ^ (e + 1) -> exponent q = e.
Proof.
intros Hq H1 H2. destruct (exponent_spec q Hq) as [S1 S2].
assert (L1 : (exponent q < e + 1)%Z).
{ apply (Qpower_lt_compat_l_inv 2); [|reflexivity].
  eapply Qle_lt_trans; [exact S1 | exact H2]. }
assert (L2 : (e < exponent q + 1)%Z).
{ apply (Qpower_lt_compat_l_inv 2); [|reflexivity].
  eapply Qle_lt_trans; [exact H1 | exact S2]. }
lia.
Qed.

Lemma exponent_comp (p q : Q) : 0 < p -> p == q -> exponent p = exponent q.
Proof.
intros Hp Hpq. assert (Hq : 0 < q) by (rewrite <- Hpq; exact Hp).
destruct (exponent_spec q Hq) as [S1 S2].
apply exponent_unique; [exact Hp | rewrite Hpq; exact S1 | rewrite Hpq; exact S2].
Qed.

Lemma rne_comp (x y : Q) : x == y -> rne x = rne y.
Proof.
intros H. unfold rne. rewrite (Qfloor_comp x y H).
assert (E : Qcompare (x - inject_Z (Qfloor y)) (1 # 2)
            = Qcompare (y - inject_Z (Qfloor y)) (1 # 2)).
{ rewrite H. reflexivity. }
rewrite E. reflexivity.
Qed.

Lemma rne_floor (x : Q) : (Qfloor x <= rne x <= Qfloor x + 1)%Z.
Proof.
unfold rne. destruct (Qcompare _ _); [destruct (Z.even _)| |]; lia.
Qed.

Lemma rne_inject (j : Z) : rne (inject_Z j) = j.
Proof.
unfold rne. rewrite Qfloor_Z.
assert (E0 : inject_Z j - inject_Z j == 0) by ring.
rewrite E0. reflexivity.
Qed.

Lemma rne_lower (x : Q) (j : Z) : inject_Z j <= x -> (j <= rne x)%Z.
Proof.
intros H. apply Qfloor_resp_le in H. rewrite Qfloor_Z in H.
pose proof (rne_floor x). lia.
Qed.

Lemma rne_upper (x : Q) (j : Z) : x <= inject_Z j -> (rne x <= j)%Z.
Proof.
intros H. pose proof (Qfloor_resp_le _ _ H) as Hf. rewrite Qfloor_Z in Hf.
destruct (Z.eq_dec (Qfloor x) j) as [E|NE].
- assert (Hx : x == inject_Z j).
  { apply Qle_antisym; [exact H|]. rewrite <- E. apply Qfloor_le. }
  rewrite (rne_comp _ _ Hx), rne_inject. lia.
- pose proof (rne_floor x). lia.
Qed.

Lemma Qabs_pos_nonzero (q : Q) : ~ q == 0 -> 0 < Qabs q.
Proof.
intros NZ. apply Qabs_case; intros H.
- apply Qle_lteq in H. destruct H as [H|H]; [exact H|]. symmetry in H. contradiction.
- apply Qle_lteq in H. destruct H as [H|H]; [lra|]. contradiction.
Qed.

Lemma rnd_zero (q : Q) : q == 0 -> rnd q = 0.
Proof.
intros H. unfold rnd. apply Qeq_bool_iff in H. rewrite H. reflexivity.
Qed.

Lemma rnd_nonzero (q : Q) :
~ q == 0 ->
rnd q = Qred (inject_Z (rne (q * 2 ^ frac_bits (Qabs q)))
              * 2 ^ (- frac_bits (Qabs q))).
Proof.
intros H. unfold rnd. destruct (Qeq_bool q 0) eqn:E; [|reflexivity].
apply Qeq_bool_iff in E. contradiction.
Qed.

Lemma frac_bits_comp (p q : Q) : 0 < p -> p == q -> frac_bits p = frac_bits q.
Proof. intros Hp H. unfold frac_bits. rewrite (exponent_comp p q Hp H). reflexivity. Qed.

Lemma rnd_comp (p q : Q) : p == q -> rnd p = rnd q.
Proof.
intros H. destruct (Qeq_dec p 0) as [Z0|NZ].
- rewrite (rnd_zero p Z0). symmetry. apply rnd_zero. rewrite <- H. exact Z0.
- assert (NZq : ~ q == 0) by (rewrite <- H; exact NZ).
  rewrite (rnd_nonzero p NZ), (rnd_nonzero q NZq).
  assert (Habs : 0 < Qabs p) by (apply Qabs_pos_nonzero; exact NZ).
  assert (Hs : frac_bits (Qabs p) = frac_bits (Qabs q)).
  { apply frac_bits_comp; [exact Habs | rewrite H; reflexivity]. }
  rewrite Hs. apply Qred_complete.
  rewrite (rne_comp (p * 2 ^ frac_bits (Qabs q)) (q * 2 ^ frac_bits (Qabs q))).
  + reflexivity.
  + rewrite H. reflexivity.
Qed.

Lemma two_pow_cancel (s : Z) : 2 ^ s * 2 ^ (- s) == 1.
Proof.
rewrite <- Qpower_plus by discriminate.
replace (s + - s)%Z with 0%Z by ring. reflexivity.
Qed.

Lemma two_pow_add (a b : Z) : 2 ^ (a + b) == 2 ^ a * 2 ^ b.
Proof. apply Qpower_plus. discriminate. Qed.

Lemma Qabs_of_pos (q : Q) : 0 < q -> Qabs q == q.
Proof. intros H. apply Qabs_pos. lra. Qed.

(** The shape of [rnd] on a positive number. *)
Lemma rnd_pos_shape (q : Q) :
0 < q ->
exists s m : Z,
  s = frac_bits q /\ m = rne (q * 2 ^ s) /\
  rnd q = Qred (inject_Z m * 2 ^ (- s)) /\
  (0 <= m)%Z /\ (m <= 2 ^ 53)%Z /\ (s <= 1074)%Z.
Proof.
intros Hq.
assert (NZ : ~ q == 0) by (intros E; rewrite E in Hq; discriminate).
exists (frac_bits q), (rne (q * 2 ^ frac_bits q)).
assert (Hs : frac_bits (Qabs q) = frac_bits q).
{ apply frac_bits_comp; [apply Qabs_pos_nonzero; exact NZ | apply Qabs_of_pos; exact Hq]. }
split; [reflexivity|]. split; [reflexivity|]. split.
{ rewrite (rnd_nonzero q NZ), Hs. reflexivity. }
destruct (exponent_spec q Hq) as [S1 S2].
pose proof (two_pow_pos (frac_bits q)) as Hp.
split; [|split].
- apply rne_lower. change (inject_Z 0) with 0. nra.
- apply rne_upper. rewrite two_pow_inject by lia.
  assert (Hle : (exponent q + 1 + frac_bits q <= 53)%Z) by (unfold frac_bits; lia).
  pose proof (two_pow_le _ _ Hle) as Hle'.
  rewrite two_pow_add in Hle'. nra.
- unfold frac_bits. lia.
Qed.

Lemma rnd_nonneg (q : Q) : 0 <= q -> 0 <= rnd q.
Proof.
intros H. apply Qle_lteq in H. destruct H as [H|H].
- destruct (rnd_pos_shape q H) as (s & m & _ & _ & E & Hm & _).
  rewrite E, Qred_correct. pose proof (two_pow_pos (- s)).
  assert (0 <= inject_Z m) by (rewrite <- (Zle_Qle 0); exact Hm). nra.
- rewrite rnd_zero by (symmetry; exact H). lra.
Qed.

Lemma exponent_neg (q : Q) : 0 < q -> q <= 1 -> (exponent q <= 0)%Z.
Proof.
intros H0 H1. destruct (exponent_spec q H0) as [S1 _].
apply (Qpower_le_compat_l_inv 2); [|reflexivity].
change (2 ^ 0) with 1. lra.
Qed.

Lemma rnd_le_1 (q : Q) : 0 <= q -> q <= 1 -> rnd q <= 1.
Proof.
intros H0 H1. apply Qle_lteq in H0. destruct H0 as [H0|H0].
- destruct (rnd_pos_shape q H0) as (s & m & Hs & Hm & E & _ & _ & _).
  pose proof (exponent_neg q H0 H1) as He.
  assert (Hs0 : (0 <= s)%Z) by (rewrite Hs; unfold frac_bits; lia).
  assert (Hm1 : (m <= 2 ^ s)%Z).
  { rewrite Hm. apply rne_upper. rewrite two_pow_inject by exact Hs0.
    pose proof (two_pow_pos s). nra. }
  rewrite E, Qred_correct.
  rewrite Zle_Qle in Hm1. rewrite two_pow_inject in Hm1 by exact Hs0.
  pose proof (two_pow_cancel s). pose proof (two_pow_pos (- s)). nra.
- rewrite rnd_zero by (symmetry; exact H0). lra.
Qed.

Lemma rnd_ge_1 (q : Q) : 1 <= q -> 1 <= rnd q.
Proof.
intros H1. assert (H0 : 0 < q) by lra.
destruct (rnd_pos_shape q H0) as (s & m & Hs & Hm & E & _ & _ & _).
destruct (exponent_spec q H0) as [S1 S2].
assert (He : (0 <= exponent q)%Z).
{ assert ((0 < exponent q + 1)%Z); [|lia].
  apply (Qpower_lt_compat_l_inv 2); [|reflexivity]. change (2 ^ 0) with 1. lra. }
assert (Hs' : s = (52 - exponent q)%Z) by (rewrite Hs; unfold frac_bits; lia).
assert (Hm52 : (2 ^ 52 <= m)%Z).
{ rewrite Hm. apply rne_lower. rewrite two_pow_inject by lia.
  replace 52%Z with (exponent q + s)%Z at 1 by lia.
  rewrite two_pow_add. pose proof (two_pow_pos s). nra. }
rewrite E, Qred_correct.
rewrite Zle_Qle in Hm52. rewrite two_pow_inject in Hm52 by lia.
assert (E52 : 2 ^ 52 * 2 ^ (- s) == 2 ^ exponent q).
{ rewrite <- two_pow_add. replace (52 + - s)%Z with (exponent q) by lia. reflexivity. }
assert (1 <= 2 ^ exponent q).
{ change 1 with (2 ^ 0). apply two_pow_le. exact He. }
pose proof (two_pow_pos (- s)). nra.
Qed.

Lemma rnd_fixed_of_grid (y : Q) (j : Z) :
0 < y -> y * 2 ^ frac_bits y == inject_Z j -> rnd y = Qred y.
Proof.
intros Hy Hj.
destruct (rnd_pos_shape y Hy) as (s & m & Hs & Hm & E & _).
rewrite E. apply Qred_complete. subst s.
rewrite Hm, (rne_comp _ _ Hj), rne_inject, <- Hj.
rewrite <- Qmult_assoc, two_pow_cancel. ring.
Qed.

Lemma rnd_idem (q : Q) : 0 <= q -> rnd (rnd q) = rnd q.
Proof.
intros H. apply Qle_lteq in H. destruct H as [Hq|Hq].
2:{ rewrite (rnd_zero q) by (symmetry; exact Hq). reflexivity. }
destruct (rnd_pos_shape q Hq) as (s & m & Hs & Hm & E & Hm0 & Hm53 & Hs1074).
assert (Hy : rnd q == inject_Z m * 2 ^ (- s)) by (rewrite E; apply Qred_correct).
destruct (Z.eq_dec m 0%Z) as [M0|M0].
{ assert (Hz : rnd q == 0) by (rewrite Hy, M0; ring).
  rewrite (rnd_zero _ Hz). rewrite E. apply (Qred_complete 0).
  rewrite <- Hy. symmetry. exact Hz. }
assert (Hm1 : 1 <= inject_Z m) by (rewrite <- (Zle_Qle 1); lia).
pose proof (two_pow_pos (- s)) as Hps.
assert (Hypos : 0 < rnd q) by (rewrite Hy; nra).
destruct (exponent_spec _ Hypos) as [S1 S2].
assert (Hfix : exists j, rnd q * 2 ^ frac_bits (rnd q) == inject_Z j).
{ destruct (Z.eq_dec m (2 ^ 53)%Z) as [M53|M53].
  - assert (Hy' : rnd q == 2 ^ (53 - s)).
    { rewrite Hy, M53, two_pow_inject by lia. rewrite <- two_pow_add.
      reflexivity. }
    assert (He : exponent (rnd q) = (53 - s)%Z).
    { apply exponent_unique; [exact Hypos | rewrite Hy'; apply Qle_refl |].
      rewrite Hy', two_pow_succ. pose proof (two_pow_pos (53 - s)). lra. }
    exists (2 ^ 52)%Z. unfold frac_bits. rewrite He.
    replace (Z.min (52 - (53 - s)) 1074) with (s - 1)%Z by lia.
    rewrite Hy', <- two_pow_add, two_pow_inject by lia.
    replace (53 - s + (s - 1))%Z with 52%Z by lia. reflexivity.
  - assert (Hlt : inject_Z m <= 2 ^ 53 - 1).
    { rewrite <- two_pow_inject by lia.
      change (inject_Z (2 ^ 53) - 1) with (inject_Z (2 ^ 53 - 1)).
      rewrite <- Zle_Qle. lia. }
    assert (Hy' : rnd q < 2 ^ (53 - s)).
    { rewrite Hy. unfold Z.sub. rewrite two_pow_add. nra. }
    assert (He : (exponent (rnd q) < 53 - s)%Z).
    { apply (Qpower_lt_compat_l_inv 2); [|reflexivity].
      eapply Qle_lt_trans; [exact S1 | exact Hy']. }
    set (s' := frac_bits (rnd q)).
    assert (Hs' : (s <= s')%Z) by (unfold s', frac_bits; lia).
    exists (m * 2 ^ (s' - s))%Z.
    rewrite inject_Z_mult, two_pow_inject by lia. rewrite Hy.
    unfold Z.sub. rewrite (two_pow_add s' (- s)). ring. }
destruct Hfix as [j Hj].
rewrite (rnd_fixed_of_grid _ j Hypos Hj).
rewrite E. apply Qred_complete, Qred_correct.
Qed.

End Rounding.

(* ===================================================================== *)
(** * Properties of the string operations *)
(* ===================================================================== *)

Lemma startswith_spec (s p : string) :
  Str.startswith s p = true <-> exists post : string, s = (p ++ post)%string.
Proof.
  revert s. induction p as [|a p IH]; intros s.
  - split; [intros _; exists s; reflexivity | intros _; destruct s; reflexivity].
  - destruct s as [|b s]; simpl.
    + split; [discriminate | intros [post H]; discriminate].
    + destruct (Ascii.eqb_spec a b) as [->|NE].
      * rewrite IH. split; intros [post H]; exists post.
        -- rewrite H. reflexivity.
        -- injection H as H. exact H.
      * split; [discriminate | intros [post H]; injection H as H1 H2; congruence].
Qed.

Lemma contains_spec (needle s : string) :
  Str.contains needle s = true <-> occurs needle s.
Proof.
  unfold occurs. induction s as [|c s IH].
  - change (Str.contains needle EmptyString)
      with (Str.startswith EmptyString needle || false)%bool.
    rewrite orb_false_r, startswith_spec. split.
    + intros [post H]. exists EmptyString, post. exact H.
    + intros [pre [post H]]. destruct pre; [exists post; exact H | discriminate].
  - change (Str.contains needle (String c s))
      with (Str.startswith (String c s) needle || Str.contains needle s)%bool.
    rewrite orb_true_iff, startswith_spec, IH. split.
    + intros [[post H] | [pre [post H]]].
      * exists EmptyString, post. exact H.
      * exists (String c pre), post. rewrite H. reflexivity.
    + intros [pre [post H]]. destruct pre as [|c' pre].
      * left. exists post. exact H.
      * right. exists pre, post. injection H as _ H. exact H.
Qed.

Lemma contains_false (needle s : string) :
  Str.contains needle s = false <-> ~ occurs needle s.
Proof.
  rewrite <- contains_spec. destruct (Str.contains needle s); split; congruence.
Qed.

(* ===================================================================== *)
(** * Properties of the arithmetic on counts *)
(* ===================================================================== *)

(** The literal [0.7] is the binary64 number 0x3FE6666666666666. *)
Example literal_seven_tenths :
  Binary64.lit_0_7 = (3152519739159347 # 4503599627370496)%Q
  /\ (Binary64.lit_0_7 < 7 # 10)%Q.
Proof. split; reflexivity. Qed.

Section CountArithmetic.

Import Binary64.
Local Open Scope Q_scope.

Lemma truediv_ok (a b : Z) :
  b <> 0%Z -> truediv a b = Ok (rnd (inject_Z a / inject_Z b)).
Proof.
  intros Hb. unfold truediv. destruct (Z.eqb_spec b 0); [contradiction | reflexivity].
Qed.

Lemma inject_Z_nonzero (b : Z) : b <> 0%Z -> ~ inject_Z b == 0.
Proof.
  intros Hb H. apply Hb. apply (eq_sym) in H. 
  unfold Qeq, inject_Z in H. simpl in H. lia.
Qed.

(** A quotient of counts that is exactly seven tenths is the literal
    [0.7]. *)
Lemma truediv_seven_tenths (h t : Z) :
  (0 < t)%Z -> (10 * h = 7 * t)%Z -> truediv h t = Ok lit_0_7.
Proof.
  intros Ht E. rewrite truediv_ok by lia. f_equal.
  transitivity (rnd (7 # 10)); [|vm_compute; reflexivity].
  apply rnd_comp.
  assert (HT : ~ inject_Z t == 0) by (apply inject_Z_nonzero; lia).
  assert (EQ : inject_Z 10 * inject_Z h == inject_Z 7 * inject_Z t).
  { rewrite <- !inject_Z_mult, E. reflexivity. }
  assert (Hh : inject_Z h == (7 # 10) * inject_Z t).
  { change (inject_Z 10) with 10 in EQ. change (inject_Z 7) with 7 in EQ. lra. }
  rewrite Hh. field. exact HT.
Qed.

Lemma flt_irrefl (x : float) : flt x x = false.
Proof.
  unfold flt. assert (H : Qle_bool x x = true) by (apply Qle_bool_iff, Qle_refl).
  rewrite H. reflexivity.
Qed.

Lemma flt_spec (x y : float) : flt x y = true <-> x < y.
Proof.
  unfold flt. rewrite negb_true_iff. split.
  - intros H. apply Qnot_le_lt. intros Hle. apply Qle_bool_iff in Hle. congruence.
  - intros H. destruct (Qle_bool y x) eqn:E; [|reflexivity].
    apply Qle_bool_iff in E. lra.
Qed.

(** A quotient of counts [0 <= h <= t], [t > 0], is defined and lies in
    [[0, 1]]. *)
Lemma truediv_unit_interval (h t : Z) :
  (0 <= h)%Z -> (h <= t)%Z -> (0 < t)%Z ->
  exists r : float, truediv h t = Ok r /\ 0 <= r /\ r <= 1.
Proof.
  intros H0 Hle Ht. exists (rnd (inject_Z h / inject_Z t)).
  split; [apply truediv_ok; lia|].
  assert (HT : 0 < inject_Z t) by (rewrite <- (Zlt_Qlt 0); exact Ht).
  assert (Hh : 0 <= inject_Z h) by (rewrite <- (Zle_Qle 0); exact H0).
  assert (Hht : inject_Z h <= inject_Z t) by (rewrite <- Zle_Qle; exact Hle).
  assert (Q0 : 0 <= inject_Z h / inject_Z t).
  { apply Qle_shift_div_l; [exact HT | lra]. }
  assert (Q1 : inject_Z h / inject_Z t <= 1).
  { apply Qle_shift_div_r; [exact HT | lra]. }
  split; [apply rnd_nonneg; exact Q0 | apply rnd_le_1; assumption].
Qed.

(** [float(n)] of a positive count is not zero. *)
Lemma of_int_pos_nonzero (n : Z) : (0 < n)%Z -> Qeq_bool (of_int n) 0 = false.
Proof.
  intros Hn. unfold of_int.
  assert (H1 : 1 <= inject_Z n) by (rewrite <- (Zle_Qle 1); lia).
  pose proof (rnd_ge_1 _ H1) as H.
  destruct (Qeq_bool (rnd (inject_Z n)) 0) eqn:E; [|reflexivity].
  apply Qeq_bool_iff in E. lra.
Qed.

End CountArithmetic.

(* ===================================================================== *)
(** * The error classifier *)
(* ===================================================================== *)

Section ClassifierFacts.

Context {ext : External}.

Lemma verdict_is_listed (v : string) :
  existsb (String.eqb v) ["incorrect_specificity"; "incomplete"]%string = true ->
  v = "incorrect_specificity"%string \/ v = "incomplete"%string.
Proof.
  simpl. rewrite orb_false_r, orb_true_iff, !String.eqb_eq. tauto.
Qed.

(** The labels of the generation stage. *)
Lemma generation_errors_labels (query response ground_truth raw_response : string)
    (counts : option hit_counts) (r : error_analysis) :
  generation_errors query response ground_truth raw_response counts = Ok r ->
  error_type r = "incorrect_specificity"%string
  \/ error_type r = "incomplete"%string \/ error_type r = "unknown"%string.
Proof.
  unfold generation_errors. intros H.
  destruct (match has_evidence counts with
            | Some hc =>
                let* ratio := Binary64.truediv (context_hits hc) (total_evidence hc) in
                Ok (format_percent ratio)
            | None => Ok "N/A"%string
            end) as [coverage| |]; cbv beta iota delta [bind] in H;
    try discriminate.
  destruct (call_openai_api _) as [completion|e].
  - destruct (existsb _ _) eqn:E; injection H as <-; simpl.
    + apply verdict_is_listed in E. tauto.
    + tauto.
  - injection H as <-. simpl. tauto.
Qed.

(** The coverage rules fire on a strict comparison with the literal
    [0.7], and in the order of the cascade. *)
Lemma retrieval_errors_fires (counts : option hit_counts) (v : error_analysis) :
  retrieval_errors counts = Ok (Some v) ->
  exists (hc : hit_counts) (pool_ratio context_ratio : Binary64.float),
    counts = Some hc /\ 0 < total_evidence hc
    /\ Binary64.truediv (context_hits hc + backup_hits hc) (total_evidence hc)
       = Ok pool_ratio
    /\ Binary64.truediv (context_hits hc) (total_evidence hc) = Ok context_ratio
    /\ ((Binary64.flt pool_ratio Binary64.lit_0_7 = true
         /\ error_type v = "missed_top_ranked_documents"%string)
        \/ (Binary64.flt pool_ratio Binary64.lit_0_7 = false
            /\ Binary64.flt context_ratio Binary64.lit_0_7 = true
            /\ error_type v = "not_in_context"%string)).
Proof.
  unfold retrieval_errors, has_evidence. intros H.
  destruct counts as [hc|]; [|discriminate].
  destruct (Z.ltb_spec 0 (total_evidence hc)) as [Ht|Ht]; [|discriminate].
  destruct (Binary64.truediv (context_hits hc + backup_hits hc) (total_evidence hc))
    as [r1| |] eqn:E1; simpl in H; try discriminate.
  destruct (Binary64.truediv (context_hits hc) (total_evidence hc))
    as [r2| |] eqn:E2; simpl in H; try discriminate.
  exists hc, r1, r2. repeat (split; [solve [auto] |]).
  destruct (Binary64.flt r1 Binary64.lit_0_7).
  - injection H as <-. left. auto.
  - destruct (Binary64.flt r2 Binary64.lit_0_7); [|discriminate].
    injection H as <-. right. auto.
Qed.

(** Where each coverage label can come from. *)
Lemma coverage_label_origin (query : string) (is_correct : bool)
    (response ground_truth : string) (analysis : evidence_analysis)
    (raw_response : string) (r : error_analysis) :
  analyze_error_type query is_correct response ground_truth analysis raw_response
  = Ok r ->
  error_type r = "missed_top_ranked_documents"%string
  \/ error_type r = "not_in_context"%string ->
  retrieval_errors (ea_hit_counts analysis) = Ok (Some r).
Proof.
  unfold analyze_error_type. intros H L.
  destruct is_correct.
  { injection H as <-. simpl in L. destruct L; discriminate. }
  destruct (_ && _)%bool.
  { injection H as <-. simpl in L. destruct L; discriminate. }
  destruct (parse_json_safely raw_response) as [v| |]; simpl in H; try discriminate.
  destruct v as [ | | | | | | | |items];
    try (injection H as <-; simpl in L; destruct L; discriminate).
  destruct (_ || _)%bool.
  { injection H as <-. simpl in L. destruct L; discriminate. }
  destruct (retrieval_errors (ea_hit_counts analysis)) as [[v|]| |];
    simpl in H; try discriminate.
  { injection H as <-. reflexivity. }
  assert (G : forall r', generation_errors query response ground_truth raw_response
                           (ea_hit_counts analysis) = Ok r' -> r' = r -> False).
  { intros r' Hr' ->. apply generation_errors_labels in Hr'.
    destruct L as [L|L]; rewrite L in Hr'; destruct Hr' as [?|[?|?]]; discriminate. }
  destruct (has_evidence (ea_hit_counts analysis)) as [hc|].
  - destruct (context_hits hc =? total_evidence hc).
    + injection H as <-. simpl in L. destruct L; discriminate.
    + exfalso. eapply G; [exact H | reflexivity].
  - exfalso. eapply G; [exact H | reflexivity].
Qed.

(** C2.  A coverage of exactly seven tenths does not fire either rule:
    with [total_evidence > 0], if the pool covers exactly 70% of the
    evidence-bearing ids the label is not [missed_top_ranked_documents],
    and if the context covers exactly 70% the label is not
    [not_in_context].  Both rules compare strictly below the literal
    [0.7] ([retrieval_errors_fires]). *)
Theorem exact_threshold_is_not_a_miss (query response ground_truth : string)
    (analysis : evidence_analysis) (raw_response : string)
    (hc : hit_counts) (r : error_analysis) :
  ea_hit_counts analysis = Some hc ->
  0 < total_evidence hc ->
  analyze_error_type query false response ground_truth analysis raw_response
  = Ok r ->
  (10 * (context_hits hc + backup_hits hc) = 7 * total_evidence hc ->
   error_type r <> "missed_top_ranked_documents"%string)
  /\ (10 * context_hits hc = 7 * total_evidence hc ->
      error_type r <> "not_in_context"%string).
Proof.
  intros Hhc Ht Hr. split; intros E L.
  - pose proof (coverage_label_origin _ _ _ _ _ _ _ Hr (or_introl L)) as F.
    apply retrieval_errors_fires in F.
    destruct F as (hc' & r1 & r2 & Hc & _ & E1 & _ & [[F _]|[_ [_ F]]]).
    + rewrite Hhc in Hc. injection Hc as <-.
      rewrite (truediv_seven_tenths _ _ Ht E) in E1. injection E1 as <-.
      rewrite flt_irrefl in F. discriminate.
    + rewrite L in F. discriminate.
  - pose proof (coverage_label_origin _ _ _ _ _ _ _ Hr (or_intror L)) as F.
    apply retrieval_errors_fires in F.
    destruct F as (hc' & r1 & r2 & Hc & _ & _ & E2 & [[_ F]|[_ [F _]]]).
    + rewrite L in F. discriminate.
    + rewrite Hhc in Hc. injection Hc as <-.
      rewrite (truediv_seven_tenths _ _ Ht E) in E2. injection E2 as <-.
      rewrite flt_irrefl in F. discriminate.
Qed.

(** C1.  When the answer is judged wrong, the reference answer contains
    "insufficient information" (in any letter case) and the predicted
    answer does not, [analyze_error_type] returns [missing_content],
    whatever the raw response and the retrieval analysis are: the rule
    fires before the raw response is parsed and before any hit count is
    read. *)
Theorem missing_content_has_priority (query response ground_truth : string)
    (evidence_retrieval_analysis : evidence_analysis) (raw_response : string) :
  occurs "insufficient information" (Str.lower ground_truth) ->
  ~ occurs "insufficient information" (Str.lower response) ->
  analyze_error_type query false response ground_truth
    evidence_retrieval_analysis raw_response
  = Ok (label "missing_content").
Proof.
  intros Hgt Hres. unfold analyze_error_type.
  apply contains_spec in Hgt. apply contains_false in Hres.
  rewrite Hgt, Hres. reflexivity.
Qed.

End ClassifierFacts.

(** Seven relevant ids of ten in the context: the cascade passes both
    coverage rules and ends in the generation stage. *)
Lemma exact_threshold_is_not_a_miss_witness :
  exists r : error_analysis,
    analyze_error_type (ext := Sample.ext) "q" false "Paris" "Rome"
      Sample.seven_of_ten Sample.both_keys = Ok r
    /\ error_type r <> "missed_top_ranked_documents"%string
    /\ error_type r <> "not_in_context"%string.
Proof.
  exists (label "unknown").
  assert (Hr : analyze_error_type (ext := Sample.ext) "q" false "Paris" "Rome"
                 Sample.seven_of_ten Sample.both_keys = Ok (label "unknown"))
    by (vm_compute; reflexivity).
  destruct (exact_threshold_is_not_a_miss (ext := Sample.ext) "q" "Paris" "Rome"
              Sample.seven_of_ten Sample.both_keys
              {| context_hits := 7; backup_hits := 0; total_evidence := 10 |}
              (label "unknown") eq_refl eq_refl Hr) as [A B].
  split; [exact Hr|]. split; [apply A; reflexivity | apply B; reflexivity].
Defined.

(** The rule fires on a reference answer in capitals, with a raw response on
    which the parser would not even return. *)
Lemma missing_content_has_priority_witness :
  analyze_error_type (ext := Sample.ext) "q" false "Paris"
    "INSUFFICIENT INFORMATION." (status_only "No evidence provided.")
    Sample.quoted_text
  = Ok (label "missing_content").
Proof.
  apply (missing_content_has_priority (ext := Sample.ext)).
  - exists EmptyString, "."%string. reflexivity.
  - apply contains_false. reflexivity.
Defined.

(* ===================================================================== *)
(** * The evidence analyzer *)
(* ===================================================================== *)

Section EvidenceFacts.

Context {ext : External}.

Lemma collect_true_doc_ids_from (X : gset Z) (m : list (list Z)) :
  foldl (fun acc doc_ids => acc ∪ list_to_set doc_ids) X m
  = X ∪ ⋃ (map (fun ids => list_to_set ids : gset Z) m).
Proof.
  revert X. induction m as [|ids m IH]; intros X; simpl.
  - set_solver.
  - rewrite IH. set_solver.
Qed.

Lemma collect_true_doc_ids_spec (vs : vectorstore) (evidence_list : list evidence) :
  collect_true_doc_ids (map (evidence_doc_ids vs) evidence_list)
  = all_true_ids vs evidence_list.
Proof.
  unfold collect_true_doc_ids, all_true_ids.
  rewrite collect_true_doc_ids_from, map_map. set_solver.
Qed.

(** A document id is relevant when some evidence item maps to it. *)
Lemma elem_of_all_true_ids (vs : vectorstore) (evidence_list : list evidence)
    (d : Z) :
  d ∈ all_true_ids vs evidence_list
  <-> exists ev, ev ∈ evidence_list /\ d ∈ evidence_doc_ids vs ev.
Proof.
  unfold all_true_ids. rewrite elem_of_union_list. split.
  - intros (X & HX & Hd). apply list_elem_of_In, in_map_iff in HX.
    destruct HX as (ev & <- & Hev). exists ev. split.
    + apply list_elem_of_In. exact Hev.
    + apply elem_of_list_to_set in Hd. exact Hd.
  - intros (ev & Hev & Hd). exists (list_to_set (evidence_doc_ids vs ev)). split.
    + apply list_elem_of_In, in_map_iff. exists ev. split; [reflexivity|].
      apply list_elem_of_In. exact Hev.
    + apply elem_of_list_to_set. exact Hd.
Qed.

Lemma enumerate_from_cons {A : Type} (start : Z) (x : A) (l : list A) :
  enumerate_from start (x :: l) = (start, x) :: enumerate_from (start + 1) l.
Proof.
  unfold enumerate_from. rewrite imap_cons. f_equal.
  apply imap_ext. intros i y _. simpl. f_equal. lia.
Qed.

Lemma relevant_ranks_from_cons (start : Z) (T : gset Z) (d : Z)
    (score : Binary64.float) (docs : list (Z * Binary64.float)) :
  relevant_ranks_from start T ((d, score) :: docs)
  = if bool_decide (d ∈ T)
    then start :: relevant_ranks_from (start + 1) T docs
    else relevant_ranks_from (start + 1) T docs.
Proof.
  unfold relevant_ranks_from. rewrite enumerate_from_cons. simpl.
  destruct (bool_decide (d ∈ T)); reflexivity.
Qed.

Lemma precision_terms_from_cons (found rank : Z) (ranks : list Z) :
  precision_terms_from found (rank :: ranks)
  = Binary64.rnd (inject_Z (found + 1) / inject_Z rank)
    :: precision_terms_from (found + 1) ranks.
Proof.
  unfold precision_terms_from. rewrite imap_cons. f_equal.
  - do 3 f_equal. lia.
  - apply imap_ext. intros j r _. simpl. do 3 f_equal. lia.
Qed.

Lemma relevant_ranks_from_pos (start : Z) (T : gset Z)
    (docs : list (Z * Binary64.float)) (r : Z) :
  0 < start -> r ∈ relevant_ranks_from start T docs -> 0 < r.
Proof.
  revert start. induction docs as [|[d score] docs IH]; intros start Hs Hr.
  - unfold relevant_ranks_from in Hr. simpl in Hr. inversion Hr.
  - rewrite relevant_ranks_from_cons in Hr.
    destruct (bool_decide (d ∈ T)).
    + apply elem_of_cons in Hr. destruct Hr as [->|Hr]; [exact Hs|].
      apply (IH (start + 1)); [lia | exact Hr].
    + apply (IH (start + 1)); [lia | exact Hr].
Qed.

(** The relevant ranks are the positions, counted from [start], of the
    documents whose id is relevant. *)
Lemma elem_of_relevant_ranks_from (start : Z) (T : gset Z)
    (docs : list (Z * Binary64.float)) (r : Z) :
  r ∈ relevant_ranks_from start T docs
  <-> exists (i : nat) (d : Z) (score : Binary64.float),
        docs !! i = Some (d, score) /\ d ∈ T /\ r = start + Z.of_nat i.
Proof.
  revert start. induction docs as [|[d score] docs IH]; intros start.
  - unfold relevant_ranks_from. simpl. split.
    + intros H. inversion H.
    + intros (i & d & score & H & _). discriminate.
  - rewrite relevant_ranks_from_cons.
    assert (Hrest : r ∈ relevant_ranks_from (start + 1) T docs
                    <-> exists (i : nat) (d' : Z) (score' : Binary64.float),
                          docs !! i = Some (d', score') /\ d' ∈ T
                          /\ r = start + Z.of_nat (S i)).
    { rewrite IH. split; intros (i & d' & score' & H1 & H2 & H3);
        exists i, d', score'; repeat split; auto; lia. }
    destruct (bool_decide (d ∈ T)) eqn:E.
    + apply bool_decide_eq_true in E. rewrite elem_of_cons, Hrest. split.
      * intros [->|(i & d' & score' & H1 & H2 & H3)].
        -- exists 0%nat, d, score. repeat split; auto. lia.
        -- exists (S i), d', score'. auto.
      * intros (i & d' & score' & H1 & H2 & H3). destruct i as [|i].
        -- left. lia.
        -- right. exists i, d', score'. auto.
    + apply bool_decide_eq_false in E. rewrite Hrest. split.
      * intros (i & d' & score' & H1 & H2 & H3). exists (S i), d', score'. auto.
      * intros (i & d' & score' & H1 & H2 & H3). destruct i as [|i].
        -- simpl in H1. injection H1 as <- <-. contradiction.
        -- exists i, d', score'. auto.
Qed.

(** The ranking loop never raises, and leaves in its variables the number
    of relevant documents, the sum of the precisions at their ranks and
    the first of their ranks. *)
Lemma rank_loop_run (T : gset Z) (docs : list (Z * Binary64.float))
    (rank : Z) (st : rank_state) :
  0 < rank ->
  let ranks := relevant_ranks_from rank T docs in
  rank_loop T rank docs st
  = Ok {| relevant_docs_found_count :=
            relevant_docs_found_count st + Z.of_nat (length ranks);
          ap_sum :=
            float_sum_from (ap_sum st)
              (precision_terms_from (relevant_docs_found_count st) ranks);
          first_hit_rank :=
            if first_hit_rank st =? 0
            then match ranks with r :: _ => r | [] => 0 end
            else first_hit_rank st |}.
Proof.
  revert rank st. induction docs as [|[d score] docs IH]; intros rank st Hr; simpl.
  - unfold relevant_ranks_from, float_sum_from. simpl.
    destruct st as [c a f]. simpl. f_equal. f_equal; [lia|].
    destruct (f =? 0) eqn:E; [|reflexivity]. apply Z.eqb_eq in E. congruence.
  - rewrite relevant_ranks_from_cons.
    destruct (bool_decide (d ∈ T)).
    + rewrite truediv_ok by lia. cbv beta iota delta [bind].
      rewrite IH by lia.
      cbn [relevant_docs_found_count ap_sum first_hit_rank length].
      rewrite precision_terms_from_cons.
      unfold float_sum_from. cbn [foldl]. f_equal. f_equal; [lia|].
      destruct (first_hit_rank st =? 0) eqn:E.
      * destruct (Z.eqb_spec rank 0); [lia | reflexivity].
      * rewrite E. reflexivity.
    + rewrite IH by lia. reflexivity.
Qed.

Lemma size_zero_empty (T : gset Z) : (0 <? Z.of_nat (size T)) = negb (bool_decide (T = ∅)).
Proof.
  destruct (decide (T = ∅)) as [->|NE].
  - rewrite bool_decide_eq_true_2 by reflexivity. reflexivity.
  - rewrite bool_decide_eq_false_2 by exact NE.
    apply Z.ltb_lt. assert (size T <> 0%nat) by (intros H; apply size_empty_inv in H; apply NE; apply leibniz_equiv; exact H).
    lia.
Qed.

(** What [check_evidence_retrieval] returns with evidence and a vector
    store, written with the notions of the specification. *)
Lemma check_evidence_retrieval_run (ev : evidence) (evs : list evidence)
    (retrieved_docs backup_docs : list (Z * Binary64.float)) (vs : vectorstore) :
  let relevant := all_true_ids vs (ev :: evs) in
  let context : gset Z := list_to_set (map fst retrieved_docs) in
  let backup : gset Z := list_to_set (map fst backup_docs) in
  check_evidence_retrieval (ev :: evs) retrieved_docs backup_docs (Some vs)
  = Ok {| ea_status := None;
          ea_evidence_list := ev :: evs;
          ea_evidence_to_doc_ids_map := map (evidence_doc_ids vs) (ev :: evs);
          ea_context_doc_ids := context;
          ea_retrieved_pool_doc_ids := context ∪ backup;
          ea_hit_counts :=
            Some {| context_hits := Z.of_nat (size (context ∩ relevant));
                    backup_hits :=
                      Z.of_nat (size ((context ∪ backup) ∩ relevant))
                      - Z.of_nat (size (context ∩ relevant));
                    total_evidence := Z.of_nat (size relevant) |};
          ea_ap := Some (average_precision relevant
                           (retrieved_docs ++ backup_docs));
          ea_mrr_score := Some (reciprocal_rank relevant
                                  (retrieved_docs ++ backup_docs)) |}.
Proof.
  intros relevant context backup.
  unfold check_evidence_retrieval.
  rewrite collect_true_doc_ids_spec. fold relevant context backup.
  rewrite rank_loop_run by lia. cbv beta iota delta [bind].
  cbn [relevant_docs_found_count ap_sum first_hit_rank rank_init].
  unfold average_precision, reciprocal_rank, relevant_ranks.
  rewrite size_zero_empty.
  assert (Hap : (if negb (bool_decide (relevant = ∅))
                 then Binary64.fdiv
                        (float_sum_from Binary64.zero
                           (precision_terms_from 0
                              (relevant_ranks_from 1 relevant
                                 (retrieved_docs ++ backup_docs))))
                        (Binary64.of_int (Z.of_nat (size relevant)))
                 else Ok Binary64.zero)
                = Ok (if bool_decide (relevant = ∅) then Binary64.zero
                      else Binary64.rnd
                             (float_sum (precision_terms
                                (relevant_ranks_from 1 relevant
                                   (retrieved_docs ++ backup_docs)))
                              / Binary64.of_int (Z.of_nat (size relevant))))).
  { destruct (bool_decide (relevant = ∅)) eqn:E; [reflexivity|]. simpl.
    unfold Binary64.fdiv. rewrite of_int_pos_nonzero; [reflexivity|].
    apply Z.ltb_lt. rewrite size_zero_empty, E. reflexivity. }
  rewrite Hap. cbv beta iota delta [bind].
  change (0 =? 0) with true. cbv iota.
  pose proof (relevant_ranks_from_pos 1 relevant (retrieved_docs ++ backup_docs)) as Hpos.
  destruct (relevant_ranks_from 1 relevant (retrieved_docs ++ backup_docs))
    as [|r ranks] eqn:Er.
  - reflexivity.
  - assert (Hr : 0 < r) by (apply Hpos; [lia | left]).
    destruct (Z.ltb_spec 0 r); [|lia].
    unfold Binary64.fdiv. rewrite of_int_pos_nonzero by exact Hr. reflexivity.
Qed.

Lemma size_counts_distinct (X : gset Z) (P : Z -> Prop) :
  (forall d, d ∈ X <-> P d) -> counts_distinct (Z.of_nat (size X)) P.
Proof.
  intros H. exists (elements X). split; [apply NoDup_elements|]. split.
  - intros d. rewrite elem_of_elements. apply H.
  - reflexivity.
Qed.

(** C5.  With evidence and a vector store, [check_evidence_retrieval]
    returns hit counts that count distinct document ids:
    [context_hits = |context ∩ all_true_ids|],
    [backup_hits = |(context ∪ backup) ∩ all_true_ids| - context_hits] and
    [total_evidence = |all_true_ids|], the number of distinct ids that
    satisfy some evidence item. *)
Theorem hit_counts_count_distinct_ids (ev : evidence) (evs : list evidence)
    (retrieved_docs backup_docs : list (Z * Binary64.float)) (vs : vectorstore) :
  let relevant := all_true_ids vs (ev :: evs) in
  let context : gset Z := list_to_set (map fst retrieved_docs) in
  let backup : gset Z := list_to_set (map fst backup_docs) in
  exists (a : evidence_analysis) (hc : hit_counts),
    check_evidence_retrieval (ev :: evs) retrieved_docs backup_docs (Some vs)
    = Ok a
    /\ ea_hit_counts a = Some hc
    /\ context_hits hc = Z.of_nat (size (context ∩ relevant))
    /\ backup_hits hc
       = Z.of_nat (size ((context ∪ backup) ∩ relevant)) - context_hits hc
    /\ total_evidence hc = Z.of_nat (size relevant)
    /\ counts_distinct (context_hits hc)
         (fun d => d ∈ map fst retrieved_docs
                   /\ satisfies_evidence vs (ev :: evs) d)
    /\ counts_distinct (context_hits hc + backup_hits hc)
         (fun d => (d ∈ map fst retrieved_docs \/ d ∈ map fst backup_docs)
                   /\ satisfies_evidence vs (ev :: evs) d)
    /\ counts_distinct (total_evidence hc) (satisfies_evidence vs (ev :: evs)).
Proof.
  intros relevant context backup.
  eexists. eexists. split; [apply check_evidence_retrieval_run|].
  cbn [ea_hit_counts context_hits backup_hits total_evidence].
  fold relevant context backup.
  split; [reflexivity|].
  cbn [context_hits backup_hits total_evidence].
  split; [reflexivity|]. split; [reflexivity|]. split; [reflexivity|].
  assert (Hrel : forall d, d ∈ relevant <-> satisfies_evidence vs (ev :: evs) d)
    by (intros d; apply elem_of_all_true_ids).
  split; [|split].
  - apply size_counts_distinct. intros d. unfold context.
    rewrite elem_of_intersection, elem_of_list_to_set, Hrel. reflexivity.
  - assert (E : forall x y : Z, x + (y - x) = y) by (intros; lia).
    rewrite E. apply size_counts_distinct. intros d. unfold context, backup.
    rewrite elem_of_intersection, elem_of_union, !elem_of_list_to_set, Hrel.
    reflexivity.
  - apply size_counts_distinct. exact Hrel.
Qed.

(** C6.  With evidence and a vector store, the [ap] of the analysis is the
    sum, over the ranks (from 1) of the context followed by the backup
    at which the document is relevant, of the number of relevant
    documents found so far over the rank, divided by the number of
    relevant ids ([0] when there is none); its [mrr_score] is one over
    the first relevant rank ([0] when there is none). *)
Theorem ap_and_reciprocal_rank (ev : evidence) (evs : list evidence)
    (retrieved_docs backup_docs : list (Z * Binary64.float)) (vs : vectorstore) :
  exists a : evidence_analysis,
    check_evidence_retrieval (ev :: evs) retrieved_docs backup_docs (Some vs)
    = Ok a
    /\ ea_ap a
       = Some (average_precision (all_true_ids vs (ev :: evs))
                 (retrieved_docs ++ backup_docs))
    /\ ea_mrr_score a
       = Some (reciprocal_rank (all_true_ids vs (ev :: evs))
                 (retrieved_docs ++ backup_docs)).
Proof.
  eexists. split; [apply check_evidence_retrieval_run|].
  split; reflexivity.
Qed.

Lemma set_hit_counts_bounds (context backup relevant : gset Z) :
  let c := Z.of_nat (size (context ∩ relevant)) in
  let b := Z.of_nat (size ((context ∪ backup) ∩ relevant)) - c in
  0 <= c /\ 0 <= b /\ c + b <= Z.of_nat (size relevant).
Proof.
  intros c b.
  assert (H1 : (size (context ∩ relevant)
                <= size ((context ∪ backup) ∩ relevant))%nat)
    by (apply subseteq_size; set_solver).
  assert (H2 : (size ((context ∪ backup) ∩ relevant) <= size relevant)%nat)
    by (apply subseteq_size; set_solver).
  unfold b, c. lia.
Qed.

(** With bounded hit counts and some evidence, the coverage stage of the
    classifier computes two ratios of [[0, 1]] and returns. *)
Lemma coverage_ratios_defined (hc : hit_counts) :
  0 <= context_hits hc -> 0 <= backup_hits hc ->
  context_hits hc + backup_hits hc <= total_evidence hc ->
  0 < total_evidence hc ->
  exists pool_ratio context_ratio : Binary64.float,
    Binary64.truediv (context_hits hc + backup_hits hc) (total_evidence hc)
    = Ok pool_ratio
    /\ Binary64.truediv (context_hits hc) (total_evidence hc)
       = Ok context_ratio
    /\ (0 <= pool_ratio)%Q /\ (pool_ratio <= 1)%Q
    /\ (0 <= context_ratio)%Q /\ (context_ratio <= 1)%Q
    /\ exists fired, retrieval_errors (Some hc) = Ok fired.
Proof.
  intros Hc Hb Hsum Ht.
  destruct (truediv_unit_interval (context_hits hc + backup_hits hc)
              (total_evidence hc)) as (r1 & E1 & L1 & U1); [lia..|].
  destruct (truediv_unit_interval (context_hits hc) (total_evidence hc))
    as (r2 & E2 & L2 & U2); [lia..|].
  exists r1, r2. repeat (split; [assumption|]).
  unfold retrieval_errors, has_evidence.
  destruct (Z.ltb_spec 0 (total_evidence hc)); [|lia].
  rewrite E1, E2. cbv beta iota delta [bind].
  destruct (Binary64.flt r1 Binary64.lit_0_7); [eexists; reflexivity|].
  destruct (Binary64.flt r2 Binary64.lit_0_7); eexists; reflexivity.
Qed.

(** C10.  Every hit-count record [check_evidence_retrieval] produces has
    [0 <= context_hits], [0 <= backup_hits] and
    [context_hits + backup_hits <= total_evidence]; so when
    [total_evidence > 0] the two coverage ratios of the classifier are
    defined and lie in [[0, 1]], and the coverage stage does not raise. *)
Theorem hit_counts_are_bounded (evidence_list : list evidence)
    (retrieved_docs backup_docs : list (Z * Binary64.float))
    (vectorstore : option vectorstore) (a : evidence_analysis)
    (hc : hit_counts) :
  check_evidence_retrieval evidence_list retrieved_docs backup_docs vectorstore
  = Ok a ->
  ea_hit_counts a = Some hc ->
  0 <= context_hits hc /\ 0 <= backup_hits hc
  /\ context_hits hc + backup_hits hc <= total_evidence hc
  /\ (0 < total_evidence hc ->
      exists pool_ratio context_ratio : Binary64.float,
        Binary64.truediv (context_hits hc + backup_hits hc) (total_evidence hc)
        = Ok pool_ratio
        /\ Binary64.truediv (context_hits hc) (total_evidence hc)
           = Ok context_ratio
        /\ (0 <= pool_ratio)%Q /\ (pool_ratio <= 1)%Q
        /\ (0 <= context_ratio)%Q /\ (context_ratio <= 1)%Q
        /\ exists fired, retrieval_errors (Some hc) = Ok fired).
Proof.
  intros Ha Hhc.
  destruct evidence_list as [|ev evs].
  { injection Ha as <-. discriminate. }
  destruct vectorstore as [vs|].
  2:{ injection Ha as <-. discriminate. }
  rewrite check_evidence_retrieval_run in Ha. injection Ha as <-.
  injection Hhc as <-.
  destruct (set_hit_counts_bounds (list_to_set (map fst retrieved_docs))
              (list_to_set (map fst backup_docs))
              (all_true_ids vs (ev :: evs))) as (A & B & C).
  split; [exact A|]. split; [exact B|]. split; [exact C|].
  intros Ht. apply coverage_ratios_defined; [exact A | exact B | exact C | exact Ht].
Qed.

End EvidenceFacts.

(** The sample analysis: context [1; 3], backup [2], relevant ids 1 and 2.
    The precisions are 1/1 at rank 1 and 2/3 at rank 3; their float sum
    halved is 0.8333333333333333, one unit in the last place below the
    float nearest to 5/6. *)
Example sample_analysis_metrics :
  ea_hit_counts Sample.analysis
  = Some {| context_hits := 1; backup_hits := 1; total_evidence := 2 |}
  /\ ea_ap Sample.analysis = Some (3752999689475413 # 4503599627370496)%Q
  /\ ea_mrr_score Sample.analysis = Some 1%Q
  /\ Binary64.rnd (5 # 6) = (7505999378950827 # 9007199254740992)%Q.
Proof. repeat split; vm_compute; reflexivity. Qed.

(** Three evidence items, of which two share chunk 2 and one matches
    nothing: two distinct relevant ids. *)
Example shared_id_is_counted_once :
  exists a : evidence_analysis,
    check_evidence_retrieval (ext := Sample.ext)
      [ {| ev_fact := "alpha"; ev_title := EmptyString |};
        {| ev_fact := "beta"; ev_title := EmptyString |};
        {| ev_fact := "gamma"; ev_title := EmptyString |} ]
      Sample.context_docs Sample.backup_docs (Some Sample.store) = Ok a
    /\ ea_evidence_to_doc_ids_map a = [[1; 2]; [2]; []]
    /\ ea_hit_counts a
       = Some {| context_hits := 1; backup_hits := 1; total_evidence := 2 |}.
Proof. eexists. repeat split; vm_compute; reflexivity. Qed.

(** One hit in the context and one in the backup, of two relevant ids. *)
Lemma hit_counts_are_bounded_witness :
  let hc := {| context_hits := 1; backup_hits := 1; total_evidence := 2 |} in
  0 <= context_hits hc /\ 0 <= backup_hits hc
  /\ context_hits hc + backup_hits hc <= total_evidence hc
  /\ exists pool_ratio context_ratio : Binary64.float,
       Binary64.truediv (context_hits hc + backup_hits hc) (total_evidence hc)
       = Ok pool_ratio
       /\ Binary64.truediv (context_hits hc) (total_evidence hc) = Ok context_ratio
       /\ (0 <= pool_ratio)%Q /\ (pool_ratio <= 1)%Q
       /\ (0 <= context_ratio)%Q /\ (context_ratio <= 1)%Q
       /\ exists fired, retrieval_errors (Some hc) = Ok fired.
Proof.
  intros hc.
  destruct (hit_counts_are_bounded (ext := Sample.ext) Sample.evidence_alpha
              Sample.context_docs Sample.backup_docs (Some Sample.store)
              Sample.analysis hc) as (A & B & C & D).
  - vm_compute. reflexivity.
  - vm_compute. reflexivity.
  - split; [exact A|]. split; [exact B|]. split; [exact C|].
    apply D. reflexivity.
Defined.

(* ===================================================================== *)
(** * The tolerant parser *)
(* ===================================================================== *)

Lemma get_some_lt (s : string) (i : nat) (c : ascii) :
  String.get i s = Some c -> (i < String.length s)%nat.
Proof.
  revert i. induction s as [|a s IH]; intros i H; simpl in *.
  - discriminate.
  - destruct i as [|i]; [lia|]. apply IH in H. lia.
Qed.

Lemma find_end_from_ge (quote_char : ascii) (rest : string) (idx : nat)
    (first : bool) (prev : ascii) (key_end : nat) :
  find_end_from quote_char idx first prev rest = Some key_end ->
  (idx <= key_end)%nat.
Proof.
  revert idx first prev. induction rest as [|c rest IH]; intros idx first prev H.
  - discriminate.
  - simpl in H.
    destruct (Ascii.eqb c quote_char).
    + destruct (negb first && Ascii.eqb prev Ch.backslash)%bool.
      * apply IH in H. lia.
      * destruct (closer_follows rest).
        -- injection H as <-. lia.
        -- apply IH in H. lia.
    + apply IH in H. lia.
Qed.

(** An iteration of the conversion loop is inside the string, and either
    advances [i] or, on an apostrophe, changes nothing. *)
Lemma convert_step_progress (s : string) (st st' : convert_state) :
  convert_step s st = Next st' ->
  (cv_i st < String.length s)%nat
  /\ ((st' = st /\ String.get (cv_i st) s = Some Ch.squote)
      \/ (cv_i st < cv_i st')%nat).
Proof.
  unfold convert_step. intros H.
  destruct (String.get (cv_i st) s) as [char|] eqn:G; [|discriminate].
  split; [eapply get_some_lt; exact G|].
  destruct (negb (cv_in_string st)).
  - destruct (Ascii.eqb char Ch.squote && _)%bool eqn:Hq.
    + destruct (find_string_end s (cv_i st) Ch.squote) as [key_end|] eqn:F.
      * apply find_end_from_ge in F.
        destruct (match skip_blanks _ _ with Some c => _ | None => _ end);
          injection H as <-; right; simpl; lia.
      * injection H as <-. left. split; [reflexivity|].
        apply andb_true_iff in Hq. destruct Hq as [Hq _].
        apply Ascii.eqb_eq in Hq. rewrite Hq. reflexivity.
    + destruct (Ascii.eqb char Ch.dquote); injection H as <-; right; simpl; lia.
  - destruct (if Ascii.eqb char Ch.backslash then _ else _).
    + injection H as <-. right. simpl. lia.
    + destruct (match cv_string_quote st with Some q => _ | None => _ end);
        injection H as <-; right; simpl; lia.
Qed.

(** A state that an iteration leaves unchanged is never left. *)
Lemma convert_loop_stuck (s : string) (st : convert_state) :
  convert_step s st = Next st -> forall fuel, convert_loop fuel s st = None.
Proof.
  intros H fuel. induction fuel as [|fuel IH]; simpl; [reflexivity|].
  rewrite H. exact IH.
Qed.

(** A loop still running after more iterations than characters remain
    runs for ever. *)
Lemma convert_loop_exhausted (s : string) (fuel : nat) (st : convert_state) :
  (String.length s - cv_i st < fuel)%nat ->
  convert_loop fuel s st = None ->
  forall fuel', convert_loop fuel' s st = None.
Proof.
  revert st. induction fuel as [|fuel IH]; intros st Hlt Hnone fuel'; [lia|].
  simpl in Hnone.
  destruct (convert_step s st) as [st'|out] eqn:Hs; [|discriminate].
  destruct (convert_step_progress _ _ _ Hs) as [Hin [[-> _]|Hadv]].
  - apply convert_loop_stuck. exact Hs.
  - destruct fuel' as [|fuel']; simpl; [reflexivity|]. rewrite Hs.
    apply IH; [lia | exact Hnone].
Qed.

Lemma convert_loop_more_fuel (s : string) (fuel fuel' : nat)
    (st : convert_state) (out : string) :
  convert_loop fuel s st = Some out -> (fuel <= fuel')%nat ->
  convert_loop fuel' s st = Some out.
Proof.
  revert fuel' st. induction fuel as [|fuel IH]; intros fuel' st H Hle.
  - discriminate.
  - destruct fuel' as [|fuel']; [lia|]. simpl in *.
    destruct (convert_step s st); [|exact H]. apply IH; [exact H | lia].
Qed.

(** [_convert_python_dict_to_json] is faithful to the loop: it gives the
    result of the loop when the loop ends, and diverges exactly when no
    number of iterations ends it. *)
Lemma convert_returns_or_runs_forever (s : string) :
  match _convert_python_dict_to_json s with
  | Ok out =>
      forall fuel, (String.length s < fuel)%nat ->
                   convert_loop fuel s convert_init = Some out
  | Diverge => forall fuel, convert_loop fuel s convert_init = None
  | Raise _ => False
  end.
Proof.
  unfold _convert_python_dict_to_json.
  destruct (convert_loop (S (String.length s)) s convert_init) as [out|] eqn:E.
  - intros fuel Hf. eapply convert_loop_more_fuel; [exact E | lia].
  - apply (convert_loop_exhausted s (S (String.length s))); [simpl; lia | exact E].
Qed.

(** Without an apostrophe the conversion returns. *)
Lemma convert_loop_total (s : string) (fuel : nat) (st : convert_state) :
  (forall i, String.get i s <> Some Ch.squote) ->
  (String.length s - cv_i st < fuel)%nat ->
  exists out, convert_loop fuel s st = Some out.
Proof.
  intros Hq. revert st. induction fuel as [|fuel IH]; intros st Hlt; [lia|].
  simpl. destruct (convert_step s st) as [st'|out] eqn:Hs; [|exists out; reflexivity].
  destruct (convert_step_progress _ _ _ Hs) as [Hin [[_ Habs]|Hadv]].
  - exfalso. exact (Hq _ Habs).
  - apply IH. lia.
Qed.

Lemma convert_total_without_apostrophe (s : string) :
  (forall i, String.get i s <> Some Ch.squote) ->
  exists out, _convert_python_dict_to_json s = Ok out.
Proof.
  intros Hq. unfold _convert_python_dict_to_json.
  destruct (convert_loop_total s (S (String.length s)) convert_init Hq)
    as [out ->]; [simpl; lia|].
  exists out. reflexivity.
Qed.

Section ParserFacts.

Context {ext : External}.

Lemma dict_get_absent (items : list (pyvalue * pyvalue)) (k : string)
    (default : pyvalue) :
  dict_has items k = false -> dict_get items k default = default.
Proof.
  unfold dict_has, dict_get. induction items as [|kv items IH]; simpl.
  - reflexivity.
  - destruct (key_is k (fst kv)); simpl; [discriminate | exact IH].
Qed.

(** The parse settles on a text that, once cleaned, has no apostrophe,
    when the two library parsers fail with their own exceptions only. *)
Lemma parse_json_safely_settles (raw_response : string) :
  (forall i, String.get i (clean_code_fence raw_response) <> Some Ch.squote) ->
  (forall s e, json_loads s = Failed e -> is_JSONDecodeError e = true) ->
  (forall s e, ast_literal_eval s = Failed e ->
               (is_ValueError e || is_SyntaxError e || is_TypeError e)%bool = true) ->
  settles (parse_json_safely raw_response).
Proof.
  intros Hq Hjson Hlit. unfold parse_json_safely.
  set (cleaned := clean_code_fence raw_response) in *.
  destruct (Str.is_empty cleaned); [exact I|].
  destruct (json_loads cleaned) as [v|e] eqn:Ej; [exact I|].
  cbv beta iota delta [call try_except]. rewrite (Hjson _ _ Ej).
  assert (Hlast : settles
            (let* repaired := repaired_literal cleaned in
             match repaired with
             | Some response_data => Ok response_data
             | None => converted_json cleaned
             end)).
  { unfold repaired_literal.
    assert (Hconv : settles (converted_json cleaned)).
    { unfold converted_json.
      destruct (convert_total_without_apostrophe cleaned Hq) as [out ->].
      cbv beta iota delta [bind call try_except].
      destruct (json_loads out) as [v|e'] eqn:Ej'; [exact I|].
      rewrite (Hjson _ _ Ej'). exact I. }
    destruct (String.eqb (_fix_unescaped_quotes cleaned) cleaned); [exact Hconv|].
    destruct (ast_literal_eval (_fix_unescaped_quotes cleaned)) as [v|e'].
    - destruct (is_dict v); [exact I | exact Hconv].
    - exact Hconv. }
  destruct (ast_literal_eval cleaned) as [v|e'] eqn:El;
    cbv beta iota delta [bind call].
  - destruct (is_dict v); [exact I|]. exact Hlast.
  - pose proof (Hlit _ _ El) as Hc.
    destruct e'; simpl in Hc; try discriminate; simpl;
      first [exact Hlast | reflexivity].
Qed.

(** A key the mapping has is a key with a value. *)
Lemma provides_value_at (r : result pyvalue) (k : string) :
  provides r k = true -> exists v, value_at r k = Some v.
Proof.
  unfold provides, value_at, dict_has.
  destruct r as [v| |]; try discriminate.
  destruct v as [ | | | | | | | |items]; try discriminate.
  induction items as [|kv items IH]; simpl; [discriminate|].
  destruct (key_is k (fst kv)); simpl; [eexists; reflexivity | exact IH].
Qed.

Lemma dict_get_present (items : list (pyvalue * pyvalue)) (k : string)
    (default v : pyvalue) :
  value_at (Ok (PDict items)) k = Some v -> dict_get items k default = v.
Proof.
  unfold value_at, dict_get.
  destruct (List.find _ items) as [kv|]; simpl; [|discriminate].
  intros [= <-]. reflexivity.
Qed.

(** C4, as the code has it.  When the parse of the raw response settles,
    [parse_rag_response] returns and does not raise, and each of the two
    keys is read on its own.  The answer is the raw text whenever the
    parse gave no mapping with a [final_answer] key, and the list is
    empty whenever it gave no mapping with a [supporting_sentences] key;
    a key the mapping has keeps its value, coerced to a [str] or to a
    [list].  So no value, a value that is not a mapping, and a mapping
    with neither key all give the raw text and an empty list, while a
    mapping with one of the keys keeps that key and defaults the other. *)
Theorem fallback_is_per_key (raw_response : string) :
  settles (parse_json_safely raw_response) ->
  exists (final_answer : string) (supporting_sentences : list pyvalue),
    parse_rag_response raw_response = Ok (final_answer, supporting_sentences)
    /\ (provides (parse_json_safely raw_response) "final_answer" = false ->
        final_answer = raw_response)
    /\ (provides (parse_json_safely raw_response) "supporting_sentences" = false ->
        supporting_sentences = [])
    /\ (provides (parse_json_safely raw_response) "final_answer" = true ->
        exists v, value_at (parse_json_safely raw_response) "final_answer" = Some v
                  /\ final_answer = answer_of v)
    /\ (provides (parse_json_safely raw_response) "supporting_sentences" = true ->
        exists v, value_at (parse_json_safely raw_response) "supporting_sentences"
                  = Some v
                  /\ supporting_sentences = sentences_of v).
Proof.
  intros Hs.
  pose proof (provides_value_at (parse_json_safely raw_response) "final_answer")
    as Hfa.
  pose proof (provides_value_at (parse_json_safely raw_response)
                "supporting_sentences") as Hss.
  unfold parse_rag_response. unfold settles in Hs.
  destruct (parse_json_safely raw_response) as [v|e|]; [| |contradiction].
  - cbv beta iota delta [bind try_except].
    destruct v as [ | | | | | | | |items];
      try (exists raw_response, []; split; [reflexivity|];
           repeat split; solve [reflexivity | discriminate]).
    eexists. eexists. split; [reflexivity|].
    split; [|split; [|split]]; intros Hk.
    + unfold provides in Hk. rewrite (dict_get_absent _ _ _ Hk). reflexivity.
    + unfold provides in Hk. rewrite (dict_get_absent _ _ _ Hk). reflexivity.
    + destruct (Hfa Hk) as [v Hv]. exists v. split; [exact Hv|].
      rewrite (dict_get_present _ _ (PStr raw_response) _ Hv). reflexivity.
    + destruct (Hss Hk) as [v Hv]. exists v. split; [exact Hv|].
      rewrite (dict_get_present _ _ (PList []) _ Hv). reflexivity.
  - exists raw_response, []. cbv beta iota delta [bind try_except].
    unfold handled in Hs. rewrite Hs.
    split; [reflexivity|]. repeat split; discriminate.
Qed.

(** [parse_rag_response] returns only when the parse has settled. *)
Lemma returns_when_settled (raw_response : string)
    (parsed : string * list pyvalue) :
  parse_rag_response raw_response = Ok parsed ->
  settles (parse_json_safely raw_response).
Proof.
  unfold parse_rag_response, settles.
  destruct (parse_json_safely raw_response) as [v|e|];
    cbv beta iota delta [bind try_except]; [intros _; exact I | | discriminate].
  fold (handled e). destruct (handled e); [reflexivity | discriminate].
Qed.

(** C9.  The fallback is a fixed point.  On a raw response that the
    ladder does not parse into a mapping, [parse_rag_response] falls
    back: it returns the raw response itself with an empty list; and
    feeding the returned answer back into it gives the same pair again,
    however often this is done. *)
Theorem fallback_is_a_fixed_point (raw_response : string) :
  settles (parse_json_safely raw_response) ->
  gives_mapping (parse_json_safely raw_response) = false ->
  parse_rag_response raw_response = Ok (raw_response, [])
  /\ forall n, reparse n raw_response = Ok (raw_response, []).
Proof.
  intros Hs Hm.
  assert (H : parse_rag_response raw_response = Ok (raw_response, [])).
  { unfold parse_rag_response. unfold settles in Hs. unfold gives_mapping in Hm.
    destruct (parse_json_safely raw_response) as [v|e|]; [| |contradiction].
    - cbv beta iota delta [bind try_except].
      destruct v; solve [reflexivity | discriminate].
    - cbv beta iota delta [bind try_except]. unfold handled in Hs.
      rewrite Hs. reflexivity. }
  split; [exact H|].
  induction n as [|n IH]; cbn [reparse]; [exact H|].
  rewrite IH. cbv beta iota delta [bind]. cbn [fst]. exact H.
Qed.

End ParserFacts.

(** A mapping whose only key is [final_answer], with a number as value:
    the number is kept, as a [str], and the list is the default; and a
    text without any structure, on which every stage fails: the raw text
    comes back with the default list. *)
Lemma fallback_is_per_key_witness :
  parse_rag_response (ext := Sample.ext) Sample.numeric_answer
  = Ok ("42"%string, [])
  /\ parse_rag_response (ext := Sample.ext) Sample.plain_text
     = Ok (Sample.plain_text, []).
Proof.
  split.
  - destruct (fallback_is_per_key (ext := Sample.ext) Sample.numeric_answer I)
      as (final_answer & supporting_sentences & E & _ & B & C & _).
    destruct (C eq_refl) as (v & Hv & ->). injection Hv as <-.
    rewrite E, (B eq_refl). reflexivity.
  - destruct (fallback_is_per_key (ext := Sample.ext) Sample.plain_text I)
      as (final_answer & supporting_sentences & E & A & B & _).
    rewrite E, (A eq_refl), (B eq_refl). reflexivity.
Defined.

(** A mapping that has only the [final_answer] key, and one that has only
    the [supporting_sentences] key: neither has the two expected keys, and
    neither gives the raw text with an empty list. *)
Lemma fallback_with_one_key_counterexample :
  (provides (parse_json_safely (ext := Sample.ext) Sample.only_answer)
     "supporting_sentences" = false
   /\ parse_rag_response (ext := Sample.ext) Sample.only_answer
      = Ok ("x"%string, [])
   /\ parse_rag_response (ext := Sample.ext) Sample.only_answer
      <> Ok (Sample.only_answer, []))
  /\ (provides (parse_json_safely (ext := Sample.ext) Sample.only_sentences)
        "final_answer" = false
      /\ parse_rag_response (ext := Sample.ext) Sample.only_sentences
         = Ok (Sample.only_sentences, [PStr "s"])
      /\ parse_rag_response (ext := Sample.ext) Sample.only_sentences
         <> Ok (Sample.only_sentences, [])).
Proof.
  split; (split; [reflexivity | split; [reflexivity | discriminate]]).
Qed.

(** A text without any structure, parsed, and its answer parsed twice
    more. *)
Lemma fallback_is_a_fixed_point_witness :
  parse_rag_response (ext := Sample.ext) Sample.plain_text
  = Ok (Sample.plain_text, [])
  /\ reparse (ext := Sample.ext) 2 Sample.plain_text
     = Ok (Sample.plain_text, []).
Proof.
  destruct (fallback_is_a_fixed_point (ext := Sample.ext) Sample.plain_text I
              eq_refl) as [H1 H2].
  split; [exact H1 | exact (H2 2%nat)].
Defined.

(** A sentence with a quoted word: the last stage of the ladder never
    returns, and neither does [parse_rag_response]. *)
Lemma quoted_word_never_converts (fuel : nat) :
  convert_loop fuel Sample.quoted_text convert_init = None.
Proof.
  revert fuel.
  exact (convert_returns_or_runs_forever Sample.quoted_text).
Qed.

Lemma quoted_word_never_parses :
  parse_rag_response (ext := Sample.ext) Sample.quoted_text = Diverge.
Proof. reflexivity. Qed.

(* ===================================================================== *)
(** * Aggregation *)
(* ===================================================================== *)

Section FloatSums.

Import Binary64.
Local Open Scope Q_scope.

Lemma representable_zero : representable zero.
Proof. split; [apply Qle_refl | reflexivity]. Qed.

Lemma representable_rnd (q : Q) : 0 <= q -> representable (rnd q).
Proof. intros H. split; [apply rnd_nonneg; exact H | apply rnd_idem; exact H]. Qed.

Lemma representable_fadd (x y : float) :
  0 <= x -> 0 <= y -> representable (fadd x y).
Proof. intros Hx Hy. apply representable_rnd. lra. Qed.

(** Adding [0.0] changes nothing. *)
Lemma fadd_zero_r (x : float) : representable x -> fadd x zero = x.
Proof.
  intros [_ Hx]. unfold fadd, zero. rewrite <- Hx at 2.
  apply rnd_comp. ring.
Qed.

Lemma float_sum_from_nonneg (l : list float) (start : float) :
  representable start -> Forall (fun x => 0 <= x) l ->
  representable (float_sum_from start l).
Proof.
  revert start. unfold float_sum_from.
  induction l as [|x l IH]; intros start Hs Hl; simpl.
  - exact Hs.
  - inversion Hl as [|? ? Hx Hl']; subst. apply IH; [|exact Hl'].
    apply representable_fadd; [apply Hs | exact Hx].
Qed.

Lemma of_int_pos (n : Z) : (0 < n)%Z -> 0 < of_int n.
Proof.
  intros Hn. unfold of_int.
  assert (H1 : 1 <= inject_Z n) by (rewrite <- (Zle_Qle 1); lia).
  pose proof (rnd_ge_1 _ H1). lra.
Qed.

Lemma Qdiv_nonneg (x y : Q) : 0 <= x -> 0 < y -> 0 <= x / y.
Proof. intros Hx Hy. apply Qle_shift_div_l; [exact Hy | lra]. Qed.

End FloatSums.

Section AnalyzerScores.

Context {ext : External}.
Import Binary64.
Local Open Scope Q_scope.

Lemma precision_terms_from_nonneg (found : Z) (ranks : list Z) :
  (0 <= found)%Z -> Forall (fun r => (0 < r)%Z) ranks ->
  Forall (fun x => 0 <= x) (precision_terms_from found ranks).
Proof.
  revert found. induction ranks as [|r ranks IH]; intros found Hf Hr.
  - constructor.
  - rewrite precision_terms_from_cons. inversion Hr as [|? ? Hr0 Hr']; subst.
    constructor; [|apply IH; [lia | exact Hr']].
    apply rnd_nonneg, Qdiv_nonneg.
    + rewrite <- (Zle_Qle 0). lia.
    + rewrite <- (Zlt_Qlt 0). exact Hr0.
Qed.

Lemma average_precision_representable (T : gset Z) (docs : list (Z * float)) :
  representable (average_precision T docs).
Proof.
  unfold average_precision. destruct (bool_decide (T = ∅)) eqn:E.
  - apply representable_zero.
  - apply representable_rnd, Qdiv_nonneg.
    + apply float_sum_from_nonneg; [apply representable_zero|].
      apply precision_terms_from_nonneg; [lia|].
      apply Forall_forall. intros r Hr.
      apply (relevant_ranks_from_pos 1 T docs); [lia | exact Hr].
    + apply of_int_pos. apply Z.ltb_lt. rewrite size_zero_empty, E. reflexivity.
Qed.

Lemma reciprocal_rank_representable (T : gset Z) (docs : list (Z * float)) :
  representable (reciprocal_rank T docs).
Proof.
  unfold reciprocal_rank.
  pose proof (relevant_ranks_from_pos 1 T docs) as Hpos. fold relevant_ranks in Hpos.
  destruct (relevant_ranks T docs) as [|r ranks].
  - apply representable_zero.
  - apply representable_rnd, Qdiv_nonneg; [unfold one; lra|].
    apply of_int_pos, Hpos; [lia | left].
Qed.

Lemma relevant_ranks_from_empty (start : Z) (docs : list (Z * float)) :
  relevant_ranks_from start ∅ docs = [].
Proof.
  revert start. induction docs as [|[d score] docs IH]; intros start.
  - reflexivity.
  - rewrite relevant_ranks_from_cons, bool_decide_eq_false_2 by set_solver.
    apply IH.
Qed.

Lemma from_analyzer_well_scored (a : evidence_analysis) :
  from_analyzer a -> well_scored a.
Proof.
  intros (evs & retrieved & backup & vs & H).
  destruct evs as [|ev evs].
  { injection H as <-. left. repeat split. }
  destruct vs as [vs|].
  2:{ injection H as <-. left. repeat split. }
  rewrite check_evidence_retrieval_run in H. injection H as <-.
  right. do 3 eexists. cbn [ea_hit_counts ea_mrr_score ea_ap total_evidence].
  split; [reflexivity|]. split; [reflexivity|]. split; [reflexivity|].
  cbn [total_evidence].
  split; [lia|]. split; [apply reciprocal_rank_representable|].
  split; [apply average_precision_representable|].
  intros Hz.
  assert (HT : all_true_ids vs (ev :: evs) = ∅).
  { apply leibniz_equiv, size_empty_inv. lia. }
  rewrite HT. unfold reciprocal_rank, average_precision, relevant_ranks.
  rewrite relevant_ranks_from_empty, bool_decide_eq_true_2 by reflexivity.
  split; reflexivity.
Qed.

End AnalyzerScores.

Section AggregationFacts.

Context {ext : External}.

Lemma analysed_cons_none (results : results_array) :
  analysed (None :: results) = analysed results.
Proof. reflexivity. Qed.

Lemma analysed_cons_some (r : question_result) (results : results_array) :
  analysed (Some r :: results)
  = qr_evidence_retrieval_analysis r :: analysed results.
Proof. reflexivity. Qed.

(** The accumulators after the aggregation loop, from any start. *)
Lemma totals_run (results : results_array) (t : totals) :
  Forall well_scored (analysed results) ->
  representable (total_reciprocal_rank t) ->
  representable (total_ap t) ->
  foldl totals_step t results
  = {| total_context_hits :=
         total_context_hits t + sum_counts (map hits_of (eligible results));
       total_evidence_count :=
         total_evidence_count t
         + sum_counts (map evidence_of (eligible results));
       total_reciprocal_rank :=
         float_sum_from (total_reciprocal_rank t)
           (map (fun a => score_of (ea_mrr_score a)) (eligible results));
       total_ap :=
         float_sum_from (total_ap t)
           (map (fun a => score_of (ea_ap a)) (eligible results));
       questions_with_analysis :=
         questions_with_analysis t + Z.of_nat (length (analysed results));
       retrieval_eligible_questions :=
         retrieval_eligible_questions t
         + Z.of_nat (length (eligible results)) |}.
Proof.
  revert t. induction results as [|slot results IH]; intros t Hw Hrr Hap.
  - destruct t. unfold eligible, analysed, float_sum_from. simpl.
    f_equal; lia.
  - cbn [foldl]. destruct slot as [r|].
    2:{ unfold eligible in *. rewrite analysed_cons_none in *.
        cbn [totals_step]. apply IH; assumption. }
    unfold eligible in *. rewrite analysed_cons_some in *.
    inversion Hw as [|? ? Hw0 Hw']; subst.
    cbn [List.filter].
    destruct Hw0 as [(Hh & Hm & Ha) | (hc & mrr & ap & Hh & Hm & Ha & Hte & Rm & Ra & Hz)].
    + assert (He : is_eligible (qr_evidence_retrieval_analysis r) = false)
        by (unfold is_eligible; rewrite Hh; reflexivity).
      rewrite He.
      rewrite IH; [|exact Hw'|cbn [totals_step total_reciprocal_rank]; rewrite Hm; exact Hrr
                   |cbn [totals_step total_ap]; rewrite Ha; exact Hap].
      cbn [totals_step total_context_hits total_evidence_count
           total_reciprocal_rank total_ap questions_with_analysis
           retrieval_eligible_questions].
      rewrite Hh, Hm, Ha. cbn [length]. f_equal; lia.
    + assert (He : is_eligible (qr_evidence_retrieval_analysis r)
                   = (0 <? total_evidence hc))
        by (unfold is_eligible; rewrite Hh; reflexivity).
      rewrite He.
      destruct (Z.ltb_spec 0 (total_evidence hc)) as [Hpos|Hnpos].
      * rewrite IH;
          [|exact Hw'
           |cbn [totals_step total_reciprocal_rank]; rewrite Hm;
            apply representable_fadd; [apply Hrr | apply Rm]
           |cbn [totals_step total_ap]; rewrite Ha;
            apply representable_fadd; [apply Hap | apply Ra]].
        cbn [totals_step total_context_hits total_evidence_count
             total_reciprocal_rank total_ap questions_with_analysis
             retrieval_eligible_questions].
        rewrite Hh, Hm, Ha.
        destruct (Z.ltb_spec 0 (total_evidence hc)); [|lia].
        assert (Hhits : hits_of (qr_evidence_retrieval_analysis r)
                        = context_hits hc)
          by (unfold hits_of; rewrite Hh; reflexivity).
        assert (Hev : evidence_of (qr_evidence_retrieval_analysis r)
                      = total_evidence hc)
          by (unfold evidence_of; rewrite Hh; reflexivity).
        cbn [map length]. unfold sum_counts. cbn [foldr].
        rewrite Hhits, Hev.
        unfold float_sum_from. cbn [foldl]. rewrite Hm, Ha.
        cbn [score_of].
        f_equal; lia.
      * destruct Hz as [-> ->]; [lia|].
        rewrite IH;
          [|exact Hw'
           |cbn [totals_step total_reciprocal_rank]; rewrite Hm;
            rewrite fadd_zero_r by exact Hrr; exact Hrr
           |cbn [totals_step total_ap]; rewrite Ha;
            rewrite fadd_zero_r by exact Hap; exact Hap].
        cbn [totals_step total_context_hits total_evidence_count
             total_reciprocal_rank total_ap questions_with_analysis
             retrieval_eligible_questions].
        rewrite Hh, Hm, Ha.
        destruct (Z.ltb_spec 0 (total_evidence hc)); [lia|].
        rewrite !fadd_zero_r by assumption.
        cbn [length]. f_equal; lia.
Qed.

(** The three ratios, over analyses that are well scored. *)
Lemma aggregate_metrics_run (results : results_array) :
  Forall well_scored (analysed results) ->
  aggregate_metrics results
  = Ok (document_recall results,
        eligible_mean ea_mrr_score results,
        eligible_mean ea_ap results).
Proof.
  intros Hw. unfold aggregate_metrics.
  rewrite (totals_run results totals_init Hw representable_zero representable_zero).
  cbn [total_context_hits total_evidence_count total_reciprocal_rank total_ap
       retrieval_eligible_questions totals_init].
  rewrite !Z.add_0_l.
  unfold document_recall, eligible_mean, float_sum.
  destruct (Z.ltb_spec 0 (sum_counts (map evidence_of (eligible results))))
    as [Hs|Hs].
  - rewrite truediv_ok by lia. cbv beta iota delta [bind].
    destruct (Z.ltb_spec 0 (Z.of_nat (length (eligible results)))) as [Hn|Hn].
    + unfold Binary64.fdiv. rewrite of_int_pos_nonzero by exact Hn.
      reflexivity.
    + reflexivity.
  - cbv beta iota delta [bind].
    destruct (Z.ltb_spec 0 (Z.of_nat (length (eligible results)))) as [Hn|Hn].
    + unfold Binary64.fdiv. rewrite of_int_pos_nonzero by exact Hn.
      reflexivity.
    + reflexivity.
Qed.

Lemma from_analyzer_all_well_scored (results : results_array) :
  Forall from_analyzer (analysed results) ->
  Forall well_scored (analysed results).
Proof.
  intros H. eapply Forall_impl; [exact H|].
  intros a. apply from_analyzer_well_scored.
Qed.

(** C7.  Over a results array whose analyses come from
    [check_evidence_retrieval], the aggregation gives: as recall, the sum
    of the context hits over the sum of the evidence-bearing ids of the
    eligible questions, one ratio for the whole data set; as MRR and MAP,
    the means of [mrr_score] and [ap] over the eligible questions only.
    Questions without evidence, and empty slots, enter no sum and no
    denominator. *)
Theorem aggregation_is_over_eligible_questions (results : results_array) :
  Forall from_analyzer (analysed results) ->
  aggregate_metrics results
  = Ok (document_recall results,
        eligible_mean ea_mrr_score results,
        eligible_mean ea_ap results).
Proof.
  intros H.
  pose proof (from_analyzer_all_well_scored results H) as Hw.
  unfold aggregate_metrics.
  rewrite (totals_run results totals_init Hw representable_zero representable_zero).
  cbn [total_context_hits total_evidence_count total_reciprocal_rank total_ap
       retrieval_eligible_questions totals_init].
  rewrite !Z.add_0_l.
  unfold document_recall, eligible_mean, float_sum.
  assert (Hmean : forall total : Binary64.float,
            (if 0 <? Z.of_nat (length (eligible results))
             then Binary64.fdiv total
                    (Binary64.of_int (Z.of_nat (length (eligible results))))
             else Ok Binary64.zero)
            = Ok (if 0 <? Z.of_nat (length (eligible results))
                  then Binary64.rnd
                         (total / Binary64.of_int
                                    (Z.of_nat (length (eligible results))))
                  else Binary64.zero)).
  { intros total.
    destruct (Z.ltb_spec 0 (Z.of_nat (length (eligible results)))) as [Hn|Hn];
      [|reflexivity].
    unfold Binary64.fdiv. rewrite of_int_pos_nonzero by exact Hn. reflexivity. }
  rewrite !Hmean.
  destruct (Z.ltb_spec 0 (sum_counts (map evidence_of (eligible results))))
    as [Hs|Hs].
  - rewrite truediv_ok by lia. reflexivity.
  - reflexivity.
Qed.

(** The sums and the denominators of the eligible questions do not change
    when an empty slot or a question without metrics joins the array. *)
Lemma eligible_ignores_empty_slot (results : results_array) :
  eligible (None :: results) = eligible results.
Proof. reflexivity. Qed.

Lemma eligible_ignores_question_without_evidence (r : question_result)
    (results : results_array) :
  is_eligible (qr_evidence_retrieval_analysis r) = false ->
  eligible (Some r :: results) = eligible results.
Proof.
  intros H. unfold eligible. rewrite analysed_cons_some. simpl. rewrite H.
  reflexivity.
Qed.

End AggregationFacts.

(** One eligible question, an empty slot and a question without evidence:
    the three metrics are those of the eligible question alone. *)
Lemma aggregation_is_over_eligible_questions_witness :
  aggregate_metrics Sample.stored_results
  = Ok (document_recall Sample.stored_results,
        eligible_mean ea_mrr_score Sample.stored_results,
        eligible_mean ea_ap Sample.stored_results).
Proof.
  apply (aggregation_is_over_eligible_questions (ext := Sample.ext)).
  repeat constructor.
  - exists Sample.evidence_alpha, Sample.context_docs, Sample.backup_docs,
      (Some Sample.store).
    vm_compute. reflexivity.
  - exists [], [], [], None. reflexivity.
Defined.

(* ===================================================================== *)
(** * The retrieval stage *)
(* ===================================================================== *)

Lemma zip3_take {A B C : Type} (n : nat) (a : list A) (b : list B) (c : list C) :
  Seq.zip3 (take n a) (take n b) (take n c) = take n (Seq.zip3 a b c).
Proof.
  revert a b c. induction n as [|n IH]; intros a b c.
  - reflexivity.
  - destruct a as [|x a]; [reflexivity|].
    destruct b as [|y b]; [reflexivity|].
    destruct c as [|z c]; [reflexivity|].
    simpl. rewrite IH. reflexivity.
Qed.

Lemma zip3_drop {A B C : Type} (n : nat) (a : list A) (b : list B) (c : list C) :
  length a = length c -> length b = length c ->
  Seq.zip3 (drop n a) (drop n b) (drop n c) = drop n (Seq.zip3 a b c).
Proof.
  revert a b c. induction n as [|n IH]; intros a b c Ha Hb.
  - reflexivity.
  - destruct a as [|x a]; destruct b as [|y b]; destruct c as [|z c];
      try discriminate; try reflexivity.
    simpl. apply IH; simpl in *; lia.
Qed.

Lemma zip3_length {A B C : Type} (a : list A) (b : list B) (c : list C) :
  length a = length c -> length b = length c ->
  length (Seq.zip3 a b c) = length c.
Proof.
  revert b c. induction a as [|x a IH]; intros b c Ha Hb.
  - destruct c; [reflexivity | discriminate].
  - destruct b as [|y b]; destruct c as [|z c]; try discriminate.
    simpl. f_equal. apply IH; simpl in *; lia.
Qed.

Lemma slice_to_nonneg {A : Type} (k : Z) (l : list A) :
  0 <= k -> Seq.slice_to k l = take (Z.to_nat k) l.
Proof.
  intros Hk. unfold Seq.slice_to. destruct (Z.leb_spec 0 k); [reflexivity | lia].
Qed.

(** [l[k:] if len(l) > k else []] is [l[k:]]. *)
Lemma guarded_slice_from {A : Type} (k : Z) (l : list A) :
  0 <= k ->
  (if k <? Z.of_nat (length l) then Seq.slice_from k l else [])
  = drop (Z.to_nat k) l.
Proof.
  intros Hk. unfold Seq.slice_from.
  destruct (Z.leb_spec 0 k); [|lia].
  destruct (Z.ltb_spec k (Z.of_nat (length l))); [reflexivity|].
  symmetry. apply drop_ge. lia.
Qed.

Lemma mapM_length {A B : Type} (f : A -> result B) (l : list A) (l' : list B) :
  mapM f l = Ok l' -> length l' = length l.
Proof.
  revert l'. induction l as [|x l IH]; intros l' H; simpl in H.
  - injection H as <-. reflexivity.
  - destruct (f x); try discriminate. simpl in H.
    destruct (mapM f l); try discriminate. simpl in H.
    injection H as <-. simpl. f_equal. apply IH. reflexivity.
Qed.

Lemma rerank_collect_length (docs : list Document) (items : list rerank_item)
    (out : list Document) (scores : list Binary64.float) :
  rerank_collect docs items = Ok (out, scores) -> length scores = length out.
Proof.
  revert out scores. induction items as [|item items IH]; intros out scores H;
    simpl in H.
  - injection H as <- <-. reflexivity.
  - destruct (ri_index item); [|discriminate]. simpl in H.
    destruct (Seq.index docs z); try discriminate. simpl in H.
    destruct (rerank_collect docs items) as [[ds ss]| |]; try discriminate.
    simpl in H. injection H as <- <-. simpl. f_equal. apply IH. reflexivity.
Qed.

Section RetrievalFacts.

Context {ext : External}.

Lemma similarity_scores_length (rag : OptimizedRAG)
    (embedding_vector : list Binary64.float) (docs : list Document)
    (all_scores : list Binary64.float) :
  similarity_scores rag embedding_vector docs = Ok all_scores ->
  length all_scores = length docs.
Proof.
  unfold similarity_scores. intros H.
  destruct (mapM _ (map chunk_id docs)) as [vectors| |] eqn:E; try discriminate.
  cbv beta iota delta [bind] in H.
  apply mapM_length in E. rewrite length_map in E.
  apply mapM_length in H. congruence.
Qed.

Lemma candidate_pool_length (rag : OptimizedRAG) (query : string)
    (docs : list Document) (all_scores : list Binary64.float)
    (pool : list Document) (scores : list Binary64.float) :
  length all_scores = length docs ->
  candidate_pool rag query docs all_scores = Ok (pool, scores) ->
  length scores = length pool.
Proof.
  unfold candidate_pool, rerank_documents. intros Hl H.
  destruct (_ && _)%bool.
  - destruct (rerank_function rag) as [rerank|].
    + destruct docs as [|d docs].
      * injection H as <- <-. exact Hl.
      * destruct (rerank query (map page_content (d :: docs))) as [items|e];
          simpl in H; [|discriminate].
        destruct (rerank_collect (d :: docs) items) as [[ds ss]| |] eqn:E;
          simpl in H; try discriminate.
        injection H as <- <-. eapply rerank_collect_length. exact E.
    + injection H as <- <-. exact Hl.
  - injection H as <- <-. exact Hl.
Qed.

Lemma retrieval_pool_length (rag : OptimizedRAG) (query : string)
    (pool : list Document) (scores : list Binary64.float) :
  retrieval_pool rag query = Ok (pool, scores) -> length scores = length pool.
Proof.
  unfold retrieval_pool. intros H.
  destruct (embed_query rag query) as [emb|]; simpl in H; [|discriminate].
  destruct (similarity_search_by_vector rag emb _) as [docs|]; simpl in H;
    [|discriminate].
  destruct docs as [|d docs].
  - injection H as <- <-. reflexivity.
  - destruct (similarity_scores rag emb (d :: docs)) as [all_scores| |] eqn:E;
      simpl in H; try discriminate.
    eapply candidate_pool_length; [|exact H].
    eapply similarity_scores_length. exact E.
Qed.

(** For a width [k >= 0] the partition cuts the pool at [k]. *)
Lemma partition_pool_cut (k : Z) (docs : list Document)
    (all_scores : list Binary64.float) :
  0 <= k -> length all_scores = length docs ->
  partition_pool k docs all_scores
  = (take (Z.to_nat k) (pool_tuples docs all_scores),
     drop (Z.to_nat k) (pool_tuples docs all_scores)).
Proof.
  intros Hk Hl. unfold partition_pool, pool_tuples.
  rewrite !slice_to_nonneg, !guarded_slice_from by exact Hk.
  rewrite zip3_take, zip3_drop by (rewrite ?length_map; auto).
  rewrite firstn_map, skipn_map. reflexivity.
Qed.

(** C8.  When the candidate pool of a query holds [n <= rerank_range]
    documents, [rag_workflow] returns as context the first [min(k, n)]
    candidates in pool order and as backup the [n - min(k, n)] others;
    so the context has at most [k] entries, context and backup together
    at most [rerank_range], and with [n < k] the context has [n] entries
    and nothing is added to it.  The width [k] is not negative. *)
Theorem context_is_the_first_k (rag : OptimizedRAG) (query : string)
    (pool : list Document) (scores : list Binary64.float) :
  retrieval_pool rag query = Ok (pool, scores) ->
  0 <= k (config rag) ->
  Z.of_nat (length pool) <= rerank_range (config rag) ->
  let n := length pool in
  let m := Z.to_nat (Z.min (k (config rag)) (Z.of_nat n)) in
  let candidates := pool_tuples pool scores in
  exists (embedding_vector : list Binary64.float) (response : string),
    rag_workflow rag query
    = Ok (embedding_vector, take m candidates, drop m candidates, response)
    /\ length candidates = n
    /\ length (take m candidates) = m
    /\ length (drop m candidates) = (n - m)%nat
    /\ Z.of_nat (length (take m candidates)) <= k (config rag)
    /\ Z.of_nat (length (take m candidates) + length (drop m candidates))
       <= rerank_range (config rag)
    /\ (Z.of_nat n < k (config rag) -> length (take m candidates) = n).
Proof.
  intros H Hk Hn n m candidates.
  pose proof (retrieval_pool_length _ _ _ _ H) as Hlen.
  assert (Hc : length candidates = n).
  { unfold candidates, pool_tuples. rewrite length_map.
    apply zip3_length; [apply length_map | exact Hlen]. }
  assert (Hm : (m <= n)%nat) by (unfold m; lia).
  assert (Htake : take (Z.to_nat (k (config rag))) candidates = take m candidates).
  { destruct (Z.le_gt_cases (k (config rag)) (Z.of_nat n)) as [Hle|Hgt].
    - unfold m. rewrite Z.min_l by exact Hle. reflexivity.
    - rewrite !take_ge; [reflexivity | unfold m; lia | lia]. }
  assert (Hdrop : drop (Z.to_nat (k (config rag))) candidates = drop m candidates).
  { destruct (Z.le_gt_cases (k (config rag)) (Z.of_nat n)) as [Hle|Hgt].
    - unfold m. rewrite Z.min_l by exact Hle. reflexivity.
    - rewrite !drop_ge; [reflexivity | unfold m; lia | lia]. }
  assert (Hrun : exists embedding_vector response,
             rag_workflow rag query
             = Ok (embedding_vector, take m candidates, drop m candidates,
                   response)).
  { unfold retrieval_pool in H. unfold rag_workflow.
    destruct (embed_query rag query) as [emb|];
      cbv beta iota delta [bind call] in *; [|discriminate].
    destruct (similarity_search_by_vector rag emb _) as [docs|];
      cbv beta iota delta [bind call] in *; [|discriminate].
    destruct docs as [|d docs].
    - injection H as <- <-. exists emb. eexists.
      replace (take m candidates) with (@nil retrieved_doc)
        by (unfold candidates, pool_tuples; simpl; rewrite take_nil; reflexivity).
      replace (drop m candidates) with (@nil retrieved_doc)
        by (unfold candidates, pool_tuples; simpl; rewrite drop_nil; reflexivity).
      reflexivity.
    - destruct (similarity_scores rag emb (d :: docs)) as [all_scores| |];
        simpl in H; try discriminate.
      rewrite H. rewrite partition_pool_cut by assumption.
      fold candidates. cbn [fst snd]. rewrite Htake, Hdrop.
      exists emb. eexists. reflexivity. }
  destruct Hrun as (emb & response & Hrun).
  exists emb, response. split; [exact Hrun|]. split; [exact Hc|].
  rewrite length_take, length_drop, Hc.
  split; [lia|]. split; [reflexivity|]. split; [unfold m; lia|].
  split; [lia|]. intros Hlt. unfold m. lia.
Qed.

End RetrievalFacts.

(** Three candidates and a width of two: two in the context, one in the
    backup. *)
Lemma context_is_the_first_k_witness :
  exists (embedding_vector : list Binary64.float) (response : string),
    rag_workflow (ext := Sample.ext) Sample.rag "q"
    = Ok (embedding_vector,
          [(1, Binary64.one, [], "alpha one"%string);
           (2, Binary64.one, [], "alpha beta two"%string)],
          [(3, Binary64.one, [], "three"%string)],
          response).
Proof.
  destruct (context_is_the_first_k (ext := Sample.ext) Sample.rag "q"
              Sample.chunks [Binary64.one; Binary64.one; Binary64.one]
              eq_refl) as (emb & response & H & _).
  - simpl. lia.
  - simpl. lia.
  - exists emb, response. exact H.
Defined.

(* ===================================================================== *)
(** * The batch driver *)
(* ===================================================================== *)

Section DriverFacts.

Context {ext : External}.

Lemma slot_filled_lookup (results : results_array) (j : nat)
    (r : question_result) :
  results !! j = Some (Some r) -> slot_filled results j = true.
Proof. unfold slot_filled. intros ->. reflexivity. Qed.

Lemma store_other (results results' : results_array) (i j : nat)
    (r : question_result) :
  store results i r = Ok results' -> i <> j -> results' !! j = results !! j.
Proof.
  unfold store. intros H Hne. destruct (bool_decide _); [|discriminate].
  injection H as <-. apply list_lookup_insert_ne. exact Hne.
Qed.

(** Resume, sequential mode: a slot that is filled when the loop starts
    holds the same record when the loop ends. *)
Lemma sequential_loop_keeps_filled (rag : OptimizedRAG) (items : list qa_item)
    (i : nat) (results : results_array) (j : nat) (r : question_result) :
  results !! j = Some (Some r) ->
  fst (sequential_loop rag i items results) !! j = Some (Some r).
Proof.
  revert i results. induction items as [|item items IH]; intros i results Hj.
  - exact Hj.
  - simpl. destruct (slot_filled results i) eqn:Hf; [apply IH; exact Hj|].
    destruct (_process_rag_question rag item) as [r'| |]; simpl; try exact Hj.
    destruct (store results i r') as [results'| |] eqn:Hs; simpl; try exact Hj.
    apply IH. rewrite (store_other _ _ _ j _ Hs); [exact Hj|].
    intros ->. rewrite (slot_filled_lookup _ _ _ Hj) in Hf. discriminate.
Qed.

(** Sequential mode: a question whose slot is empty gets the record of
    its run, whatever its raw response and parsed answer are. *)
Lemma sequential_loop_stores_any (rag : OptimizedRAG) (item : qa_item)
    (i : nat) (results : results_array) (r : question_result) :
  results !! i = Some None ->
  _process_rag_question rag item = Ok r ->
  fst (sequential_loop rag i [item] results) = <[i := Some r]> results.
Proof.
  intros Hi Hp. simpl. unfold slot_filled. rewrite Hi, Hp. simpl.
  unfold store. apply lookup_lt_Some in Hi.
  rewrite bool_decide_eq_true_2 by exact Hi. reflexivity.
Qed.

(** Concurrent mode: a completed future either leaves the array as it is
    or writes, at its own index, a record whose raw response and parsed
    answer are both non-empty. *)
Lemma concurrent_step_accepts (rag : OptimizedRAG) (qa_dataset : list qa_item)
    (results results' : results_array) (index : nat) :
  concurrent_step rag qa_dataset results index = Ok results' ->
  results' = results
  \/ exists r : question_result,
       results' = <[index := Some r]> results
       /\ Str.is_empty (qr_raw_response r) = false
       /\ Str.is_empty (qr_response r) = false.
Proof.
  unfold concurrent_step. intros H.
  destruct (qa_dataset !! index) as [item|]; [|injection H as <-; left; reflexivity].
  destruct (_process_rag_question rag item) as [r| |];
    [|injection H as <-; left; reflexivity | discriminate].
  destruct (Str.is_empty (qr_raw_response r)) eqn:E1;
    [injection H as <-; left; reflexivity|].
  destruct (Str.is_empty (qr_response r)) eqn:E2;
    [injection H as <-; left; reflexivity|].
  simpl in H. unfold store in H.
  destruct (bool_decide _); injection H as <-; [right | left; reflexivity].
  exists r. auto.
Qed.

(** Resume, concurrent mode: a slot whose index is not among the
    submitted futures is left as it was. *)
Lemma concurrent_loop_keeps_others (rag : OptimizedRAG)
    (qa_dataset : list qa_item) (completion_order : list nat)
    (results results' : results_array) (j : nat) :
  concurrent_loop rag qa_dataset completion_order results = Ok results' ->
  j ∉ completion_order -> results' !! j = results !! j.
Proof.
  revert results. induction completion_order as [|index order IH];
    intros results H Hj; simpl in H.
  - injection H as <-. reflexivity.
  - destruct (concurrent_step rag qa_dataset results index) as [mid| |] eqn:Hs;
      simpl in H; try discriminate.
    apply not_elem_of_cons in Hj. destruct Hj as [Hne Hj].
    rewrite (IH mid H Hj).
    apply concurrent_step_accepts in Hs. destruct Hs as [->|(r & -> & _)].
    + reflexivity.
    + apply list_lookup_insert_ne. congruence.
Qed.

(** Concurrent mode: every slot the loop changes holds a record with a
    non-empty raw response and a non-empty parsed answer. *)
Lemma concurrent_loop_accepts (rag : OptimizedRAG) (qa_dataset : list qa_item)
    (completion_order : list nat) (results results' : results_array)
    (j : nat) :
  concurrent_loop rag qa_dataset completion_order results = Ok results' ->
  results' !! j = results !! j
  \/ exists r : question_result,
       results' !! j = Some (Some r)
       /\ Str.is_empty (qr_raw_response r) = false
       /\ Str.is_empty (qr_response r) = false.
Proof.
  revert results. induction completion_order as [|index order IH];
    intros results H; simpl in H.
  - injection H as <-. left. reflexivity.
  - destruct (concurrent_step rag qa_dataset results index) as [mid| |] eqn:Hs;
      simpl in H; try discriminate.
    destruct (IH mid H) as [Heq|Hnew]; [|right; exact Hnew].
    apply concurrent_step_accepts in Hs. destruct Hs as [->|(r & -> & E1 & E2)].
    + left. exact Heq.
    + destruct (decide (index = j)) as [->|Hne].
      * destruct (decide (j < length results)%nat) as [Hlt|Hge].
        -- right. exists r. rewrite Heq.
           split; [apply list_lookup_insert_eq; exact Hlt | auto].
        -- left. rewrite Heq. f_equal. apply list_insert_ge. lia.
      * left. rewrite Heq. apply list_lookup_insert_ne. exact Hne.
Qed.

Lemma analysed_Forall (P : evidence_analysis -> Prop) (results : results_array) :
  Forall P (analysed results)
  <-> forall (j : nat) (r : question_result),
        results !! j = Some (Some r) -> P (qr_evidence_retrieval_analysis r).
Proof.
  induction results as [|slot results IH].
  - split; [intros _ j r H; discriminate | intros _; constructor].
  - destruct slot as [r0|].
    + rewrite analysed_cons_some, Forall_cons, IH. split.
      * intros [H0 H] j r Hj. destruct j as [|j].
        -- injection Hj as <-. exact H0.
        -- apply (H j). exact Hj.
      * intros H. split; [apply (H 0%nat); reflexivity|].
        intros j r Hj. apply (H (S j)). exact Hj.
    + rewrite analysed_cons_none, IH. split.
      * intros H j r Hj. destruct j as [|j]; [discriminate|].
        apply (H j). exact Hj.
      * intros H j r Hj. apply (H (S j)). exact Hj.
Qed.

Lemma analysed_store (P : evidence_analysis -> Prop)
    (results results' : results_array) (i : nat) (r : question_result) :
  store results i r = Ok results' ->
  Forall P (analysed results) -> P (qr_evidence_retrieval_analysis r) ->
  Forall P (analysed results').
Proof.
  unfold store. intros H Hall Hr.
  destruct (bool_decide _); [|discriminate]. injection H as <-.
  apply analysed_Forall. intros j r' Hj. unfold results_array in *.
  rewrite list_lookup_insert in Hj. destruct (decide _) as [_|_].
  - injection Hj as <-. exact Hr.
  - revert Hj. apply analysed_Forall. exact Hall.
Qed.

Lemma analysed_replicate_none (n : nat) : analysed (replicate n None) = [].
Proof. induction n as [|n IH]; [reflexivity | exact IH]. Qed.

(** The analysis stored with a question is the one the analyzer returned
    for it. *)
Lemma process_from_analyzer (rag : OptimizedRAG) (item : qa_item)
    (r : question_result) :
  _process_rag_question rag item = Ok r ->
  from_analyzer (qr_evidence_retrieval_analysis r).
Proof.
  unfold _process_rag_question. intros H.
  destruct (query_rag_with_details rag (qa_query item)) as [d| |];
    cbv beta iota delta [bind] in H; try discriminate.
  destruct (check_evidence_retrieval (qa_evidence_list item)
              (simple (rd_retrieved_docs d)) (simple (rd_backup_docs d))
              (Some (rag_vectorstore rag))) as [a| |] eqn:E;
    try discriminate.
  destruct (analyze_error_type _ _ _ _ a _) as [ea| |]; try discriminate.
  injection H as <-. simpl. eexists _, _, _, _. exact E.
Qed.

Lemma sequential_loop_from_analyzer (rag : OptimizedRAG) (items : list qa_item)
    (i : nat) (results : results_array) :
  Forall from_analyzer (analysed results) ->
  Forall from_analyzer (analysed (fst (sequential_loop rag i items results))).
Proof.
  revert i results. induction items as [|item items IH]; intros i results H.
  - exact H.
  - simpl. destruct (slot_filled results i); [apply IH; exact H|].
    destruct (_process_rag_question rag item) as [r| |] eqn:Hp; simpl;
      try exact H.
    destruct (store results i r) as [results'| |] eqn:Hs; simpl; try exact H.
    apply IH. eapply analysed_store; [exact Hs | exact H |].
    eapply process_from_analyzer. exact Hp.
Qed.

Lemma concurrent_loop_from_analyzer (rag : OptimizedRAG)
    (qa_dataset : list qa_item) (completion_order : list nat)
    (results results' : results_array) :
  concurrent_loop rag qa_dataset completion_order results = Ok results' ->
  Forall from_analyzer (analysed results) ->
  Forall from_analyzer (analysed results').
Proof.
  revert results. induction completion_order as [|index order IH];
    intros results H Hall; simpl in H.
  - injection H as <-. exact Hall.
  - destruct (concurrent_step rag qa_dataset results index) as [mid| |] eqn:Hs;
      simpl in H; try discriminate.
    apply (IH mid H). clear IH H.
    unfold concurrent_step in Hs.
    destruct (qa_dataset !! index) as [item|]; [|injection Hs as <-; exact Hall].
    destruct (_process_rag_question rag item) as [r| |] eqn:Hp;
      [|injection Hs as <-; exact Hall | discriminate].
    destruct (_ || _)%bool; [injection Hs as <-; exact Hall|].
    destruct (store results index r) as [stored| |] eqn:Hst;
      [|injection Hs as <-; exact Hall | discriminate].
    injection Hs as <-. eapply analysed_store; [exact Hst | exact Hall |].
    eapply process_from_analyzer. exact Hp.
Qed.

(** The roll-up of a whole run.  Started from nothing, or from a cache
    whose analyses the analyzer returned, a run of
    [batch_evaluate_configuration] that returns reports the recall, the
    MRR and the MAP of the eligible questions of its results array. *)
Lemma batch_metrics_are_over_eligible_questions (rag : OptimizedRAG)
    (qa_dataset : list qa_item) (concurrent_workers : Z)
    (completion_order : list nat) (cached : option results_array)
    (b : batch_result) :
  match cached with
  | Some results => Forall from_analyzer (analysed results)
  | None => True
  end ->
  batch_evaluate_configuration rag qa_dataset concurrent_workers
    completion_order cached = Ok b ->
  let results := rr_results (br_rag_result b) in
  br_rag_recall b = document_recall results
  /\ br_rag_mrr b = eligible_mean ea_mrr_score results
  /\ br_rag_map b = eligible_mean ea_ap results
  /\ br_retrieval_eligible_questions b = Z.of_nat (length (eligible results)).
Proof.
  intros Hcache H.
  assert (Hinit : Forall from_analyzer
                    (analysed (initial_results qa_dataset cached))).
  { destruct cached as [results|]; simpl; [exact Hcache|].
    rewrite analysed_replicate_none. constructor. }
  unfold batch_evaluate_configuration in H.
  assert (Hrun : forall rr : rag_result,
            (if concurrent_workers <=? 1
             then snd (_test_rag_sequential rag qa_dataset cached)
             else _test_rag_concurrent rag qa_dataset completion_order cached)
            = Ok rr ->
            Forall from_analyzer (analysed (rr_results rr))).
  { intros rr Hrr. destruct (concurrent_workers <=? 1).
    - unfold _test_rag_sequential in Hrr.
      pose proof (sequential_loop_from_analyzer rag qa_dataset 0 _ Hinit) as Hseq.
      destruct (sequential_loop rag 0 qa_dataset
                  (initial_results qa_dataset cached)) as [results' [[]| |]];
        simpl in Hrr; try discriminate.
      unfold summary in Hrr.
      destruct (accuracy_of _ _); simpl in Hrr; try discriminate.
      injection Hrr as <-. exact Hseq.
    - unfold _test_rag_concurrent in Hrr.
      destruct (pending qa_dataset (initial_results qa_dataset cached)).
      + unfold summary in Hrr.
        destruct (accuracy_of _ _); simpl in Hrr; try discriminate.
        injection Hrr as <-. exact Hinit.
      + destruct (concurrent_loop rag qa_dataset completion_order
                    (initial_results qa_dataset cached)) as [results'| |] eqn:Hc;
          simpl in Hrr; try discriminate.
        unfold summary in Hrr.
        destruct (accuracy_of _ _); simpl in Hrr; try discriminate.
        injection Hrr as <-.
        eapply concurrent_loop_from_analyzer; [exact Hc | exact Hinit]. }
  destruct (if concurrent_workers <=? 1 then _ else _) as [rr| |];
    cbv beta iota delta [bind] in H; try discriminate.
  pose proof (from_analyzer_all_well_scored _ (Hrun rr eq_refl)) as Hw.
  rewrite (aggregate_metrics_run _ Hw) in H.
  rewrite (totals_run _ totals_init Hw representable_zero representable_zero) in H.
  injection H as <-. simpl. repeat split.
Qed.

End DriverFacts.

(** C3, on the code.  One question, a reranker whose service is down:
    [rag_workflow] gives an empty response.  The concurrent driver leaves
    the slot empty for a later run; the sequential driver stores the
    record, whose raw response and parsed answer are both empty, so the
    question is not processed again. *)
Theorem sequential_mode_stores_empty_response :
  (exists rr : rag_result,
     _test_rag_concurrent (ext := Sample.ext) Sample.rag_rerank_down
       [Sample.question] [0%nat] None = Ok rr
     /\ rr_results rr = [None])
  /\ exists r : question_result,
       fst (_test_rag_sequential (ext := Sample.ext) Sample.rag_rerank_down
              [Sample.question] None) = [Some r]
       /\ qr_raw_response r = EmptyString
       /\ qr_response r = EmptyString
       /\ fst (_test_rag_sequential (ext := Sample.ext) Sample.rag_rerank_down
                 [Sample.question] (Some [Some r])) = [Some r].
Proof.
  split.
  - eexists. split; vm_compute; reflexivity.
  - eexists. split; [vm_compute; reflexivity|].
    split; [reflexivity|]. split; reflexivity.
Qed.

(* ===================================================================== *)
(** * Further properties of the tolerant parser *)
(* ===================================================================== *)

#[local] Arguments String.append !s1 s2 : simpl nomatch.


Lemma has_char_get (c : ascii) (s : string) :
  has_char c s = false <-> forall i, String.get i s <> Some c.
Proof.
  induction s as [|a s IH]; simpl.
  - split; [intros _ i; destruct i; discriminate | reflexivity].
  - rewrite orb_false_iff, IH. split.
    + intros [Ha Hs] [|i]; simpl.
      * intros [= ->]. rewrite Ascii.eqb_refl in Ha. discriminate.
      * apply Hs.
    + intros H. split.
      * destruct (Ascii.eqb_spec a c) as [->|]; [|reflexivity].
        exfalso. apply (H 0%nat). reflexivity.
      * intros i. apply (H (S i)).
Qed.

Lemma has_char_app (c : ascii) (s t : string) :
  has_char c (s ++ t) = (has_char c s || has_char c t)%bool.
Proof.
  induction s as [|a s IH]; simpl; [reflexivity|].
  rewrite IH. apply orb_assoc.
Qed.

Lemma string_app_assoc (a b c : string) : ((a ++ b) ++ c = a ++ (b ++ c))%string.
Proof. induction a as [|x a IH]; simpl; [reflexivity | now rewrite IH]. Qed.

Lemma string_app_nil_r (a : string) : (a ++ EmptyString = a)%string.
Proof. induction a as [|x a IH]; simpl; [reflexivity | now rewrite IH]. Qed.

Lemma string_length_app (a b : string) :
  String.length (a ++ b) = (String.length a + String.length b)%nat.
Proof. induction a as [|x a IH]; simpl; [reflexivity | now rewrite IH]. Qed.

Lemma get_app_length (a b : string) :
  String.get (String.length a) (a ++ b) = String.get 0 b.
Proof. induction a as [|x a IH]; simpl; [reflexivity | exact IH]. Qed.

Lemma get_app_head (a : string) (c : ascii) (b : string) :
  String.get (String.length a) (a ++ String c b) = Some c.
Proof. rewrite get_app_length. reflexivity. Qed.

Lemma get_app_next (a : string) (c d : ascii) (b : string) :
  String.get (String.length a + 1) (a ++ String c (String d b)) = Some d.
Proof. induction a as [|x a IH]; simpl; [reflexivity | exact IH]. Qed.

Lemma get_app_none (a : string) :
  String.get (String.length a) (a ++ EmptyString) = None.
Proof. induction a as [|x a IH]; simpl; [reflexivity | exact IH]. Qed.

Lemma drop_app_length (a b : string) : Str.drop (String.length a) (a ++ b) = b.
Proof. induction a as [|x a IH]; simpl; [now destruct b | exact IH]. Qed.

Lemma append_char_length (r : string) (c : ascii) :
  String.length (append_char r c) = (String.length r + 1)%nat.
Proof. unfold append_char. rewrite string_length_app. reflexivity. Qed.

Lemma copied_step (r : string) (c : ascii) (rest : string) (b : bool) (q : option ascii) :
  copied (r ++ String c rest)
    {| cv_i := String.length r + 1; cv_in_string := b; cv_string_quote := q;
       cv_result := append_char r c |}.
Proof.
  exists rest. simpl. split.
  - unfold append_char. rewrite string_app_assoc. reflexivity.
  - rewrite append_char_length. reflexivity.
Qed.

Lemma convert_step_copies (s : string) (st : convert_state) :
  has_char Ch.squote s = false -> copied s st ->
  match convert_step s st with
  | Done out => out = s
  | Next st' => copied s st' /\ (cv_i st < cv_i st')%nat
  end.
Proof.
  intros Hs (rest & Hrest & Hi).
  destruct st as [i b q r]. simpl in *. subst i.
  unfold convert_step. cbn [cv_i cv_in_string cv_string_quote cv_result].
  destruct rest as [|c rest].
  - assert (Hn : String.get (String.length r) s = None)
      by (rewrite Hrest; apply get_app_none).
    rewrite Hn, Hrest, string_app_nil_r. reflexivity.
  - assert (Hc : String.get (String.length r) s = Some c)
      by (rewrite Hrest; apply get_app_head).
    rewrite Hc.
    assert (Hne : Ascii.eqb c Ch.squote = false).
    { rewrite Hrest, has_char_app in Hs. simpl in Hs.
      apply orb_false_iff in Hs as [_ Hs]. apply orb_false_iff in Hs as [Hs _].
      exact Hs. }
    destruct b; cbn [negb].
    + destruct (Ascii.eqb c Ch.backslash).
      * destruct rest as [|d rest].
        -- assert (Hn : String.get (String.length r + 1) s = None).
           { rewrite Hrest. clear. induction r as [|x r IH]; simpl; [reflexivity|exact IH]. }
           rewrite Hn.
           destruct (match q with Some q0 => Ascii.eqb c q0 | None => false end);
             (split; [rewrite Hrest; apply copied_step | simpl; lia]).
        -- assert (Hn : String.get (String.length r + 1) s = Some d)
             by (rewrite Hrest; apply get_app_next).
           rewrite Hn. split; [|simpl; lia].
           exists rest. simpl. split.
           ++ rewrite Hrest. unfold append_char. rewrite !string_app_assoc. reflexivity.
           ++ rewrite !append_char_length. lia.
      * destruct (match q with Some q0 => Ascii.eqb c q0 | None => false end);
          (split; [rewrite Hrest; apply copied_step | simpl; lia]).
    + rewrite Hne. cbn [andb].
      destruct (Ascii.eqb c Ch.dquote);
        (split; [rewrite Hrest; apply copied_step | simpl; lia]).
Qed.

Lemma convert_loop_copies (s : string) (fuel : nat) (st : convert_state) :
  has_char Ch.squote s = false -> copied s st ->
  (String.length s - cv_i st < fuel)%nat ->
  convert_loop fuel s st = Some s.
Proof.
  intros Hs. revert st. induction fuel as [|fuel IH]; intros st Hst Hfuel; [lia|].
  simpl. pose proof (convert_step_copies s st Hs Hst) as H.
  destruct (convert_step s st) as [st'|out] eqn:E.
  - destruct H as [Hst' Hlt].
    apply convert_step_progress in E as [Hlen _].
    apply IH; [exact Hst'|lia].
  - now subst.
Qed.

(** X1.  [_convert_python_dict_to_json] returns a text that holds no
    apostrophe as it is: every branch of the loop copies the characters
    it reads. *)
Theorem conversion_keeps_text_without_apostrophe (s : string) :
  has_char Ch.squote s = false -> _convert_python_dict_to_json s = Ok s.
Proof.
  intros Hs. unfold _convert_python_dict_to_json.
  rewrite (convert_loop_copies s _ convert_init Hs); [reflexivity| |simpl; lia].
  exists s. split; reflexivity.
Qed.

Section UnclosedApostrophe.

Variables p rest : string.
Let s : string := (p ++ String Ch.squote rest)%string.

Hypothesis Hopens : opens_string p = true.
Hypothesis Hend : find_string_end s (String.length p) Ch.squote = None.

Lemma unclosed_apostrophe_is_stuck (st : convert_state) :
  cv_i st = String.length p -> cv_in_string st = false ->
  convert_step s st = Next st.
Proof.
  intros Hi Hb. unfold convert_step. rewrite Hi, Hb.
  unfold s at 1. rewrite get_app_head. cbn [negb].
  rewrite Ascii.eqb_refl. cbn [andb].
  assert (Hprev : (Nat.eqb (String.length p) 0
            || match String.get (String.length p - 1) s with
               | Some c => Ch.among c [Ch.lbrace; Ch.comma; Ch.colon; Ch.space;
                                       Ch.newline; Ch.tab; Ch.lbracket]
               | None => false
               end)%bool = true).
  { unfold opens_string in Hopens.
    destruct (Nat.eqb (String.length p) 0) eqn:E; [reflexivity|].
    apply Nat.eqb_neq in E. cbn [orb] in *.
    unfold s. rewrite <- append_correct1 by lia. exact Hopens. }
  rewrite Hprev, Hend. reflexivity.
Qed.

Lemma unclosed_apostrophe_walk (p2 : string) :
  forall (a : string) (st : convert_state) (fuel : nat),
    p = (a ++ p2)%string ->
    cv_i st = String.length a -> cv_in_string st = false ->
    has_char Ch.squote p2 = false -> has_char Ch.dquote p2 = false ->
    convert_loop fuel s st = None.
Proof.
  induction p2 as [|c p2 IH]; intros a st fuel Hp Hi Hb Hsq Hdq.
  - rewrite string_app_nil_r in Hp. subst a.
    apply convert_loop_stuck, unclosed_apostrophe_is_stuck; assumption.
  - destruct fuel as [|fuel]; [reflexivity|].
    simpl in Hsq, Hdq.
    apply orb_false_iff in Hsq as [Hc1 Hsq].
    apply orb_false_iff in Hdq as [Hc2 Hdq].
    assert (Hget : String.get (String.length a) s = Some c).
    { unfold s. rewrite Hp, string_app_assoc. apply get_app_head. }
    cbn [convert_loop]. unfold convert_step.
    rewrite Hi, Hb, Hget. cbn [negb]. rewrite Hc1, Hc2. cbn [andb].
    apply (IH (a ++ String c EmptyString)%string).
    + rewrite Hp, string_app_assoc. reflexivity.
    + cbn [cv_i]. rewrite string_length_app. reflexivity.
    + reflexivity.
    + exact Hsq.
    + exact Hdq.
Qed.

End UnclosedApostrophe.

(** X2.  [_convert_python_dict_to_json] does not return on a text in which
    an apostrophe, reached outside a double-quoted string at the start or
    after one of the delimiters, opens a string for which
    [find_string_end] finds no end: the iteration changes no variable, so
    the loop repeats it for ever. *)
Theorem unclosed_apostrophe_never_converts (p rest : string) :
  has_char Ch.squote p = false -> has_char Ch.dquote p = false ->
  opens_string p = true ->
  find_string_end (p ++ String Ch.squote rest) (String.length p) Ch.squote = None ->
  _convert_python_dict_to_json (p ++ String Ch.squote rest) = Diverge
  /\ forall fuel, convert_loop fuel (p ++ String Ch.squote rest) convert_init = None.
Proof.
  intros Hsq Hdq Hopens Hend.
  assert (H : forall fuel,
             convert_loop fuel (p ++ String Ch.squote rest) convert_init = None).
  { intros fuel.
    apply (unclosed_apostrophe_walk p rest Hopens Hend p EmptyString);
      [reflexivity | reflexivity | reflexivity | assumption | assumption]. }
  split; [|exact H].
  unfold _convert_python_dict_to_json. now rewrite H.
Qed.

(** A string without the quote character has no end. *)
Lemma find_end_from_without_quote (quote_char prev : ascii) (rest : string)
    (idx : nat) (first : bool) :
  has_char quote_char rest = false ->
  find_end_from quote_char idx first prev rest = None.
Proof.
  revert idx first prev. induction rest as [|c rest IH]; intros idx first prev H.
  - reflexivity.
  - simpl in H. apply orb_false_iff in H as [Hc H].
    simpl. rewrite Hc. apply IH, H.
Qed.

Lemma conversion_keeps_text_without_apostrophe_witness :
  _convert_python_dict_to_json Sample.both_keys = Ok Sample.both_keys.
Proof.
  apply (conversion_keeps_text_without_apostrophe Sample.both_keys).
  reflexivity.
Defined.

Lemma unclosed_apostrophe_never_converts_witness :
  _convert_python_dict_to_json "It is 'Paris" = Diverge
  /\ forall fuel, convert_loop fuel "It is 'Paris" convert_init = None.
Proof.
  apply (unclosed_apostrophe_never_converts "It is " "Paris"); reflexivity.
Defined.

Lemma string_app_cons (c : ascii) (a b : string) :
  (String c a ++ b = String c (a ++ b))%string.
Proof. reflexivity. Qed.

Lemma lstrip_blank (ws s : string) :
  blank ws = true -> Str.lstrip (ws ++ s) = Str.lstrip s.
Proof.
  induction ws as [|c ws IH]; simpl; [reflexivity|].
  intros H. apply andb_true_iff in H as [Hc H]. rewrite Hc. apply IH, H.
Qed.

Lemma rstrip_blank_only (ws : string) : blank ws = true -> Str.rstrip ws = EmptyString.
Proof.
  induction ws as [|c ws IH]; simpl; [reflexivity|].
  intros H. apply andb_true_iff in H as [Hc H]. rewrite (IH H), Hc. reflexivity.
Qed.

Lemma rstrip_blank (s ws : string) :
  blank ws = true -> Str.rstrip (s ++ ws) = Str.rstrip s.
Proof.
  intros H. induction s as [|c s IH]; simpl.
  - apply rstrip_blank_only, H.
  - rewrite IH. reflexivity.
Qed.

Lemma rstrip_cons_nonspace (c : ascii) (s : string) :
  Str.is_space c = false -> Str.rstrip (String c s) = String c (Str.rstrip s).
Proof. intros H. simpl. destruct (Str.rstrip s); [now rewrite H | reflexivity]. Qed.

Lemma rstrip_ends_nonspace (s : string) (c : ascii) :
  Str.is_space c = false ->
  Str.rstrip (s ++ String c EmptyString) = (s ++ String c EmptyString)%string.
Proof.
  intros H. induction s as [|a s IH]; simpl.
  - now rewrite H.
  - rewrite IH. destruct s; reflexivity.
Qed.

Lemma lstrip_app (a b : string) :
  Str.lstrip (a ++ b)
  = if blank a then Str.lstrip b else (Str.lstrip a ++ b)%string.
Proof.
  induction a as [|c a IH]; simpl; [reflexivity|].
  destruct (Str.is_space c); simpl; [exact IH | reflexivity].
Qed.

Lemma lstrip_blank_only (ws : string) : blank ws = true -> Str.lstrip ws = EmptyString.
Proof.
  induction ws as [|c ws IH]; simpl; [reflexivity|].
  intros H. apply andb_true_iff in H as [Hc H]. rewrite Hc. apply IH, H.
Qed.

Lemma strip_blank_only (ws : string) : blank ws = true -> Str.strip ws = EmptyString.
Proof. intros H. unfold Str.strip. now rewrite (lstrip_blank_only ws H). Qed.

Lemma strip_padded (ws1 body ws2 : string) :
  blank ws1 = true -> blank ws2 = true ->
  Str.strip (ws1 ++ body ++ ws2) = Str.strip body.
Proof.
  intros H1 H2. unfold Str.strip. rewrite (lstrip_blank _ _ H1), lstrip_app.
  destruct (blank body) eqn:E.
  - rewrite (lstrip_blank_only ws2 H2), (lstrip_blank_only body E). reflexivity.
  - apply rstrip_blank, H2.
Qed.

Lemma lstrip_head (s : string) :
  match Str.lstrip s with
  | EmptyString => True
  | String c _ => Str.is_space c = false
  end.
Proof.
  induction s as [|c s IH]; simpl; [exact I|].
  destruct (Str.is_space c) eqn:E; [exact IH | exact E].
Qed.

Lemma rstrip_idem (s : string) : Str.rstrip (Str.rstrip s) = Str.rstrip s.
Proof.
  induction s as [|c s IH]; [reflexivity|].
  cbn [Str.rstrip]. destruct (Str.rstrip s) as [|d r] eqn:E.
  - destruct (Str.is_space c) eqn:Ec; [reflexivity|]. simpl. now rewrite Ec.
  - cbn [Str.rstrip]. cbn [Str.rstrip] in IH. rewrite IH. reflexivity.
Qed.

Lemma strip_idem (s : string) : Str.strip (Str.strip s) = Str.strip s.
Proof.
  unfold Str.strip. pose proof (lstrip_head s) as H.
  destruct (Str.lstrip s) as [|c r]; [reflexivity|].
  rewrite (rstrip_cons_nonspace c r H). simpl. rewrite H.
  rewrite <- (rstrip_cons_nonspace c r H). apply rstrip_idem.
Qed.

Lemma take_app_length (a b : string) : Str.take (String.length a) (a ++ b) = a.
Proof. induction a as [|x a IH]; simpl; [now destruct b | now rewrite IH]. Qed.

Section Fences.

Context {ext : External}.

Lemma clean_fenced (opening body : string) :
  (opening = "```json"%string
   \/ (opening = "```"%string /\ Str.startswith body "json" = false)) ->
  forall ws0 ws3 : string,
    blank ws0 = true -> blank ws3 = true ->
    clean_code_fence (ws0 ++ (opening ++ body ++ "```") ++ ws3) = Str.strip body.
Proof.
  intros Hopening ws0 ws3 H0 H3. unfold clean_code_fence.
  assert (Hstrip : Str.strip (ws0 ++ (opening ++ body ++ "```") ++ ws3)
                   = (opening ++ body ++ "```")%string).
  { unfold Str.strip. rewrite (lstrip_blank _ _ H0).
    assert (Hl : Str.lstrip ((opening ++ body ++ "```") ++ ws3)
                 = ((opening ++ body ++ "```") ++ ws3)%string)
      by (destruct Hopening as [->|[-> _]]; reflexivity).
    rewrite Hl, (rstrip_blank _ _ H3).
    replace (opening ++ body ++ "```")%string
      with ((opening ++ body ++ "``") ++ String "`" EmptyString)%string
      by (rewrite !string_app_assoc; reflexivity).
    apply rstrip_ends_nonspace. reflexivity. }
  rewrite Hstrip.
  assert (Hdrop :
    (if Str.startswith (opening ++ body ++ "```") "```json"
     then Str.drop 7 (opening ++ body ++ "```")
     else if Str.startswith (opening ++ body ++ "```") "```"
          then Str.drop 3 (opening ++ body ++ "```")
          else (opening ++ body ++ "```")%string)
    = (body ++ "```")%string).
  { destruct Hopening as [->|[-> Hj]].
    - assert (E : Str.startswith ("```json" ++ body ++ "```") "```json" = true)
        by (apply startswith_spec; eexists; reflexivity).
      rewrite E. reflexivity.
    - assert (E1 : Str.startswith ("```" ++ body ++ "```") "```json" = false).
      { destruct (Str.startswith ("```" ++ body ++ "```") "```json") eqn:E;
          [|reflexivity].
        apply startswith_spec in E as [post E].
        assert (E' : Str.startswith body "json" = true).
        { apply startswith_spec.
          injection E as E.
          destruct body as [|b1 [|b2 [|b3 [|b4 body]]]]; try discriminate.
          injection E as -> -> -> -> E. eexists. reflexivity. }
        congruence. }
      assert (E2 : Str.startswith ("```" ++ body ++ "```") "```" = true)
        by (apply startswith_spec; eexists; reflexivity).
      rewrite E1, E2. reflexivity. }
  rewrite Hdrop.
  assert (Hlen : (Str.len (body ++ "```") - Str.len "```" = String.length body)%nat).
  { unfold Str.len. rewrite string_length_app. simpl. lia. }
  assert (Hends : Str.endswith (body ++ "```") "```" = true).
  { unfold Str.endswith. rewrite Hlen, drop_app_length.
    rewrite String.eqb_refl, andb_true_r. apply Nat.leb_le.
    unfold Str.len. rewrite string_length_app. simpl. lia. }
  rewrite Hends. unfold Str.drop_last.
  change 3%nat with (Str.len "```"). rewrite Hlen, take_app_length. reflexivity.
Qed.

End Fences.

Lemma fix_outer_without_dquote (s before : string) :
  has_char Ch.dquote s = false -> fix_outer before s = s.
Proof.
  revert before. induction s as [|c s IH]; intros before H; [reflexivity|].
  simpl in H. apply orb_false_iff in H as [Hc H].
  cbn [fix_outer]. rewrite Hc. cbn [andb]. now rewrite IH.
Qed.

Lemma startswith_shorter (s : string) :
  Str.startswith s "```" = false -> Str.startswith s "```json" = false.
Proof.
  intros H. destruct (Str.startswith s "```json") eqn:E; [|reflexivity].
  apply startswith_spec in E as [post ->].
  assert (E : Str.startswith ("```json" ++ post) "```" = true)
    by (apply startswith_spec; eexists; reflexivity).
  congruence.
Qed.

Section ParserEdges.

Context {ext : External}.

Lemma clean_code_fence_blank (raw_response : string) :
  blank raw_response = true -> clean_code_fence raw_response = EmptyString.
Proof.
  intros H. unfold clean_code_fence. rewrite (strip_blank_only _ H). reflexivity.
Qed.

Lemma clean_code_fence_plain (body : string) :
  Str.startswith (Str.strip body) "```" = false ->
  Str.endswith (Str.strip body) "```" = false ->
  clean_code_fence body = Str.strip body.
Proof.
  intros H1 H2. unfold clean_code_fence.
  rewrite (startswith_shorter _ H1), H1, H2. apply strip_idem.
Qed.

Lemma repaired_literal_without_dquote (cleaned : string) :
  has_char Ch.dquote cleaned = false -> repaired_literal cleaned = Ok None.
Proof.
  intros H. unfold repaired_literal, _fix_unescaped_quotes.
  rewrite (fix_outer_without_dquote _ _ H), String.eqb_refl. reflexivity.
Qed.

(** X4.  On a response of white space only, the empty response included,
    [parse_json_safely] returns [None] without consulting a parser, and
    [parse_rag_response] returns the raw text with no sentence. *)
Theorem blank_response_is_not_parsed (raw_response : string) :
  blank raw_response = true ->
  parse_json_safely raw_response = Ok PNone
  /\ parse_rag_response raw_response = Ok (raw_response, []).
Proof.
  intros H.
  assert (E : parse_json_safely raw_response = Ok PNone).
  { unfold parse_json_safely. rewrite (clean_code_fence_blank _ H). reflexivity. }
  split; [exact E|]. unfold parse_rag_response. rewrite E. reflexivity.
Qed.

(** X5.  A response wrapped in a Markdown code fence, with any white
    space around the fence and around the body, is parsed as its body
    alone.  A fence without the [json] tag is recognised when the text
    after it does not start with [json]. *)
Theorem fenced_response_parses_as_its_body
    (opening body ws0 ws1 ws2 ws3 : string) :
  (opening = "```json"%string
   \/ (opening = "```"%string
       /\ Str.startswith (ws1 ++ body ++ ws2) "json" = false)) ->
  blank ws0 = true -> blank ws1 = true -> blank ws2 = true -> blank ws3 = true ->
  Str.startswith (Str.strip body) "```" = false ->
  Str.endswith (Str.strip body) "```" = false ->
  clean_code_fence (ws0 ++ (opening ++ (ws1 ++ body ++ ws2) ++ "```") ++ ws3)
  = Str.strip body
  /\ parse_json_safely (ws0 ++ (opening ++ (ws1 ++ body ++ ws2) ++ "```") ++ ws3)
     = parse_json_safely body.
Proof.
  intros Hopening H0 H1 H2 H3 Hs He.
  assert (E : clean_code_fence
                (ws0 ++ (opening ++ (ws1 ++ body ++ ws2) ++ "```") ++ ws3)
              = Str.strip body).
  { rewrite (clean_fenced opening (ws1 ++ body ++ ws2) Hopening ws0 ws3 H0 H3).
    apply strip_padded; assumption. }
  split; [exact E|].
  unfold parse_json_safely. rewrite E, (clean_code_fence_plain body Hs He).
  reflexivity.
Qed.

(** X3.  The hang of the conversion reaches the callers: when the cleaned
    response holds no double quote, is rejected by [json.loads] and is not
    a dict literal for [ast.literal_eval], and an apostrophe opens a string
    without end, neither [parse_json_safely] nor [parse_rag_response]
    returns.  No handler of the ladder can catch a loop. *)
Theorem unclosed_apostrophe_hangs_the_parser (raw_response p rest : string) :
  clean_code_fence raw_response = (p ++ String Ch.squote rest)%string ->
  has_char Ch.squote p = false ->
  has_char Ch.dquote (p ++ String Ch.squote rest) = false ->
  opens_string p = true ->
  find_string_end (p ++ String Ch.squote rest) (String.length p) Ch.squote = None ->
  json_loads (p ++ String Ch.squote rest) = Failed JSONDecodeError ->
  match ast_literal_eval (p ++ String Ch.squote rest) with
  | Returned v => is_dict v = false
  | Failed e => (is_ValueError e || is_SyntaxError e)%bool = true
  end ->
  parse_json_safely raw_response = Diverge
  /\ parse_rag_response raw_response = Diverge.
Proof.
  intros Hclean Hsq Hdq Hopens Hend Hjson Hliteral.
  assert (Hp : has_char Ch.dquote p = false).
  { rewrite has_char_app in Hdq. now apply orb_false_iff in Hdq as [Hdq _]. }
  assert (Hloop : forall fuel,
             convert_loop fuel (p ++ String Ch.squote rest) convert_init = None).
  { intros fuel.
    apply (unclosed_apostrophe_walk p rest Hopens Hend p EmptyString);
      [reflexivity | reflexivity | reflexivity | assumption | assumption]. }
  assert (Hconv : _convert_python_dict_to_json (p ++ String Ch.squote rest)
                  = Diverge)
    by (unfold _convert_python_dict_to_json; now rewrite Hloop).
  assert (E : parse_json_safely raw_response = Diverge).
  { unfold parse_json_safely. rewrite Hclean.
    assert (Hne : Str.is_empty (p ++ String Ch.squote rest) = false)
      by (destruct p; reflexivity).
    rewrite Hne, Hjson. cbn [call try_except is_JSONDecodeError].
    assert (Hrest :
      (let* repaired := repaired_literal (p ++ String Ch.squote rest) in
       match repaired with
       | Some response_data => Ok response_data
       | None => converted_json (p ++ String Ch.squote rest)
       end) = Diverge).
    { rewrite (repaired_literal_without_dquote _ Hdq).
      cbv beta iota delta [bind]. unfold converted_json. rewrite Hconv.
      reflexivity. }
    destruct (ast_literal_eval (p ++ String Ch.squote rest)) as [v|e].
    - cbn [call bind]. rewrite Hliteral. cbn [try_except is_ValueError orb].
      exact Hrest.
    - cbn [call bind try_except]. rewrite Hliteral. exact Hrest. }
  split; [exact E|]. unfold parse_rag_response. rewrite E. reflexivity.
Qed.

End ParserEdges.

Lemma blank_response_is_not_parsed_witness :
  parse_json_safely (ext := Sample.ext) "   "  = Ok PNone
  /\ parse_rag_response (ext := Sample.ext) "   " = Ok ("   "%string, []).
Proof. apply (blank_response_is_not_parsed "   "). reflexivity. Defined.

Lemma fenced_response_parses_as_its_body_witness :
  clean_code_fence
    (" " ++ ("```json" ++ (" " ++ Sample.both_keys ++ " ") ++ "```") ++ " ")
  = Str.strip Sample.both_keys
  /\ parse_json_safely (ext := Sample.ext)
       (" " ++ ("```json" ++ (" " ++ Sample.both_keys ++ " ") ++ "```") ++ " ")
     = parse_json_safely (ext := Sample.ext) Sample.both_keys.
Proof.
  apply (fenced_response_parses_as_its_body "```json" Sample.both_keys
           " " " " " " " ");
    solve [reflexivity | left; reflexivity].
Defined.

Lemma unclosed_apostrophe_hangs_the_parser_witness :
  parse_json_safely (ext := Sample.ext) "It is 'Paris" = Diverge
  /\ parse_rag_response (ext := Sample.ext) "It is 'Paris" = Diverge.
Proof.
  apply (unclosed_apostrophe_hangs_the_parser "It is 'Paris" "It is " "Paris");
    reflexivity.
Defined.

(* ===================================================================== *)
(** * Rounding against exact bounds *)
(* ===================================================================== *)

Section RoundingBounds.

Import Binary64.
Local Open Scope Q_scope.

(** Rounding does not cross a number of the grid it rounds to. *)
Lemma rnd_le_grid (q g : Q) (j : Z) :
  0 < q -> q <= g -> g * 2 ^ frac_bits q == inject_Z j -> rnd q <= g.
Proof.
  intros Hq Hle Hj.
  destruct (rnd_pos_shape q Hq) as (s & m & Hs & Hm & E & _). subst s.
  pose proof (two_pow_pos (frac_bits q)) as Hp.
  assert (Hmj : (m <= j)%Z).
  { rewrite Hm. apply rne_upper. rewrite <- Hj. nra. }
  rewrite E, Qred_correct. rewrite Zle_Qle in Hmj.
  pose proof (two_pow_cancel (frac_bits q)) as Hc.
  pose proof (two_pow_pos (- frac_bits q)) as Hn.
  assert (Hg : g == inject_Z j * 2 ^ (- frac_bits q)).
  { rewrite <- Hj, <- Qmult_assoc, Hc. ring. }
  rewrite Hg. nra.
Qed.

Lemma rnd_ge_grid (q g : Q) (j : Z) :
  0 < q -> g <= q -> g * 2 ^ frac_bits q == inject_Z j -> g <= rnd q.
Proof.
  intros Hq Hle Hj.
  destruct (rnd_pos_shape q Hq) as (s & m & Hs & Hm & E & _). subst s.
  pose proof (two_pow_pos (frac_bits q)) as Hp.
  assert (Hmj : (j <= m)%Z).
  { rewrite Hm. apply rne_lower. rewrite <- Hj. nra. }
  rewrite E, Qred_correct. rewrite Zle_Qle in Hmj.
  pose proof (two_pow_cancel (frac_bits q)) as Hc.
  pose proof (two_pow_pos (- frac_bits q)) as Hn.
  assert (Hg : g == inject_Z j * 2 ^ (- frac_bits q)).
  { rewrite <- Hj, <- Qmult_assoc, Hc. ring. }
  rewrite Hg. nra.
Qed.

Lemma exponent_lt (q : Q) (e : Z) : 0 < q -> q < 2 ^ e -> (exponent q < e)%Z.
Proof.
  intros Hq H. destruct (exponent_spec q Hq) as [S1 _].
  apply (Qpower_lt_compat_l_inv 2); [|reflexivity].
  eapply Qle_lt_trans; [exact S1 | exact H].
Qed.

Lemma exponent_ge (q : Q) (e : Z) : 0 < q -> 2 ^ e <= q -> (e <= exponent q)%Z.
Proof.
  intros Hq H. destruct (exponent_spec q Hq) as [_ S2].
  assert ((e < exponent q + 1)%Z); [|lia].
  apply (Qpower_lt_compat_l_inv 2); [|reflexivity].
  eapply Qle_lt_trans; [exact H | exact S2].
Qed.

(** An integer of at most 53 bits bounds the rounded value as it bounds
    the exact one. *)
Lemma rnd_le_int (q : Q) (m : Z) :
  0 <= q -> q <= inject_Z m -> (m <= 2 ^ 53)%Z -> rnd q <= inject_Z m.
Proof.
  intros H0 Hle Hm. apply Qle_lteq in H0. destruct H0 as [Hq|Hq].
  2:{ rewrite rnd_zero by (symmetry; exact Hq). lra. }
  destruct (Qlt_le_dec q (2 ^ 53)) as [Hlt|Hge].
  - pose proof (exponent_lt q 53 Hq Hlt) as He.
    assert (Hs : (0 <= frac_bits q)%Z) by (unfold frac_bits; lia).
    apply (rnd_le_grid q (inject_Z m) (m * 2 ^ frac_bits q)%Z Hq Hle).
    rewrite inject_Z_mult, two_pow_inject by exact Hs. reflexivity.
  - assert (Hm' : inject_Z m <= 2 ^ 53).
    { rewrite <- two_pow_inject by lia. rewrite <- Zle_Qle. exact Hm. }
    assert (Eq : q == 2 ^ 53) by lra.
    assert (Em : inject_Z m == 2 ^ 53) by lra.
    rewrite (rnd_comp _ _ Eq), Em.
    assert (E : rnd (2 ^ 53) = 2 ^ 53) by (vm_compute; reflexivity).
    rewrite E. apply Qle_refl.
Qed.

Lemma rnd_ge_int (q : Q) (m : Z) :
  (0 <= m)%Z -> inject_Z m <= q -> q < 2 ^ 53 -> inject_Z m <= rnd q.
Proof.
  intros Hm Hle Hlt.
  assert (Hm' : 0 <= inject_Z m) by (rewrite <- (Zle_Qle 0); exact Hm).
  assert (H0 : 0 <= q) by lra.
  apply Qle_lteq in H0. destruct H0 as [Hq|Hq].
  2:{ rewrite rnd_zero by (symmetry; exact Hq). lra. }
  pose proof (exponent_lt q 53 Hq Hlt) as He.
  assert (Hs : (0 <= frac_bits q)%Z) by (unfold frac_bits; lia).
  apply (rnd_ge_grid q (inject_Z m) (m * 2 ^ frac_bits q)%Z Hq Hle).
  rewrite inject_Z_mult, two_pow_inject by exact Hs. reflexivity.
Qed.

(** The literal [0.7] and the binary64 number just below it. *)
Lemma lit_0_7_value : lit_0_7 == inject_Z 6305039478318694 * 2 ^ (- 53).
Proof. vm_compute. reflexivity. Qed.

(** On counts of at most 49 bits the comparison of the rounded quotient
    with the literal [0.7] decides [h / t < 7 / 10] exactly. *)
Lemma ratio_below_threshold (h t : Z) :
  (0 <= h)%Z -> (0 < t)%Z -> (t <= 2 ^ 49)%Z ->
  flt (rnd (inject_Z h / inject_Z t)) lit_0_7 = (10 * h <? 7 * t)%Z.
Proof.
  intros Hh Ht Hbig.
  assert (HT : 0 < inject_Z t) by (rewrite <- (Zlt_Qlt 0); exact Ht).
  assert (HH : 0 <= inject_Z h) by (rewrite <- (Zle_Qle 0); exact Hh).
  assert (NZ : ~ inject_Z t == 0) by lra.
  set (q := inject_Z h / inject_Z t).
  assert (Eq : q * inject_Z t == inject_Z h) by (unfold q; field; exact NZ).
  assert (Hq0 : 0 <= q) by (unfold q; apply Qle_shift_div_l; lra).
  pose proof lit_0_7_value as HL.
  assert (E53 : 2 ^ 53 * 2 ^ (- 53) == 1) by apply two_pow_cancel.
  assert (P53 : 2 ^ 53 == inject_Z 9007199254740992) by reflexivity.
  assert (Pn : 0 < 2 ^ (- 53)) by apply two_pow_pos.
  destruct (Z.ltb_spec (10 * h) (7 * t)) as [Hlt|Hge].
  - apply flt_spec.
    destruct (Z.eq_dec h 0%Z) as [->|Hh0].
    { assert (Ez : q == 0) by (unfold q; change (inject_Z 0) with 0; field; exact NZ).
      rewrite (rnd_zero _ Ez). vm_compute. reflexivity. }
    assert (Hq : 0 < q).
    { unfold q. apply Qlt_shift_div_l; [exact HT|].
      assert (1 <= inject_Z h) by (rewrite <- (Zle_Qle 1); lia). lra. }
    assert (Hint : inject_Z 10 * inject_Z h + 1 <= inject_Z 7 * inject_Z t).
    { rewrite <- !inject_Z_mult. change 1 with (inject_Z 1).
      rewrite <- inject_Z_plus, <- Zle_Qle. lia. }
    assert (Hbig' : inject_Z 14 * inject_Z t <= 2 ^ 53).
    { rewrite P53, <- inject_Z_mult, <- Zle_Qle. lia. }
    change (inject_Z 10) with 10 in Hint. change (inject_Z 7) with 7 in Hint.
    change (inject_Z 14) with 14 in Hbig'.
    set (g := inject_Z 6305039478318693 * 2 ^ (- 53)).
    assert (Hqg : q <= g).
    { (* q <= 7/10 - 1/(10 t) and 7/10 - g = 14 / (10 * 2^53) *)
      assert (Hg : g * 2 ^ 53 == inject_Z 6305039478318693).
      { unfold g. rewrite <- Qmult_assoc, (Qmult_comm (2 ^ (-53))), E53. ring. }
      assert (Hq' : 10 * (q * inject_Z t) + 1 <= 7 * inject_Z t) by (rewrite Eq; exact Hint).
      apply Qnot_lt_le. intros Hgq.
      assert (P : 0 < 2 ^ 53) by apply two_pow_pos.
      assert (H1 : inject_Z 6305039478318693 < q * 2 ^ 53) by (rewrite <- Hg; nra).
      change (inject_Z 6305039478318693) with 6305039478318693 in H1.
      assert (P' : 2 ^ 53 == 9007199254740992) by reflexivity.
      nra. }
    assert (Hq1 : q < 1).
    { unfold g in Hqg. change (inject_Z 6305039478318693) with 6305039478318693 in Hqg.
      assert (P' : 2 ^ (- 53) == 1 # 9007199254740992) by reflexivity.
      rewrite P' in Hqg. lra. }
    pose proof (exponent_lt q 0 Hq Hq1) as He.
    assert (Hs : (53 <= frac_bits q)%Z) by (unfold frac_bits; lia).
    assert (Hr : rnd q <= g).
    { apply (rnd_le_grid q g (6305039478318693 * 2 ^ (frac_bits q - 53))%Z Hq Hqg).
      rewrite inject_Z_mult, two_pow_inject by lia. unfold g.
      unfold Z.sub. rewrite (two_pow_add (frac_bits q) (- 53)). ring. }
    rewrite HL. unfold g in Hr.
    change (inject_Z 6305039478318693) with 6305039478318693 in Hr.
    change (inject_Z 6305039478318694) with 6305039478318694. nra.
  - apply not_true_is_false. intros Hf. apply flt_spec in Hf.
    assert (Hint : inject_Z 7 * inject_Z t <= inject_Z 10 * inject_Z h).
    { rewrite <- !inject_Z_mult, <- Zle_Qle. lia. }
    change (inject_Z 10) with 10 in Hint. change (inject_Z 7) with 7 in Hint.
    assert (Hq7 : 7 # 10 <= q).
    { apply Qnot_lt_le. intros Hc. nra. }
    assert (Hq : 0 < q) by lra.
    assert (HL7 : lit_0_7 < 7 # 10) by reflexivity.
    destruct (Qlt_le_dec q 1) as [Hq1|Hq1].
    + assert (He : exponent q = (-1)%Z).
      { apply exponent_unique; [exact Hq | | exact Hq1].
        change (2 ^ (-1)) with (1 # 2). lra. }
      assert (Hs : frac_bits q = 53%Z) by (unfold frac_bits; rewrite He; reflexivity).
      assert (Hr : lit_0_7 <= rnd q).
      { apply (rnd_ge_grid q lit_0_7 6305039478318694 Hq); [lra|].
        rewrite Hs, HL, <- Qmult_assoc, (Qmult_comm (2 ^ (-53))), E53. ring. }
      lra.
    + pose proof (rnd_ge_1 q Hq1). lra.
Qed.

End RoundingBounds.

(* ===================================================================== *)
(** * The cascade of the error classifier *)
(* ===================================================================== *)

Section ClassifierCascade.

Context {ext : External}.

(** X6.  For counts of at most 49 bits the two coverage rules, which
    compare binary64 quotients with the literal [0.7], decide exactly as
    the comparisons of the rationals do: the pool rule fires when
    [(context_hits + backup_hits) / total_evidence < 7/10], otherwise the
    context rule fires when [context_hits / total_evidence < 7/10]. *)
Theorem coverage_rules_decide_exactly (hc : hit_counts) :
  0 <= context_hits hc -> 0 <= backup_hits hc ->
  0 < total_evidence hc -> total_evidence hc <= 2 ^ 49 ->
  retrieval_errors (Some hc) = Ok (coverage_verdict hc).
Proof.
  intros Hc Hb Ht Hbig. unfold retrieval_errors, has_evidence, coverage_verdict.
  destruct (Z.ltb_spec 0 (total_evidence hc)) as [_|]; [|lia].
  rewrite !truediv_ok by lia. cbv beta iota delta [bind].
  rewrite !ratio_below_threshold by lia.
  destruct (_ <? _); [reflexivity|]. destruct (_ <? _); reflexivity.
Qed.

(** X7.  Whatever the language model answers, the [error_type] that
    [analyze_error_type] returns is one of the nine labels of the
    taxonomy. *)
Theorem error_type_is_one_of_nine (query : string) (is_correct : bool)
    (response ground_truth : string) (analysis : evidence_analysis)
    (raw_response : string) (r : error_analysis) :
  analyze_error_type query is_correct response ground_truth analysis raw_response
  = Ok r ->
  In (error_type r) error_labels.
Proof.
  unfold analyze_error_type. intros H.
  destruct is_correct.
  { injection H as <-. simpl. tauto. }
  destruct (_ && _)%bool.
  { injection H as <-. simpl. tauto. }
  destruct (parse_json_safely raw_response) as [v| |]; simpl in H; try discriminate.
  destruct v as [ | | | | | | | |items];
    try (injection H as <-; simpl; tauto).
  destruct (_ || _)%bool.
  { injection H as <-. simpl. tauto. }
  destruct (retrieval_errors (ea_hit_counts analysis)) as [[v|]| |] eqn:E;
    cbv beta iota delta [bind] in H; try discriminate.
  { injection H as <-. apply retrieval_errors_fires in E.
    destruct E as (hc & r1 & r2 & _ & _ & _ & _ & [[_ ->]|[_ [_ ->]]]);
      simpl; tauto. }
  assert (G : forall r', generation_errors query response ground_truth raw_response
                           (ea_hit_counts analysis) = Ok r' ->
                         In (error_type r') error_labels).
  { intros r' Hr'. apply generation_errors_labels in Hr'.
    destruct Hr' as [->|[->| ->]]; simpl; tauto. }
  destruct (has_evidence (ea_hit_counts analysis)) as [hc|].
  - destruct (context_hits hc =? total_evidence hc).
    + injection H as <-. simpl. tauto.
    + apply G, H.
  - apply G, H.
Qed.

(** X8.  A wrong answer that is not a case of missing content, whose raw
    response parses to a mapping with both keys, and whose evidence-bearing
    ids are all in the context, is labelled [not_extracted] with the hit
    counts as details; the language model is not asked. *)
Theorem full_context_coverage_is_not_extracted (query response ground_truth : string)
    (analysis : evidence_analysis) (raw_response : string)
    (items : list (pyvalue * pyvalue)) (hc : hit_counts) :
  (Str.contains "insufficient information" (Str.lower ground_truth)
   && negb (Str.contains "insufficient information" (Str.lower response)))%bool
  = false ->
  parse_json_safely raw_response = Ok (PDict items) ->
  dict_has items "final_answer" = true ->
  dict_has items "supporting_sentences" = true ->
  ea_hit_counts analysis = Some hc ->
  0 < total_evidence hc -> context_hits hc = total_evidence hc ->
  0 <= backup_hits hc ->
  analyze_error_type query false response ground_truth analysis raw_response
  = Ok {| error_type := "not_extracted"; details := Some hc |}.
Proof.
  intros Hmc Hparse Hfa Hss Hhc Ht Hc Hb. unfold analyze_error_type.
  rewrite Hmc, Hparse. cbv beta iota delta [bind]. rewrite Hfa, Hss.
  cbn [negb orb]. rewrite Hhc.
  assert (Hev : has_evidence (Some hc) = Some hc).
  { unfold has_evidence. destruct (Z.ltb_spec 0 (total_evidence hc)); [reflexivity|lia]. }
  assert (Hfire : retrieval_errors (Some hc) = Ok None).
  { unfold retrieval_errors. rewrite Hev, !truediv_ok by lia.
    cbv beta iota delta [bind].
    assert (HT : (0 < inject_Z (total_evidence hc))%Q)
      by (rewrite <- (Zlt_Qlt 0); exact Ht).
    assert (HB : (0 <= inject_Z (backup_hits hc))%Q)
      by (rewrite <- (Zle_Qle 0); exact Hb).
    assert (HL : (Binary64.lit_0_7 < 1)%Q) by reflexivity.
    assert (F : forall h, (inject_Z (total_evidence hc) <= inject_Z h)%Q ->
                Binary64.flt (Binary64.rnd (inject_Z h / inject_Z (total_evidence hc)))
                  Binary64.lit_0_7 = false).
    { intros h Hh. apply not_true_is_false. intros F. apply flt_spec in F.
      assert (H1 : (1 <= inject_Z h / inject_Z (total_evidence hc))%Q)
        by (apply Qle_shift_div_l; [exact HT | lra]).
      pose proof (rnd_ge_1 _ H1). lra. }
    rewrite (F (context_hits hc + backup_hits hc)), (F (context_hits hc)).
    - reflexivity.
    - rewrite Hc. apply Qle_refl.
    - rewrite inject_Z_plus, Hc. lra. }
  rewrite Hfire. cbv beta iota delta [bind]. rewrite Hev.
  rewrite (proj2 (Z.eqb_eq _ _) Hc). reflexivity.
Qed.

(** X9.  What a label tells about the inputs: [correct] is returned
    exactly for an answer judged correct; a retrieval label or
    [not_extracted] is returned only when the analysis has hit counts with
    [total_evidence > 0], which the record then carries as details;
    [wrong_format] only when the parse of the raw response is not a
    mapping. *)
Theorem labels_have_their_cause (query : string) (is_correct : bool)
    (response ground_truth : string) (analysis : evidence_analysis)
    (raw_response : string) (r : error_analysis) :
  analyze_error_type query is_correct response ground_truth analysis raw_response
  = Ok r ->
  (error_type r = "correct"%string <-> is_correct = true)
  /\ (In (error_type r)
        ["missed_top_ranked_documents"; "not_in_context"; "not_extracted"]%string ->
      exists hc : hit_counts,
        ea_hit_counts analysis = Some hc /\ 0 < total_evidence hc
        /\ details r = Some hc)
  /\ (error_type r = "wrong_format"%string ->
      exists v, parse_json_safely raw_response = Ok v /\ is_dict v = false).
Proof.
  unfold analyze_error_type. intros H.
  assert (Hev : forall hc, has_evidence (ea_hit_counts analysis) = Some hc ->
                  ea_hit_counts analysis = Some hc /\ 0 < total_evidence hc).
  { unfold has_evidence. intros hc. destruct (ea_hit_counts analysis) as [hc'|];
      [|discriminate].
    destruct (Z.ltb_spec 0 (total_evidence hc')); [|discriminate].
    intros [= ->]. auto. }
  destruct is_correct.
  { injection H as <-. simpl. repeat split; auto; try discriminate.
    intros [?|[?|[?|[]]]]; discriminate. }
  destruct (_ && _)%bool.
  { injection H as <-. simpl. repeat split; try discriminate.
    intros [?|[?|[?|[]]]]; discriminate. }
  destruct (parse_json_safely raw_response) as [v| |]; simpl in H; try discriminate.
  destruct v as [ | | | | | | | |items];
    try (injection H as <-; simpl; repeat split; try discriminate;
         [intros [?|[?|[?|[]]]]; discriminate
         | intros _; eexists; split; reflexivity]).
  destruct (_ || _)%bool.
  { injection H as <-. simpl. repeat split; try discriminate.
    intros [?|[?|[?|[]]]]; discriminate. }
  destruct (retrieval_errors (ea_hit_counts analysis)) as [[v|]| |] eqn:E;
    cbv beta iota delta [bind] in H; try discriminate.
  { injection H as <-.
    assert (D : exists hc, ea_hit_counts analysis = Some hc
                /\ 0 < total_evidence hc /\ details v = Some hc
                /\ (error_type v = "missed_top_ranked_documents"%string
                    \/ error_type v = "not_in_context"%string)).
    { revert E. unfold retrieval_errors.
      destruct (has_evidence (ea_hit_counts analysis)) as [hc|] eqn:Eh;
        [|discriminate].
      destruct (Hev hc eq_refl) as [Hc Ht].
      destruct (Binary64.truediv _ _) as [r1| |]; cbv beta iota delta [bind];
        try discriminate.
      destruct (Binary64.truediv _ _) as [r2| |]; cbv beta iota delta [bind];
        try discriminate.
      destruct (Binary64.flt r1 _).
      - intros [= <-]. exists hc. simpl. auto.
      - destruct (Binary64.flt r2 _); [|discriminate].
        intros [= <-]. exists hc. simpl. auto. }
    destruct D as (hc & Hc & Ht & Hd & L).
    repeat split; try (destruct L as [L|L]; rewrite L; discriminate).
    intros _. exists hc. auto. }
  assert (G : forall r', generation_errors query response ground_truth raw_response
                           (ea_hit_counts analysis) = Ok r' ->
              (error_type r' = "correct"%string <-> false = true)
              /\ (In (error_type r')
                    ["missed_top_ranked_documents"; "not_in_context";
                     "not_extracted"]%string ->
                  exists hc : hit_counts,
                    ea_hit_counts analysis = Some hc /\ 0 < total_evidence hc
                    /\ details r' = Some hc)
              /\ (error_type r' = "wrong_format"%string ->
                  exists v, Ok (PDict items) = Ok v /\ is_dict v = false)).
  { intros r' Hr'. apply generation_errors_labels in Hr'.
    destruct Hr' as [L|[L|L]]; rewrite L; repeat split; try discriminate;
      intros [?|[?|[?|[]]]]; discriminate. }
  destruct (has_evidence (ea_hit_counts analysis)) as [hc|] eqn:Eh.
  - destruct (Hev hc eq_refl) as [Hc Ht].
    destruct (context_hits hc =? total_evidence hc).
    + injection H as <-. simpl. repeat split; try discriminate.
      intros _. exists hc. auto.
    + apply G, H.
  - apply G, H.
Qed.

End ClassifierCascade.

Lemma coverage_rules_decide_exactly_witness :
  retrieval_errors (Some {| context_hits := 1; backup_hits := 1; total_evidence := 2 |})
  = Ok (coverage_verdict {| context_hits := 1; backup_hits := 1; total_evidence := 2 |}).
Proof.
  apply (coverage_rules_decide_exactly
           {| context_hits := 1; backup_hits := 1; total_evidence := 2 |});
    simpl; lia.
Defined.

Lemma error_type_is_one_of_nine_witness :
  In (error_type (label "unknown")) error_labels.
Proof.
  apply (error_type_is_one_of_nine (ext := Sample.ext) "q" false "Paris" "Rome"
           Sample.seven_of_ten Sample.both_keys (label "unknown")).
  vm_compute. reflexivity.
Defined.

Lemma full_context_coverage_is_not_extracted_witness :
  analyze_error_type (ext := Sample.ext) "q" false "Rome" "Paris"
    (analysis_with {| context_hits := 2; backup_hits := 0; total_evidence := 2 |})
    Sample.both_keys
  = Ok {| error_type := "not_extracted";
          details := Some {| context_hits := 2; backup_hits := 0;
                             total_evidence := 2 |} |}.
Proof.
  apply (full_context_coverage_is_not_extracted (ext := Sample.ext) "q" "Rome"
           "Paris" _ Sample.both_keys
           [(PStr "supporting_sentences", PList [PStr "Paris is the capital."]);
            (PStr "final_answer", PStr "Paris")]);
    solve [reflexivity | simpl; lia].
Defined.

(** One instance for each clause: an answer judged correct; an answer
    judged wrong with one of two relevant ids retrieved, which is a miss of
    the top-ranked documents; and a wrong answer whose raw response is a
    text without structure. *)
Lemma labels_have_their_cause_witness :
  (error_type (label "correct") = "correct"%string <-> true = true)
  /\ (exists hc : hit_counts,
        ea_hit_counts
          (analysis_with {| context_hits := 1; backup_hits := 0;
                            total_evidence := 2 |}) = Some hc
        /\ 0 < total_evidence hc
        /\ details {| error_type := "missed_top_ranked_documents";
                      details := Some {| context_hits := 1; backup_hits := 0;
                                         total_evidence := 2 |} |} = Some hc)
  /\ (exists v, parse_json_safely (ext := Sample.ext) Sample.plain_text = Ok v
                /\ is_dict v = false).
Proof.
  split; [|split].
  - apply (labels_have_their_cause (ext := Sample.ext) "q" true "Paris" "Paris"
             Sample.seven_of_ten Sample.both_keys (label "correct")).
    reflexivity.
  - apply (labels_have_their_cause (ext := Sample.ext) "q" false "Rome" "Paris"
             (analysis_with {| context_hits := 1; backup_hits := 0;
                               total_evidence := 2 |})
             Sample.both_keys
             {| error_type := "missed_top_ranked_documents";
                details := Some {| context_hits := 1; backup_hits := 0;
                                   total_evidence := 2 |} |});
      [vm_compute; reflexivity | left; reflexivity].
  - apply (labels_have_their_cause (ext := Sample.ext) "q" false "Rome" "Paris"
             Sample.seven_of_ten Sample.plain_text (label "wrong_format"));
      reflexivity.
Defined.

(* ===================================================================== *)
(** * Further properties of the evidence analyzer *)
(* ===================================================================== *)


Section AnalyzerEdges.

Context {ext : External}.

Lemma list_to_set_take_drop (n : nat) (l : list Z) :
  (list_to_set (take n l) : gset Z) ∪ list_to_set (drop n l) = list_to_set l.
Proof.
  rewrite <- list_to_set_app_L, take_drop. reflexivity.
Qed.

(** X10.  Where the ranked pool is cut into context and backup does not
    change what is measured on the whole pool: for any two cuts of the
    same ranking the analyses have the same [ap], the same [mrr_score],
    the same pool ids, the same evidence map, the same [total_evidence]
    and the same number of pool hits; a longer context has at least as
    many context hits. *)
Theorem scores_do_not_depend_on_the_cut (evidence_list : list evidence)
    (pool : list (Z * Binary64.float)) (vectorstore : option vectorstore)
    (k1 k2 : nat) :
  exists a1 a2 : evidence_analysis,
    check_evidence_retrieval evidence_list (take k1 pool) (drop k1 pool)
      vectorstore = Ok a1
    /\ check_evidence_retrieval evidence_list (take k2 pool) (drop k2 pool)
         vectorstore = Ok a2
    /\ ea_ap a1 = ea_ap a2
    /\ ea_mrr_score a1 = ea_mrr_score a2
    /\ ea_retrieved_pool_doc_ids a1 = ea_retrieved_pool_doc_ids a2
    /\ ea_evidence_to_doc_ids_map a1 = ea_evidence_to_doc_ids_map a2
    /\ match ea_hit_counts a1, ea_hit_counts a2 with
       | Some h1, Some h2 =>
           total_evidence h1 = total_evidence h2
           /\ context_hits h1 + backup_hits h1 = context_hits h2 + backup_hits h2
           /\ ((k1 <= k2)%nat -> context_hits h1 <= context_hits h2)
       | None, None => True
       | _, _ => False
       end.
Proof.
  destruct evidence_list as [|ev evs].
  { do 2 eexists. repeat split. }
  destruct vectorstore as [vs|].
  2:{ do 2 eexists. repeat split. }
  do 2 eexists. rewrite !check_evidence_retrieval_run.
  split; [reflexivity|]. split; [reflexivity|].
  cbn [ea_ap ea_mrr_score ea_retrieved_pool_doc_ids ea_evidence_to_doc_ids_map
       ea_hit_counts context_hits backup_hits total_evidence].
  rewrite !take_drop, <- !firstn_map, <- !skipn_map, !list_to_set_take_drop.
  repeat split; try lia.
  intros Hk. apply inj_le, subseteq_size.
  assert (H : (list_to_set (take k1 (map fst pool)) : gset Z)
              ⊆ list_to_set (take k2 (map fst pool))).
  { intros d Hd. apply elem_of_list_to_set in Hd. apply elem_of_list_to_set.
    apply list_elem_of_lookup in Hd as [i Hi].
    apply list_elem_of_lookup. exists i.
    apply lookup_take_Some in Hi as [Hi Hlt].
    apply lookup_take_Some. split; [exact Hi | lia]. }
  set_solver.
Qed.

(** X11.  A question is retrieval-eligible ([total_evidence > 0]) exactly
    when a vector store is given and the lookup of some evidence item
    returns some document id: an empty evidence list, a missing store,
    empty facts, lookups that fail or find nothing give a question that
    the aggregation skips. *)
Theorem eligible_iff_evidence_is_found (evidence_list : list evidence)
    (retrieved_docs backup_docs : list (Z * Binary64.float))
    (store : option vectorstore) (a : evidence_analysis) :
  check_evidence_retrieval evidence_list retrieved_docs backup_docs store
  = Ok a ->
  is_eligible a = true
  <-> exists (vs : vectorstore) (d : Z),
        store = Some vs /\ satisfies_evidence vs evidence_list d.
Proof.
  intros H. destruct evidence_list as [|ev evs].
  { injection H as <-. split; [discriminate|].
    intros (vs & d & _ & ev & Hev & _). inversion Hev. }
  destruct store as [vs|].
  2:{ injection H as <-. split; [discriminate|].
      intros (vs & d & Hvs & _). discriminate. }
  rewrite check_evidence_retrieval_run in H. injection H as <-.
  unfold is_eligible. cbn [ea_hit_counts total_evidence].
  rewrite size_zero_empty, negb_true_iff, bool_decide_eq_false.
  split.
  - intros NE. apply set_choose_L in NE as [d Hd].
    exists vs, d. split; [reflexivity|].
    apply elem_of_all_true_ids in Hd. exact Hd.
  - intros (vs' & d & [= <-] & Hd) E.
    apply elem_of_all_true_ids in Hd. rewrite E in Hd. set_solver.
Qed.

End AnalyzerEdges.

Section ScoreBounds.

Context {ext : External}.
Import Binary64.
Local Open Scope Q_scope.

(** The precisions at the relevant ranks are at most one: the number of
    relevant documents met is at most the rank. *)
Lemma precision_terms_le_1 (T : gset Z) (docs : list (Z * float))
    (found start : Z) :
  (0 <= found)%Z -> (found + 1 <= start)%Z ->
  Forall (fun x => 0 <= x /\ x <= 1)
    (precision_terms_from found (relevant_ranks_from start T docs)).
Proof.
  revert found start. induction docs as [|[d score] docs IH]; intros found start Hf Hs.
  - constructor.
  - rewrite relevant_ranks_from_cons. destruct (bool_decide (d ∈ T)).
    + rewrite precision_terms_from_cons. constructor; [|apply IH; lia].
      assert (H1 : 0 <= inject_Z (found + 1)) by (rewrite <- (Zle_Qle 0); lia).
      assert (H2 : inject_Z (found + 1) <= inject_Z start)
        by (rewrite <- Zle_Qle; lia).
      assert (H3 : 0 < inject_Z start) by (rewrite <- (Zlt_Qlt 0); lia).
      assert (Q0 : 0 <= inject_Z (found + 1) / inject_Z start)
        by (apply Qle_shift_div_l; lra).
      assert (Q1 : inject_Z (found + 1) / inject_Z start <= 1)
        by (apply Qle_shift_div_r; lra).
      split; [apply rnd_nonneg | apply rnd_le_1]; assumption.
    + apply IH; lia.
Qed.

(** A float sum of [n] numbers of the unit interval is at most [n], as
    long as [n] has at most 53 bits. *)
Lemma float_sum_from_le (l : list float) (acc : float) (m : Z) :
  0 <= acc -> acc <= inject_Z m ->
  Forall (fun x => 0 <= x /\ x <= 1) l ->
  (m + Z.of_nat (length l) <= 2 ^ 53)%Z ->
  0 <= float_sum_from acc l
  /\ float_sum_from acc l <= inject_Z (m + Z.of_nat (length l)).
Proof.
  revert acc m. induction l as [|x l IH]; intros acc m H0 Hm Hl Hbig.
  - simpl. rewrite Z.add_0_r. split; assumption.
  - inversion Hl as [|? ? [Hx0 Hx1] Hl']; subst.
    cbn [length] in *. unfold float_sum_from. cbn [foldl].
    fold (float_sum_from (fadd acc x) l).
    replace (m + Z.of_nat (S (length l)))%Z
      with ((m + 1) + Z.of_nat (length l))%Z by lia.
    apply IH; [ | | exact Hl' | lia].
    + apply rnd_nonneg. lra.
    + unfold fadd. apply rnd_le_int; [lra | | lia].
      rewrite inject_Z_plus. change (inject_Z 1) with 1. lra.
Qed.

Lemma relevant_ranks_from_length (T : gset Z) (docs : list (Z * float))
    (start : Z) :
  length (relevant_ranks_from start T docs)
  = length (List.filter (fun d => bool_decide (d ∈ T)) (map fst docs)).
Proof.
  revert start. induction docs as [|[d score] docs IH]; intros start.
  - reflexivity.
  - rewrite relevant_ranks_from_cons. cbn [map fst List.filter].
    destruct (bool_decide (d ∈ T)); cbn [length]; rewrite IH; reflexivity.
Qed.

Lemma relevant_ranks_from_bound (T : gset Z) (docs : list (Z * float))
    (start : Z) :
  (length (relevant_ranks_from start T docs) <= length docs)%nat
  /\ (NoDup (map fst docs) ->
      (length (relevant_ranks_from start T docs) <= size T)%nat).
Proof.
  rewrite relevant_ranks_from_length. split.
  - rewrite <- (length_map fst docs). apply List.filter_length_le.
  - intros ND.
    set (l := List.filter (fun d => bool_decide (d ∈ T)) (map fst docs)).
    assert (NDl : NoDup l).
    { apply NoDup_ListNoDup. apply List.NoDup_filter.
      apply NoDup_ListNoDup. exact ND. }
    rewrite <- (size_list_to_set (C := gset Z) l NDl).
    apply subseteq_size. intros d Hd. apply elem_of_list_to_set in Hd.
    apply list_elem_of_In in Hd. apply List.filter_In in Hd as [_ Hd].
    apply bool_decide_eq_true in Hd. exact Hd.
Qed.

(** A number of at least [2^e] rounds to one. *)
Lemma rnd_ge_pow (q : Q) (e : Z) : (0 <= e)%Z -> 2 ^ e <= q -> 2 ^ e <= rnd q.
Proof.
  intros He H. pose proof (two_pow_pos e) as Hp.
  assert (H0 : 0 < q) by lra.
  destruct (rnd_pos_shape q H0) as (s & m & Hs & Hm & E & _ & _ & _).
  destruct (exponent_spec q H0) as [S1 S2].
  pose proof (exponent_ge q e H0 H) as Hee.
  assert (Hs' : s = (52 - exponent q)%Z) by (rewrite Hs; unfold frac_bits; lia).
  assert (Hm52 : (2 ^ 52 <= m)%Z).
  { rewrite Hm. apply rne_lower. rewrite two_pow_inject by lia.
    replace 52%Z with (exponent q + s)%Z at 1 by lia.
    rewrite two_pow_add. pose proof (two_pow_pos s). nra. }
  rewrite E, Qred_correct.
  rewrite Zle_Qle in Hm52. rewrite two_pow_inject in Hm52 by lia.
  assert (E52 : 2 ^ 52 * 2 ^ (- s) == 2 ^ exponent q).
  { rewrite <- two_pow_add. replace (52 + - s)%Z with (exponent q) by lia. reflexivity. }
  pose proof (two_pow_le _ _ Hee).
  pose proof (two_pow_pos (- s)). nra.
Qed.

Lemma of_int_ge (n m : Z) :
  (0 <= m)%Z -> (m <= n)%Z -> (m <= 2 ^ 53)%Z -> inject_Z m <= of_int n.
Proof.
  intros H0 Hmn Hm. unfold of_int.
  assert (Hq : inject_Z m <= inject_Z n) by (rewrite <- Zle_Qle; exact Hmn).
  destruct (Qlt_le_dec (inject_Z n) (2 ^ 53)) as [Hlt|Hge].
  - apply rnd_ge_int; assumption.
  - apply Qle_trans with (2 ^ 53).
    + rewrite <- two_pow_inject by lia. rewrite <- Zle_Qle. exact Hm.
    + apply rnd_ge_pow; [lia | exact Hge].
Qed.

Lemma reciprocal_rank_unit (T : gset Z) (docs : list (Z * float)) :
  0 <= reciprocal_rank T docs /\ reciprocal_rank T docs <= 1.
Proof.
  split; [apply reciprocal_rank_representable|].
  unfold reciprocal_rank.
  pose proof (relevant_ranks_from_pos 1 T docs) as Hpos. fold relevant_ranks in Hpos.
  destruct (relevant_ranks T docs) as [|r ranks]; [unfold zero; lra|].
  assert (Hr : (0 < r)%Z) by (apply Hpos; [lia | left]).
  assert (H1 : 1 <= of_int r).
  { change 1 with (inject_Z 1). apply of_int_ge; lia. }
  apply rnd_le_1.
  - apply Qle_shift_div_l; unfold one; lra.
  - apply Qle_shift_div_r; unfold one; lra.
Qed.

Lemma average_precision_unit (T : gset Z) (docs : list (Z * float)) :
  NoDup (map fst docs) -> (Z.of_nat (length docs) <= 2 ^ 53)%Z ->
  0 <= average_precision T docs /\ average_precision T docs <= 1.
Proof.
  intros ND Hlen. split; [apply average_precision_representable|].
  unfold average_precision. destruct (bool_decide (T = ∅)) eqn:E;
    [unfold zero; lra|].
  destruct (relevant_ranks_from_bound T docs 1) as [B1 B2]. specialize (B2 ND).
  fold relevant_ranks in B1, B2.
  set (ranks := relevant_ranks T docs) in *.
  destruct (float_sum_from_le (precision_terms ranks) zero 0) as [S0 S1].
  - unfold zero. lra.
  - unfold zero. change (inject_Z 0) with 0. lra.
  - apply precision_terms_le_1; lia.
  - unfold precision_terms, precision_terms_from. rewrite length_imap. lia.
  - fold float_sum in S0, S1.
    assert (Hn : Z.of_nat (length (precision_terms ranks))
                 = Z.of_nat (length ranks)).
    { unfold precision_terms, precision_terms_from. now rewrite length_imap. }
    rewrite Z.add_0_l, Hn in S1.
    assert (Hpos : 0 < of_int (Z.of_nat (size T))).
    { apply of_int_pos. apply Z.ltb_lt. rewrite size_zero_empty, E. reflexivity. }
    assert (Hge : inject_Z (Z.of_nat (length ranks)) <= of_int (Z.of_nat (size T))).
    { apply of_int_ge; lia. }
    apply rnd_le_1.
    + apply Qle_shift_div_l; lra.
    + apply Qle_shift_div_r; lra.
Qed.

(** X12.  The reciprocal rank of an analysis lies in [[0, 1]].  So does
    the average precision when no document id occurs twice in the ranking
    (and the ranking has at most [2^53] entries); without that condition
    it need not ([repeated_id_inflates_average_precision]). *)
Theorem scores_are_in_the_unit_interval (evidence_list : list evidence)
    (retrieved_docs backup_docs : list (Z * float))
    (store : option vectorstore) (a : evidence_analysis)
    (mrr ap : float) :
  check_evidence_retrieval evidence_list retrieved_docs backup_docs store
  = Ok a ->
  ea_mrr_score a = Some mrr -> ea_ap a = Some ap ->
  (0 <= mrr /\ mrr <= 1)
  /\ (NoDup (map fst (retrieved_docs ++ backup_docs)) ->
      (Z.of_nat (length (retrieved_docs ++ backup_docs)) <= 2 ^ 53)%Z ->
      0 <= ap /\ ap <= 1).
Proof.
  intros H Hm Ha. destruct evidence_list as [|ev evs].
  { injection H as <-. discriminate. }
  destruct store as [vs|].
  2:{ injection H as <-. discriminate. }
  rewrite check_evidence_retrieval_run in H. injection H as <-.
  cbn [ea_mrr_score ea_ap] in Hm, Ha. injection Hm as <-. injection Ha as <-.
  split; [apply reciprocal_rank_unit|].
  intros ND Hlen. apply average_precision_unit; assumption.
Qed.

End ScoreBounds.

Lemma eligible_iff_evidence_is_found_witness :
  is_eligible Sample.analysis = true
  <-> exists (vs : vectorstore) (d : Z),
        Some Sample.store = Some vs
        /\ satisfies_evidence (ext := Sample.ext) vs Sample.evidence_alpha d.
Proof.
  apply (eligible_iff_evidence_is_found (ext := Sample.ext) Sample.evidence_alpha
           Sample.context_docs Sample.backup_docs (Some Sample.store)
           Sample.analysis).
  vm_compute. reflexivity.
Defined.

Lemma scores_are_in_the_unit_interval_witness :
  ((0 <= 1)%Q /\ (1 <= 1)%Q)
  /\ (NoDup (map fst (Sample.context_docs ++ Sample.backup_docs)) ->
      Z.of_nat (length (Sample.context_docs ++ Sample.backup_docs)) <= 2 ^ 53 ->
      (0 <= 3752999689475413 # 4503599627370496)%Q
      /\ (3752999689475413 # 4503599627370496 <= 1)%Q).
Proof.
  apply (scores_are_in_the_unit_interval (ext := Sample.ext) Sample.evidence_alpha
           Sample.context_docs Sample.backup_docs (Some Sample.store)
           Sample.analysis 1%Q (3752999689475413 # 4503599627370496)%Q);
    vm_compute; reflexivity.
Defined.

(** A document id listed twice counts twice in the precision sum: the
    average precision of the ranking [1, 1] against the single relevant
    id [1] is [2.0]. *)
Example repeated_id_inflates_average_precision :
  average_precision {[ 1%Z ]} [(1%Z, Binary64.one); (1%Z, Binary64.one)] = 2%Q.
Proof. vm_compute. reflexivity. Qed.

(* ===================================================================== *)
(** * Outcomes of the retrieval stage and of the drivers *)
(* ===================================================================== *)


Lemma index_elem_of {A : Type} (l : list A) (i : Z) (a : A) :
  Seq.index l i = Ok a -> a ∈ l.
Proof.
  unfold Seq.index. destruct (_ <? 0); [discriminate|].
  destruct (l !! _) as [x|] eqn:E; [|discriminate].
  intros [= <-]. eapply list_elem_of_lookup_2. exact E.
Qed.

Lemma index_settles {A : Type} (l : list A) (i : Z) : Seq.index l i <> Diverge.
Proof.
  unfold Seq.index. destruct (_ <? 0); [discriminate|].
  destruct (l !! _); discriminate.
Qed.

Lemma rerank_collect_selects (docs : list Document) (items : list rerank_item) :
  match rerank_collect docs items with
  | Ok (out, scores) =>
      (forall d, d ∈ out -> d ∈ docs) /\ length scores = length out
  | Raise _ => True
  | Diverge => False
  end.
Proof.
  induction items as [|item items IH]; cbn [rerank_collect].
  - split; [intros d Hd; inversion Hd | reflexivity].
  - destruct (ri_index item) as [i|]; cbv beta iota delta [bind]; [|exact I].
    pose proof (index_elem_of docs i) as Hin.
    pose proof (index_settles docs i) as Hs.
    destruct (Seq.index docs i) as [doc| |]; [|exact I|congruence].
    destruct (rerank_collect docs items) as [[out scores]| |]; [|exact I|exact IH].
    destruct IH as [IH1 IH2]. cbn [fst snd]. split.
    + intros d Hd. apply elem_of_cons in Hd as [->|Hd]; [apply Hin; reflexivity|].
      apply IH1, Hd.
    + cbn [length]. now rewrite IH2.
Qed.

(** X13.  [rerank_documents] never invents a document: every document it
    returns is one of the candidates, and it returns either the candidates
    and scores it was given or as many scores as documents.  The only
    exception it raises is [RerankFailedError], and only when
    [raise_on_error] is set, a reranker is given and there are
    candidates. *)
Theorem rerank_documents_contract (query : string) (docs : list Document)
    (scores : list Binary64.float) (rerank_function : option reranker)
    (raise_on_error : bool) :
  match rerank_documents query docs scores rerank_function raise_on_error with
  | Ok (docs', scores') =>
      (forall d, d ∈ docs' -> d ∈ docs)
      /\ ((docs', scores') = (docs, scores) \/ length scores' = length docs')
  | Raise e =>
      e = RerankFailedError /\ raise_on_error = true
      /\ rerank_function <> None /\ docs <> []
  | Diverge => False
  end.
Proof.
  unfold rerank_documents.
  destruct rerank_function as [rerank|]; [|split; [tauto | left; reflexivity]].
  destruct docs as [|doc docs]; [split; [tauto | left; reflexivity]|].
  set (all := doc :: docs).
  assert (Hfall :
    match (if raise_on_error then Raise RerankFailedError else Ok (all, scores))
          : result (list Document * list Binary64.float) with
    | Ok (docs', scores') =>
        (forall d, d ∈ docs' -> d ∈ all)
        /\ ((docs', scores') = (all, scores) \/ length scores' = length docs')
    | Raise e =>
        e = RerankFailedError /\ raise_on_error = true
        /\ Some rerank <> None /\ all <> []
    | Diverge => False
    end).
  { destruct raise_on_error.
    - repeat split; discriminate.
    - split; [tauto | left; reflexivity]. }
  destruct (rerank query (map page_content all)) as [items|e];
    cbn [call]; cbv beta iota delta [bind]; cbn [try_except]; [|exact Hfall].
  pose proof (rerank_collect_selects all items) as H.
  destruct (rerank_collect all items) as [[out sc]| |]; cbn [try_except].
  - destruct H as [H1 H2]. split; [exact H1 | right; exact H2].
  - exact Hfall.
  - exact H.
Qed.





Section RerankOutcomes.

Context {ext : External}.


End RerankOutcomes.

Section RetrievalOutcomes.

Context {ext : External}.

Lemma check_evidence_retrieval_returns (evidence_list : list evidence)
    (retrieved_docs backup_docs : list (Z * Binary64.float))
    (store : option vectorstore) :
  exists a, check_evidence_retrieval evidence_list retrieved_docs backup_docs store
            = Ok a.
Proof.
  destruct evidence_list as [|ev evs]; [eexists; reflexivity|].
  destruct store as [vs|]; [|eexists; reflexivity].
  eexists. apply check_evidence_retrieval_run.
Qed.

Lemma analyze_error_type_empty_raw (query : string) (is_correct : bool)
    (response ground_truth : string) (analysis : evidence_analysis) :
  exists r, analyze_error_type query is_correct response ground_truth analysis
              EmptyString = Ok r.
Proof.
  unfold analyze_error_type. destruct is_correct; [eexists; reflexivity|].
  destruct (_ && _)%bool; [eexists; reflexivity|].
  eexists. reflexivity.
Qed.

(** X15.  A question whose [rag_workflow] call raised or gave the empty
    response is processed into a record with empty raw response and empty
    answer; the concurrent driver leaves the array as it was, while the
    sequential loop writes the record into the empty slot. *)
Theorem unanswered_question_is_left_for_retry (rag : OptimizedRAG)
    (qa_dataset : list qa_item) (results : results_array) (index : nat)
    (item : qa_item) :
  qa_dataset !! index = Some item ->
  match rag_workflow rag (qa_query item) with
  | Ok (_, _, _, response) => response = EmptyString
  | Raise _ => True
  | Diverge => False
  end ->
  concurrent_step rag qa_dataset results index = Ok results
  /\ exists r : question_result,
       _process_rag_question rag item = Ok r
       /\ qr_raw_response r = EmptyString /\ qr_response r = EmptyString
       /\ (results !! index = Some None ->
           sequential_loop rag index [item] results
           = (<[index := Some r]> results, Ok tt)).
Proof.
  intros Hitem Hflow.
  assert (Hd : exists retrieved backup,
             query_rag_with_details rag (qa_query item)
             = Ok (empty_details retrieved backup)).
  { unfold query_rag_with_details.
    destruct (rag_workflow rag (qa_query item)) as [[[[v ctx] bk] response]|e|];
      [|do 2 eexists; reflexivity | contradiction].
    subst response. do 2 eexists. reflexivity. }
  destruct Hd as (retrieved & backup & Hd).
  assert (Hp : exists r, _process_rag_question rag item = Ok r
                 /\ qr_raw_response r = EmptyString
                 /\ qr_response r = EmptyString).
  { unfold _process_rag_question. rewrite Hd. cbv beta iota delta [bind].
    cbn [rd_answer rd_raw_response rd_retrieved_docs rd_backup_docs
         rd_supporting_sentences empty_details].
    destruct (check_evidence_retrieval_returns (qa_evidence_list item)
                (simple retrieved) (simple backup) (Some (rag_vectorstore rag)))
      as [a ->].
    cbv beta iota delta [bind].
    destruct (analyze_error_type_empty_raw (qa_query item)
                (evaluate_response (qa_query item) EmptyString (qa_answer item))
                EmptyString (qa_answer item) a) as [r ->].
    cbv beta iota delta [bind]. eexists. repeat split. }
  destruct Hp as (r & Hp & Hraw & Hresp).
  split.
  - unfold concurrent_step. rewrite Hitem, Hp, Hraw. reflexivity.
  - exists r. repeat split; try assumption.
    intros Hslot. cbn [sequential_loop]. unfold slot_filled. rewrite Hslot, Hp.
    cbv beta iota delta [bind]. unfold store. apply lookup_lt_Some in Hslot.
    rewrite bool_decide_eq_true_2 by exact Hslot. reflexivity.
Qed.

End RetrievalOutcomes.


(** The pool that reranker gives: the third chunk with its score, then
    the first with the default score; the second chunk is gone. *)
Example reranked_pool :
  retrieval_pool (ext := Sample.ext) Sample.rag_reranked "q"
  = Ok ([ {| chunk_id := 3; page_content := "three" |};
          {| chunk_id := 1; page_content := "alpha one" |} ],
        [Binary64.one; Binary64.zero]).
Proof. reflexivity. Qed.

(** The scores are computed outside any [try]: stored embeddings of
    another length than the query embedding make [rag_workflow] raise the
    [ValueError] of the cosine similarity. *)
Example unequal_dimensions_raise :
  rag_workflow (ext := Sample.ext) Sample.rag_other_dimension "q"
  = Raise ValueError.
Proof. reflexivity. Qed.

Section CompletionOrder.

Context {ext : External}.

Lemma concurrent_step_outcome (rag : OptimizedRAG) (qa_dataset : list qa_item)
    (results : results_array) (index : nat) :
  concurrent_step rag qa_dataset results index
  = let* o := future_outcome rag qa_dataset index in Ok (settle results index o).
Proof.
  unfold concurrent_step, future_outcome.
  destruct (qa_dataset !! index) as [item|]; [|reflexivity].
  destruct (_process_rag_question rag item) as [r| |]; try reflexivity.
  destruct (_ || _)%bool; [reflexivity|].
  cbv beta iota delta [bind]. unfold store, settle.
  destruct (decide (index < length results)%nat) as [Hlt|Hge].
  - rewrite bool_decide_eq_true_2 by exact Hlt. reflexivity.
  - rewrite bool_decide_eq_false_2 by exact Hge.
    f_equal. symmetry. apply list_insert_ge. lia.
Qed.

Lemma future_outcome_settles (rag : OptimizedRAG) (qa_dataset : list qa_item)
    (index : nat) (e : exn) :
  future_outcome rag qa_dataset index <> Raise e.
Proof.
  unfold future_outcome. destruct (qa_dataset !! index); [|discriminate].
  destruct (_process_rag_question rag _); try discriminate.
  destruct (_ || _)%bool; discriminate.
Qed.

Lemma settle_commute (results : results_array) (i j : nat)
    (a b : option question_result) :
  (i = j -> a = b) ->
  settle (settle results i a) j b = settle (settle results j b) i a.
Proof.
  intros H. destruct a as [ra|], b as [rb|]; cbn [settle]; try reflexivity.
  destruct (decide (i = j)) as [->|Hne].
  - rewrite (H eq_refl). reflexivity.
  - apply list_insert_insert_ne. congruence.
Qed.

Lemma concurrent_step_commute (rag : OptimizedRAG) (qa_dataset : list qa_item)
    (results : results_array) (i j : nat) :
  (let* mid := concurrent_step rag qa_dataset results i in
   concurrent_step rag qa_dataset mid j)
  = (let* mid := concurrent_step rag qa_dataset results j in
     concurrent_step rag qa_dataset mid i).
Proof.
  rewrite (concurrent_step_outcome rag qa_dataset results i),
          (concurrent_step_outcome rag qa_dataset results j).
  destruct (future_outcome rag qa_dataset i) as [a|e|] eqn:Ei;
  destruct (future_outcome rag qa_dataset j) as [b|e'|] eqn:Ej;
    cbv beta iota delta [bind];
    rewrite ?concurrent_step_outcome, ?Ei, ?Ej; cbv beta iota delta [bind];
    try reflexivity.
  - f_equal. apply settle_commute. intros ->. congruence.
  - exfalso. eapply future_outcome_settles. exact Ei.
  - exfalso. eapply future_outcome_settles. exact Ei.
  - exfalso. eapply future_outcome_settles. exact Ej.
Qed.

(** X16.  The array the concurrent driver ends with, and its whole
    result, do not depend on the order in which the futures complete. *)
Theorem completion_order_does_not_matter (rag : OptimizedRAG)
    (qa_dataset : list qa_item) (order1 order2 : list nat)
    (results_placeholder : option results_array) :
  order1 ≡ₚ order2 ->
  (forall results,
     concurrent_loop rag qa_dataset order1 results
     = concurrent_loop rag qa_dataset order2 results)
  /\ _test_rag_concurrent rag qa_dataset order1 results_placeholder
     = _test_rag_concurrent rag qa_dataset order2 results_placeholder.
Proof.
  intros Hp.
  assert (H : forall results,
             concurrent_loop rag qa_dataset order1 results
             = concurrent_loop rag qa_dataset order2 results).
  { induction Hp as [|i o1 o2 _ IH|i j o|o1 o2 o3 _ IH1 _ IH2]; intros results.
    - reflexivity.
    - cbn [concurrent_loop].
      destruct (concurrent_step rag qa_dataset results i); cbv beta iota delta [bind];
        [apply IH | reflexivity | reflexivity].
    - cbn [concurrent_loop].
      pose proof (concurrent_step_commute rag qa_dataset results i j) as C.
      destruct (concurrent_step rag qa_dataset results i) as [m1|e1|];
      destruct (concurrent_step rag qa_dataset results j) as [m2|e2|];
        cbv beta iota delta [bind] in *;
        try (destruct (concurrent_step rag qa_dataset m1 j));
        try (destruct (concurrent_step rag qa_dataset m2 i));
        cbv beta iota delta [bind] in *; congruence.
    - rewrite IH1. apply IH2. }
  split; [exact H|].
  unfold _test_rag_concurrent. rewrite H. reflexivity.
Qed.

End CompletionOrder.

Lemma unanswered_question_is_left_for_retry_witness :
  concurrent_step (ext := Sample.ext) Sample.rag_rerank_down [Sample.question]
    [None] 0 = Ok [None]
  /\ exists r : question_result,
       _process_rag_question (ext := Sample.ext) Sample.rag_rerank_down
         Sample.question = Ok r
       /\ qr_raw_response r = EmptyString /\ qr_response r = EmptyString
       /\ (([None] : results_array) !! 0%nat = Some None ->
           sequential_loop (ext := Sample.ext) Sample.rag_rerank_down 0
             [Sample.question] [None]
           = (<[0%nat := Some r]> ([None] : results_array), Ok tt)).
Proof.
  apply (unanswered_question_is_left_for_retry (ext := Sample.ext)
           Sample.rag_rerank_down [Sample.question] [None] 0 Sample.question).
  - reflexivity.
  - vm_compute. reflexivity.
Defined.

Lemma completion_order_does_not_matter_witness :
  (forall results,
     concurrent_loop (ext := Sample.ext) Sample.rag
       [Sample.question; Sample.question] [0; 1]%nat results
     = concurrent_loop (ext := Sample.ext) Sample.rag
         [Sample.question; Sample.question] [1; 0]%nat results)
  /\ _test_rag_concurrent (ext := Sample.ext) Sample.rag
       [Sample.question; Sample.question] [0; 1]%nat None
     = _test_rag_concurrent (ext := Sample.ext) Sample.rag
         [Sample.question; Sample.question] [1; 0]%nat None.
Proof.
  apply (completion_order_does_not_matter (ext := Sample.ext) Sample.rag
           [Sample.question; Sample.question] [0; 1]%nat [1; 0]%nat None).
  apply perm_swap.
Defined.

(* ===================================================================== *)
(** * Checkpoints of the sequential driver *)
(* ===================================================================== *)

Section Resume.

Context {ext : External}.

(** The loop from question [i] on, started from a checkpoint. *)
Lemma sequential_loop_resumes (rag : OptimizedRAG) (items : list qa_item) :
  forall (i : nat) (start checkpoint final : results_array),
    sequential_loop rag i items start = (final, Ok tt) ->
    length checkpoint = length start ->
    (forall j : nat,
       checkpoint !! j = start !! j
       \/ ((i <= j)%nat /\ start !! j = Some None
           /\ checkpoint !! j = final !! j)) ->
    sequential_loop rag i items checkpoint = (final, Ok tt).
Proof.
  unfold results_array.
  induction items as [|item items IH]; intros i start cp final Hrun Hlen Hrel.
  - cbn [sequential_loop] in *. injection Hrun as <-. f_equal.
    apply list_eq. intros j. destruct (Hrel j) as [H|(_ & _ & H)]; exact H.
  - cbn [sequential_loop] in Hrun |- *.
    destruct (slot_filled start i) eqn:Hs.
    + assert (Hc : slot_filled cp i = true).
      { unfold slot_filled, results_array in *.
        destruct (Hrel i) as [->|(_ & E & _)];
          [exact Hs | rewrite E in Hs; discriminate]. }
      rewrite Hc. apply (IH (S i) start cp final Hrun Hlen).
      intros j. destruct (Hrel j) as [H|(Hij & E & H)]; [left; exact H|].
      right. repeat split; try assumption.
      destruct (decide (i = j)) as [->|]; [|lia].
      unfold slot_filled, results_array in Hs. rewrite E in Hs. discriminate.
    + destruct (_process_rag_question rag item) as [r| |] eqn:Hp;
        cbv beta iota delta [bind] in Hrun;
        [|destruct (slot_filled cp i); discriminate
         |destruct (slot_filled cp i); discriminate].
      unfold store, results_array in Hrun.
      destruct (decide (i < length start)%nat) as [Hlt|Hge].
      2:{ rewrite bool_decide_eq_false_2 in Hrun by exact Hge. discriminate. }
      rewrite bool_decide_eq_true_2 in Hrun by exact Hlt.
      assert (Hfin : final !! i = Some (Some r)).
      { pose proof (sequential_loop_keeps_filled rag items (S i)
                      (<[i := Some r]> start) i r) as K.
        rewrite Hrun in K. apply K. apply list_lookup_insert_eq. exact Hlt. }
      assert (Hnot : start !! i = Some None).
      { unfold slot_filled, results_array in Hs.
        destruct (start !! i) as [[x|]|] eqn:E;
          [discriminate | reflexivity |].
        apply lookup_ge_None in E. lia. }
      destruct (slot_filled cp i) eqn:Hc.
      * apply (IH (S i) (<[i := Some r]> start) cp final Hrun).
        { rewrite length_insert. exact Hlen. }
        intros j. destruct (decide (i = j)) as [<-|Hne].
        -- left. rewrite list_lookup_insert_eq by exact Hlt.
           destruct (Hrel i) as [H|(_ & _ & H)].
           ++ unfold slot_filled, results_array in Hc.
              rewrite H, Hnot in Hc. discriminate.
           ++ rewrite H. exact Hfin.
        -- rewrite list_lookup_insert_ne by exact Hne.
           destruct (Hrel j) as [H|(Hij & E & H)]; [left; exact H|].
           right. repeat split; try assumption. lia.
      * cbv beta iota delta [bind]. unfold store, results_array.
        rewrite bool_decide_eq_true_2 by (rewrite Hlen; exact Hlt).
        apply (IH (S i) (<[i := Some r]> start) (<[i := Some r]> cp) final Hrun).
        { rewrite !length_insert. exact Hlen. }
        intros j. destruct (decide (i = j)) as [<-|Hne].
        -- left. rewrite !list_lookup_insert_eq by lia. reflexivity.
        -- rewrite !list_lookup_insert_ne by exact Hne.
           destruct (Hrel j) as [H|(Hij & E & H)]; [left; exact H|].
           right. repeat split; try assumption. lia.
Qed.

(** X17.  Checkpoint resume in sequential mode: when the run from the
    array [start] returns, the run from any checkpoint of it (some of the
    empty slots already hold the records of that run) returns the same
    array and the same result. *)
Theorem resumed_run_equals_single_pass (rag : OptimizedRAG)
    (qa_dataset : list qa_item) (start checkpoint : results_array)
    (rr : rag_result) :
  snd (_test_rag_sequential rag qa_dataset (Some start)) = Ok rr ->
  checkpoint_of start (rr_results rr) checkpoint ->
  _test_rag_sequential rag qa_dataset (Some checkpoint)
  = (rr_results rr, Ok rr).
Proof.
  unfold _test_rag_sequential, checkpoint_of. cbn [initial_results].
  intros Hrun [Hlen Hrel].
  destruct (sequential_loop rag 0 qa_dataset start) as [final [[]|e|]] eqn:E;
    cbn [snd] in Hrun; try discriminate.
  assert (Hres : rr_results rr = final).
  { unfold summary in Hrun.
    destruct (accuracy_of _ _); cbv beta iota delta [bind] in Hrun;
      try discriminate.
    injection Hrun as <-. reflexivity. }
  rewrite Hres in *.
  rewrite (sequential_loop_resumes rag qa_dataset 0 start checkpoint final E Hlen).
  - rewrite Hrun. reflexivity.
  - intros j. destruct (Hrel j) as [H|[H1 H2]]; [left; exact H|].
    right. repeat split; [lia | exact H1 | exact H2].
Qed.

End Resume.

Lemma resumed_run_equals_single_pass_witness :
  let rr := Sample.returned
              {| rr_accuracy := Binary64.zero; rr_correct := 0; rr_total := 0;
                 rr_results := [] |}
              (snd (_test_rag_sequential (ext := Sample.ext) Sample.rag
                      [Sample.question; Sample.question] (Some [None; None]))) in
  _test_rag_sequential (ext := Sample.ext) Sample.rag
    [Sample.question; Sample.question] (Some [None; rr_results rr !!! 1%nat])
  = (rr_results rr, Ok rr).
Proof.
  apply (resumed_run_equals_single_pass (ext := Sample.ext) Sample.rag
           [Sample.question; Sample.question] [None; None]).
  - vm_compute. reflexivity.
  - split; [reflexivity|].
    intros [|[|j]]; [left; reflexivity | right; split; reflexivity
                    | left; reflexivity].
Defined.

(* ===================================================================== *)
(** * The results array across runs *)
(* ===================================================================== *)


Section DriverShapes.

Context {ext : External}.

Lemma store_length (results results' : results_array) (i : nat)
    (r : question_result) :
  store results i r = Ok results' -> length results' = length results.
Proof.
  unfold store, results_array. destruct (bool_decide _); [|discriminate].
  intros [= <-]. apply length_insert.
Qed.

Lemma sequential_loop_length (rag : OptimizedRAG) (items : list qa_item)
    (i : nat) (results : results_array) :
  length (fst (sequential_loop rag i items results)) = length results.
Proof.
  revert i results. induction items as [|item items IH]; intros i results.
  - reflexivity.
  - cbn [sequential_loop]. destruct (slot_filled results i); [apply IH|].
    destruct (_process_rag_question rag item) as [r| |];
      cbv beta iota delta [bind]; try reflexivity.
    destruct (store results i r) as [results'| |] eqn:Hs; try reflexivity.
    rewrite IH. eapply store_length. exact Hs.
Qed.

Lemma settle_length (results : results_array) (index : nat)
    (o : option question_result) :
  length (settle results index o) = length results.
Proof. destruct o; [apply length_insert | reflexivity]. Qed.

Lemma concurrent_loop_length (rag : OptimizedRAG) (qa_dataset : list qa_item)
    (completion_order : list nat) (results results' : results_array) :
  concurrent_loop rag qa_dataset completion_order results = Ok results' ->
  length results' = length results.
Proof.
  revert results. induction completion_order as [|index order IH];
    intros results H; cbn [concurrent_loop] in H.
  - injection H as <-. reflexivity.
  - rewrite concurrent_step_outcome in H.
    destruct (future_outcome rag qa_dataset index) as [o| |];
      cbv beta iota delta [bind] in H; try discriminate.
    rewrite (IH _ H). apply settle_length.
Qed.

(** What a returned batch evaluation is made of. *)
Lemma batch_shape (rag : OptimizedRAG) (qa_dataset : list qa_item)
    (concurrent_workers : Z) (completion_order : list nat)
    (cached : option results_array) (b : batch_result) :
  batch_evaluate_configuration rag qa_dataset concurrent_workers
    completion_order cached = Ok b ->
  let rr := br_rag_result b in
  summary qa_dataset (rr_results rr) = Ok rr
  /\ br_rag_accuracy b = rr_accuracy rr
  /\ br_correct_answers b = rr_correct rr
  /\ br_total_questions b = Z.of_nat (length qa_dataset)
  /\ length (rr_results rr) = length (initial_results qa_dataset cached)
  /\ ((concurrent_workers <=? 1) = true ->
      rr_results rr
      = fst (sequential_loop rag 0 qa_dataset (initial_results qa_dataset cached)))
  /\ ((concurrent_workers <=? 1) = false ->
      rr_results rr = initial_results qa_dataset cached
      \/ concurrent_loop rag qa_dataset completion_order
           (initial_results qa_dataset cached) = Ok (rr_results rr)).
Proof.
  unfold batch_evaluate_configuration. intros H.
  destruct (if concurrent_workers <=? 1 then _ else _) as [rr| |] eqn:Hrr;
    cbv beta iota delta [bind] in H; try discriminate.
  destruct (aggregate_metrics (rr_results rr)) as [[[x y] z]| |];
    cbv beta iota delta [bind] in H; try discriminate.
  injection H as <-. cbn [br_rag_result br_rag_accuracy br_correct_answers
                          br_total_questions].
  assert (Hsum : forall results, summary qa_dataset results = Ok rr ->
                   rr_results rr = results).
  { intros results Hs. unfold summary in Hs.
    destruct (accuracy_of _ _); cbv beta iota delta [bind] in Hs;
      try discriminate.
    injection Hs as <-. reflexivity. }
  destruct (concurrent_workers <=? 1).
  - unfold _test_rag_sequential in Hrr.
    pose proof (sequential_loop_length rag qa_dataset 0
                  (initial_results qa_dataset cached)) as Hlen.
    destruct (sequential_loop rag 0 qa_dataset
                (initial_results qa_dataset cached)) as [results' [[]| |]];
      cbn [snd fst] in *; try discriminate.
    pose proof (Hsum _ Hrr) as E. rewrite E.
    repeat split; try assumption; try reflexivity; try discriminate.
  - unfold _test_rag_concurrent in Hrr.
    destruct (pending qa_dataset (initial_results qa_dataset cached)).
    + pose proof (Hsum _ Hrr) as E. rewrite E.
      repeat split; try assumption; try reflexivity; try discriminate.
      intros _. left. reflexivity.
    + destruct (concurrent_loop rag qa_dataset completion_order
                  (initial_results qa_dataset cached)) as [results'| |] eqn:Hc;
        cbv beta iota delta [bind] in Hrr; try discriminate.
      pose proof (Hsum _ Hrr) as E. rewrite E.
      repeat split; try assumption; try reflexivity; try discriminate.
      * eapply concurrent_loop_length. exact Hc.
      * intros _. right. reflexivity.
Qed.

(** X18.  A batch evaluation that resumes from a cached array never
    changes a cached record, in either mode: the array it returns has the
    length of the cached one and holds every cached record at its index.
    In concurrent mode the futures are those of the questions whose slot
    is not filled. *)
Theorem cached_results_are_kept (rag : OptimizedRAG) (qa_dataset : list qa_item)
    (concurrent_workers : Z) (completion_order : list nat)
    (cached : results_array) (b : batch_result) :
  (forall i, i ∈ completion_order -> slot_filled cached i = false) ->
  batch_evaluate_configuration rag qa_dataset concurrent_workers
    completion_order (Some cached) = Ok b ->
  length (rr_results (br_rag_result b)) = length cached
  /\ forall (j : nat) (r : question_result),
       cached !! j = Some (Some r) ->
       rr_results (br_rag_result b) !! j = Some (Some r).
Proof.
  intros Hpending H.
  destruct (batch_shape _ _ _ _ _ _ H) as (_ & _ & _ & _ & Hlen & Hseq & Hcon).
  cbn [initial_results] in *. split; [exact Hlen|].
  intros j r Hj. destruct (concurrent_workers <=? 1).
  - rewrite (Hseq eq_refl). apply sequential_loop_keeps_filled. exact Hj.
  - destruct (Hcon eq_refl) as [->|Hc]; [exact Hj|].
    rewrite (concurrent_loop_keeps_others _ _ _ _ _ j Hc); [exact Hj|].
    intros Hin. apply Hpending in Hin.
    rewrite (slot_filled_lookup _ _ _ Hj) in Hin. discriminate.
Qed.

Lemma sequential_loop_overruns (rag : OptimizedRAG) (items : list qa_item) :
  forall (i : nat) (results : results_array),
    (i <= length results < i + length items)%nat ->
    (forall item, item ∈ items ->
                  exists r, _process_rag_question rag item = Ok r) ->
    snd (sequential_loop rag i items results) = Raise IndexError.
Proof.
  induction items as [|item items IH]; intros i results Hlen Hok.
  - cbn [length] in Hlen. lia.
  - cbn [sequential_loop length] in *.
    assert (Hrest : forall x, x ∈ items ->
                      exists r, _process_rag_question rag x = Ok r).
    { intros x Hx. apply Hok. right. exact Hx. }
    destruct (slot_filled results i) eqn:Hs.
    + apply IH; [|exact Hrest].
      unfold slot_filled, results_array in *.
      destruct (results !! i) as [slot|] eqn:E; [|discriminate].
      apply lookup_lt_Some in E. lia.
    + destruct (Hok item) as [r ->]; [left|].
      cbv beta iota delta [bind]. unfold store.
      destruct (decide (i < length results)%nat) as [Hlt|Hge].
      * rewrite bool_decide_eq_true_2 by exact Hlt.
        apply IH; [|exact Hrest]. unfold results_array.
        rewrite length_insert. lia.
      * rewrite bool_decide_eq_false_2 by exact Hge. reflexivity.
Qed.

Lemma summary_returns (qa_dataset : list qa_item) (results : results_array) :
  exists rr, summary qa_dataset results = Ok rr /\ rr_results rr = results.
Proof.
  unfold summary, accuracy_of. destruct qa_dataset as [|item items].
  - eexists. split; reflexivity.
  - rewrite truediv_ok by (cbn [length]; lia).
    eexists. split; reflexivity.
Qed.

Lemma concurrent_loop_returns (rag : OptimizedRAG) (qa_dataset : list qa_item)
    (completion_order : list nat) :
  (forall item, item ∈ qa_dataset ->
                exists r, _process_rag_question rag item = Ok r) ->
  forall results,
    exists results',
      concurrent_loop rag qa_dataset completion_order results = Ok results'
      /\ length results' = length results
      /\ forall j, (length results <= j)%nat -> results' !! j = None.
Proof.
  intros Hok. induction completion_order as [|index order IH]; intros results.
  - exists results. repeat split. intros j Hj. apply lookup_ge_None. exact Hj.
  - cbn [concurrent_loop]. rewrite concurrent_step_outcome.
    assert (Ho : exists o, future_outcome rag qa_dataset index = Ok o).
    { unfold future_outcome. destruct (qa_dataset !! index) as [item|] eqn:E;
        [|eexists; reflexivity].
      destruct (Hok item) as [r ->]; [eapply list_elem_of_lookup_2; exact E|].
      destruct (_ || _)%bool; eexists; reflexivity. }
    destruct Ho as [o ->]. cbv beta iota delta [bind].
    destruct (IH (settle results index o)) as (results' & -> & Hlen & Hout).
    exists results'. rewrite settle_length in Hlen, Hout. auto.
Qed.

(** X19.  A cached array shorter than the dataset: when every question
    can be processed, the sequential driver raises [IndexError] at the
    first question beyond the array, while the concurrent driver returns,
    with an array as short as the cached one in which those questions
    have no slot. *)
Theorem short_placeholder_stops_the_sequential_run (rag : OptimizedRAG)
    (qa_dataset : list qa_item) (results : results_array) :
  (length results < length qa_dataset)%nat ->
  (forall item, item ∈ qa_dataset ->
                exists r, _process_rag_question rag item = Ok r) ->
  snd (_test_rag_sequential rag qa_dataset (Some results)) = Raise IndexError
  /\ forall completion_order : list nat,
       exists rr : rag_result,
         _test_rag_concurrent rag qa_dataset completion_order (Some results)
         = Ok rr
         /\ length (rr_results rr) = length results
         /\ rr_total rr = Z.of_nat (length qa_dataset).
Proof.
  intros Hshort Hok. split.
  - unfold _test_rag_sequential. cbn [initial_results].
    pose proof (sequential_loop_overruns rag qa_dataset 0 results
                  ltac:(lia) Hok) as H.
    destruct (sequential_loop rag 0 qa_dataset results) as [results' [[]|e|]];
      cbn [snd] in *; congruence.
  - intros order. unfold _test_rag_concurrent. cbn [initial_results].
    assert (Hs : forall results0, length results0 = length results ->
              exists rr, summary qa_dataset results0 = Ok rr
                /\ length (rr_results rr) = length results
                /\ rr_total rr = Z.of_nat (length qa_dataset)).
    { intros results0 Hl. destruct (summary_returns qa_dataset results0)
        as (rr & Hrr & E).
      exists rr. rewrite E. repeat split; try assumption.
      unfold summary in Hrr. destruct (accuracy_of _ _);
        cbv beta iota delta [bind] in Hrr; try discriminate.
      injection Hrr as <-. reflexivity. }
    destruct (pending qa_dataset results); [apply Hs; reflexivity|].
    destruct (concurrent_loop_returns rag qa_dataset order Hok results)
      as (results' & -> & Hlen & _).
    cbv beta iota delta [bind]. apply Hs, Hlen.
Qed.

End DriverShapes.

Lemma cached_results_are_kept_witness :
  let cached : results_array := [Some (Sample.result_with Sample.analysis); None] in
  let b :=
    Sample.returned empty_batch
      (batch_evaluate_configuration (ext := Sample.ext) Sample.rag
         [Sample.question; Sample.question] 2 [1%nat] (Some cached)) in
  length (rr_results (br_rag_result b)) = length cached
  /\ forall (j : nat) (r : question_result),
       cached !! j = Some (Some r) ->
       rr_results (br_rag_result b) !! j = Some (Some r).
Proof.
  apply (cached_results_are_kept (ext := Sample.ext) Sample.rag
           [Sample.question; Sample.question] 2 [1%nat]).
  - intros i Hi. apply list_elem_of_singleton in Hi as ->. reflexivity.
  - vm_compute. reflexivity.
Defined.

Lemma short_placeholder_stops_the_sequential_run_witness :
  snd (_test_rag_sequential (ext := Sample.ext) Sample.rag [Sample.question]
         (Some [])) = Raise IndexError
  /\ forall completion_order : list nat,
       exists rr : rag_result,
         _test_rag_concurrent (ext := Sample.ext) Sample.rag [Sample.question]
           completion_order (Some []) = Ok rr
         /\ length (rr_results rr) = length ([] : results_array)
         /\ rr_total rr = Z.of_nat (length [Sample.question]).
Proof.
  apply (short_placeholder_stops_the_sequential_run (ext := Sample.ext)
           Sample.rag [Sample.question] []).
  - simpl. lia.
  - intros item Hi. apply list_elem_of_singleton in Hi as ->.
    eexists. vm_compute. reflexivity.
Defined.

(* ===================================================================== *)
(** * The ranges of the reported metrics *)
(* ===================================================================== *)


Section ReportedMetrics.

Context {ext : External}.
Import Binary64.

Lemma from_analyzer_counts (a : evidence_analysis) :
  from_analyzer a -> 0 <= hits_of a <= evidence_of a.
Proof.
  intros (evs & retrieved & backup & vs & H). unfold hits_of, evidence_of.
  destruct evs as [|ev evs]; [injection H as <-; simpl; lia|].
  destruct vs as [vs|]; [|injection H as <-; simpl; lia].
  rewrite check_evidence_retrieval_run in H. injection H as <-.
  cbn [ea_hit_counts context_hits total_evidence].
  pose proof (set_hit_counts_bounds
                (list_to_set (map fst retrieved)) (list_to_set (map fst backup))
                (all_true_ids vs (ev :: evs))) as B.
  cbv zeta in B. lia.
Qed.

Lemma from_analyzer_mrr (a : evidence_analysis) :
  from_analyzer a ->
  (0 <= score_of (ea_mrr_score a) /\ score_of (ea_mrr_score a) <= 1)%Q.
Proof.
  intros (evs & retrieved & backup & vs & H). unfold score_of.
  destruct evs as [|ev evs]; [injection H as <-; simpl; unfold zero; lra|].
  destruct vs as [vs|]; [|injection H as <-; simpl; unfold zero; lra].
  rewrite check_evidence_retrieval_run in H. injection H as <-.
  cbn [ea_mrr_score]. apply reciprocal_rank_unit.
Qed.

Lemma sum_counts_le (l : list evidence_analysis) :
  Forall (fun a => 0 <= hits_of a <= evidence_of a) l ->
  0 <= sum_counts (map hits_of l) <= sum_counts (map evidence_of l).
Proof.
  induction 1 as [|a l Ha _ IH]; cbn [map sum_counts foldr]; [lia|].
  unfold sum_counts in IH. lia.
Qed.

Lemma eligible_from_analyzer (results : results_array) :
  Forall from_analyzer (analysed results) ->
  Forall from_analyzer (eligible results).
Proof.
  intros H. unfold eligible. apply Forall_forall. intros a Ha.
  apply list_elem_of_In, List.filter_In in Ha as [Ha _].
  rewrite Forall_forall in H. apply H, list_elem_of_In, Ha.
Qed.

Lemma analysed_length (results : results_array) :
  (length (analysed results) <= length results)%nat.
Proof.
  induction results as [|[r|] results IH].
  - reflexivity.
  - rewrite analysed_cons_some. cbn [length]. lia.
  - rewrite analysed_cons_none. cbn [length]. lia.
Qed.

Lemma eligible_length (results : results_array) :
  (length (eligible results) <= length results)%nat.
Proof.
  unfold eligible. pose proof (analysed_length results).
  pose proof (List.filter_length_le is_eligible (analysed results)). lia.
Qed.

Lemma document_recall_unit (results : results_array) :
  Forall from_analyzer (analysed results) ->
  (0 <= document_recall results /\ document_recall results <= 1)%Q.
Proof.
  intros H. unfold document_recall.
  assert (B : 0 <= sum_counts (map hits_of (eligible results))
              <= sum_counts (map evidence_of (eligible results))).
  { apply sum_counts_le. eapply Forall_impl; [apply eligible_from_analyzer, H|].
    intros a Ha. apply from_analyzer_counts, Ha. }
  set (h := sum_counts (map hits_of (eligible results))) in *.
  set (t := sum_counts (map evidence_of (eligible results))) in *.
  destruct (Z.ltb_spec 0 t) as [Ht|Ht]; [|unfold zero; lra].
  destruct (truediv_unit_interval h t) as (r & Hr & R0 & R1); try lia.
  rewrite truediv_ok in Hr by lia. injection Hr as <-. split; assumption.
Qed.

Lemma mean_reciprocal_rank_unit (results : results_array) :
  Forall from_analyzer (analysed results) ->
  Z.of_nat (length results) <= 2 ^ 53 ->
  (0 <= eligible_mean ea_mrr_score results
   /\ eligible_mean ea_mrr_score results <= 1)%Q.
Proof.
  intros H Hlen. unfold eligible_mean.
  pose proof (eligible_length results) as Hel.
  set (l := eligible results) in *.
  destruct (Z.ltb_spec 0 (Z.of_nat (length l))) as [Hn|Hn]; [|unfold zero; lra].
  assert (Hall : Forall (fun x => (0 <= x /\ x <= 1)%Q)
                   (map (fun a => score_of (ea_mrr_score a)) l)).
  { apply Forall_forall. intros x Hx.
    apply list_elem_of_In, List.in_map_iff in Hx as (a & <- & Ha).
    apply from_analyzer_mrr.
    pose proof (eligible_from_analyzer results H) as He.
    rewrite Forall_forall in He. apply He, list_elem_of_In, Ha. }
  destruct (float_sum_from_le _ zero 0 ltac:(unfold zero; lra)
              ltac:(unfold zero; change (inject_Z 0) with 0%Q; lra) Hall)
    as [S0 S1].
  { rewrite length_map. lia. }
  fold (float_sum (map (fun a => score_of (ea_mrr_score a)) l)) in S0, S1.
  rewrite length_map, Z.add_0_l in S1.
  assert (Hpos : (0 < of_int (Z.of_nat (length l)))%Q) by (apply of_int_pos; lia).
  assert (Hge : (inject_Z (Z.of_nat (length l)) <= of_int (Z.of_nat (length l)))%Q)
    by (apply of_int_ge; lia).
  split.
  - apply rnd_nonneg. apply Qle_shift_div_l; lra.
  - apply rnd_le_1.
    + apply Qle_shift_div_l; lra.
    + apply Qle_shift_div_r; lra.
Qed.

Lemma count_correct_bounds (results : results_array) :
  0 <= count_correct results <= Z.of_nat (length results).
Proof.
  unfold count_correct.
  pose proof (List.filter_length_le
                (fun slot : option question_result =>
                   match slot with Some r => qr_correct r | None => false end)
                results). lia.
Qed.

Lemma accuracy_is_a_percentage (qa_dataset : list qa_item) (correct : Z)
    (accuracy : float) :
  0 <= correct <= Z.of_nat (length qa_dataset) ->
  accuracy_of correct qa_dataset = Ok accuracy ->
  (0 <= accuracy /\ accuracy <= 100)%Q.
Proof.
  intros Hc. unfold accuracy_of. destruct qa_dataset as [|item items].
  { intros [= <-]. unfold zero. lra. }
  set (n := Z.of_nat (length (item :: items))) in *.
  assert (Hn : 0 < n) by (unfold n; cbn [length]; lia).
  destruct (truediv_unit_interval correct n) as (r & Hr & R0 & R1); try lia.
  rewrite Hr. cbv beta iota delta [bind]. intros [= <-].
  assert (E100 : of_int 100 = 100%Q) by (vm_compute; reflexivity).
  unfold fmul. rewrite E100. split.
  - apply rnd_nonneg. nra.
  - change 100%Q with (inject_Z 100). apply rnd_le_int.
    + change (inject_Z 100) with 100%Q. nra.
    + change (inject_Z 100) with 100%Q. nra.
    + lia.
Qed.

(** X20.  A batch evaluation started without a cache, over at most
    [2^53] questions, reports an accuracy between 0 and 100, a recall and
    an MRR between 0 and 1, and counts of correct and of eligible
    questions between 0 and the number of questions. *)
Theorem reported_metrics_are_in_range (rag : OptimizedRAG)
    (qa_dataset : list qa_item) (concurrent_workers : Z)
    (completion_order : list nat) (b : batch_result) :
  batch_evaluate_configuration rag qa_dataset concurrent_workers
    completion_order None = Ok b ->
  Z.of_nat (length qa_dataset) <= 2 ^ 53 ->
  (0 <= br_rag_accuracy b /\ br_rag_accuracy b <= 100)%Q
  /\ (0 <= br_rag_recall b /\ br_rag_recall b <= 1)%Q
  /\ (0 <= br_rag_mrr b /\ br_rag_mrr b <= 1)%Q
  /\ 0 <= br_correct_answers b <= br_total_questions b
  /\ 0 <= br_retrieval_eligible_questions b <= br_total_questions b.
Proof.
  intros H Hbig.
  destruct (batch_shape _ _ _ _ _ _ H)
    as (Hsum & Hacc & Hcor & Htot & Hlen & Hseq & Hcon).
  destruct (batch_metrics_are_over_eligible_questions _ _ _ _ None _ I H)
    as (Hrec & Hmrr & _ & Hel).
  cbv zeta in *. cbn [initial_results] in Hlen, Hseq, Hcon.
  rewrite length_replicate in Hlen.
  set (results := rr_results (br_rag_result b)) in *.
  assert (Hfrom : Forall from_analyzer (analysed results)).
  { assert (H0 : Forall from_analyzer
                   (analysed (replicate (length qa_dataset) None)))
      by (rewrite analysed_replicate_none; constructor).
    destruct (concurrent_workers <=? 1).
    - rewrite (Hseq eq_refl).
      apply sequential_loop_from_analyzer, H0.
    - destruct (Hcon eq_refl) as [E|Hc].
      + rewrite E. exact H0.
      + eapply concurrent_loop_from_analyzer; [exact Hc | exact H0]. }
  assert (Hcount : rr_correct (br_rag_result b) = count_correct results
                   /\ accuracy_of (count_correct results) qa_dataset
                      = Ok (rr_accuracy (br_rag_result b))).
  { unfold summary in Hsum.
    destruct (accuracy_of (count_correct results) qa_dataset) as [x| |];
      cbv beta iota delta [bind] in Hsum; try discriminate.
    injection Hsum as Hsum. rewrite <- Hsum. split; reflexivity. }
  destruct Hcount as [Hcc Hacc'].
  pose proof (count_correct_bounds results) as Hcb.
  rewrite Hacc, Hrec, Hmrr, Hcor, Htot, Hel, Hcc.
  split; [|split; [|split; [|split]]].
  - apply (accuracy_is_a_percentage qa_dataset (count_correct results));
      [lia | exact Hacc'].
  - apply document_recall_unit, Hfrom.
  - apply mean_reciprocal_rank_unit; [exact Hfrom | lia].
  - lia.
  - pose proof (eligible_length results). lia.
Qed.

End ReportedMetrics.

Lemma reported_metrics_are_in_range_witness :
  let b :=
    Sample.returned empty_batch
      (batch_evaluate_configuration (ext := Sample.ext) Sample.rag
         [Sample.question; Sample.question] 1 [] None) in
  (0 <= br_rag_accuracy b /\ br_rag_accuracy b <= 100)%Q
  /\ (0 <= br_rag_recall b /\ br_rag_recall b <= 1)%Q
  /\ (0 <= br_rag_mrr b /\ br_rag_mrr b <= 1)%Q
  /\ 0 <= br_correct_answers b <= br_total_questions b
  /\ 0 <= br_retrieval_eligible_questions b <= br_total_questions b.
Proof.
  apply (reported_metrics_are_in_range (ext := Sample.ext) Sample.rag
           [Sample.question; Sample.question] 1 []).
  - vm_compute. reflexivity.
  - simpl. lia.
Defined.

(* ===================================================================== *)
(** * The cache file name *)
(* ===================================================================== *)


Lemma startswith_nil (s : string) : Str.startswith s EmptyString = true.
Proof. destruct s; reflexivity. Qed.

Lemma replace_char_cons (c d x : ascii) (s : string) :
  Str.replace (String c EmptyString) (String d EmptyString) (String x s)
  = String (if Ascii.eqb c x then d else x)
      (Str.replace (String c EmptyString) (String d EmptyString) s).
Proof.
  unfold Str.replace. cbn [Str.replace_from].
  change (Str.startswith (String x s) (String c EmptyString))
    with (if Ascii.eqb c x then Str.startswith s EmptyString else false).
  rewrite startswith_nil. destruct (Ascii.eqb c x); reflexivity.
Qed.

Lemma replace_char_removes (c d : ascii) (s : string) :
  c <> d ->
  has_char c (Str.replace (String c EmptyString) (String d EmptyString) s) = false.
Proof.
  intros Hcd. induction s as [|x s IH]; [reflexivity|].
  rewrite replace_char_cons. cbn [has_char]. rewrite IH, orb_false_r.
  destruct (Ascii.eqb_spec c x) as [->|Hne].
  - apply Ascii.eqb_neq. congruence.
  - apply Ascii.eqb_neq. congruence.
Qed.

Lemma replace_char_keeps_out (c d e : ascii) (s : string) :
  e <> d -> has_char e s = false ->
  has_char e (Str.replace (String c EmptyString) (String d EmptyString) s) = false.
Proof.
  intros Hed. induction s as [|x s IH]; [reflexivity|].
  cbn [has_char]. intros H. apply orb_false_iff in H as [Hx Hs].
  rewrite replace_char_cons. cbn [has_char]. rewrite (IH Hs), orb_false_r.
  destruct (Ascii.eqb c x); [apply Ascii.eqb_neq; congruence | exact Hx].
Qed.

Lemma plain_name_is_plain (filename : string) :
  has_char "/" (plain_name filename) = false
  /\ has_char "-" (plain_name filename) = false
  /\ has_char "." (plain_name filename) = false.
Proof.
  unfold plain_name. repeat split.
  - apply replace_char_keeps_out; [discriminate|].
    apply replace_char_keeps_out; [discriminate|].
    apply replace_char_removes. discriminate.
  - apply replace_char_keeps_out; [discriminate|].
    apply replace_char_removes. discriminate.
  - apply replace_char_removes. discriminate.
Qed.

Lemma first_of_given (values : option (list string)) (default : string) :
  given values = true -> exists v, first_of values default = Ok v.
Proof.
  destruct values as [[|v l]|]; [discriminate | |]; intros _; eexists; reflexivity.
Qed.

(** X21.  When no parameter has an empty list of values,
    [generate_cache_filename] returns a name that ends in [.pkl] and whose
    stem holds no slash, no hyphen and no dot, whatever the parameters
    and the cache version contain: the cache file stays in the cache
    directory. *)
Theorem cache_file_name_is_a_plain_name (params : selected_params)
    (cache_version : string) :
  (given (sp_dataset params) && given (sp_rag_response_model params)
   && given (sp_embedding_model params) && given (sp_rerank_model params)
   && given (sp_evaluate_model params) && given (sp_k params)
   && given (sp_rerank_range params) && given (sp_chunk_size params)
   && given (sp_chunk_overlap params))%bool = true ->
  exists stem : string,
    generate_cache_filename params cache_version = Ok (stem ++ ".pkl")%string
    /\ has_char "/" stem = false /\ has_char "-" stem = false
    /\ has_char "." stem = false.
Proof.
  intros H. repeat (apply andb_true_iff in H as [H ?]).
  unfold generate_cache_filename.
  repeat match goal with
         | G : given ?v = true |- context [first_of ?v ?d] =>
             let x := fresh "v" in
             destruct (first_of_given v d G) as [x ->];
             cbv beta iota delta [bind]
         end.
  eexists. split; [reflexivity|]. apply plain_name_is_plain.
Qed.

Lemma after_last_none (sep : ascii) (s : string) :
  has_char sep s = false -> after_last sep s = s.
Proof.
  destruct s as [|c s]; [reflexivity|]. cbn [has_char after_last].
  intros H. apply orb_false_iff in H as [Hc Hs]. rewrite Hs, Hc. reflexivity.
Qed.

Lemma after_last_app (sep : ascii) (a b : string) :
  after_last sep (a ++ b)
  = if has_char sep b then after_last sep b
    else (after_last sep a ++ b)%string.
Proof.
  induction a as [|x a IH].
  - cbn [String.append after_last]. destruct (has_char sep b) eqn:E;
      [reflexivity | apply after_last_none, E].
  - rewrite string_app_cons. cbn [after_last]. rewrite has_char_app, IH.
    destruct (has_char sep b); [now rewrite orb_true_r|].
    rewrite orb_false_r. destruct (has_char sep a); [reflexivity|].
    destruct (Ascii.eqb x sep); reflexivity.
Qed.

Lemma replace_from_skip (old new a rest : string) :
  Str.replace_from old new (String.length a) (a ++ rest)
  = Str.replace_from old new 0 rest.
Proof.
  induction a as [|x a IH]; [reflexivity|].
  rewrite string_app_cons. cbn [String.length Str.replace_from]. exact IH.
Qed.

Lemma replace_match (o : ascii) (old' new rest : string) :
  Str.replace (String o old') new (String o old' ++ rest)
  = (new ++ Str.replace (String o old') new rest)%string.
Proof.
  unfold Str.replace. rewrite string_app_cons. cbn [Str.replace_from].
  assert (E : Str.startswith (String o (old' ++ rest)) (String o old') = true)
    by (apply startswith_spec; exists rest; reflexivity).
  rewrite E. f_equal.
  replace (Str.len (String o old') - 1)%nat with (String.length old')
    by (unfold Str.len; cbn [String.length]; lia).
  apply replace_from_skip.
Qed.

Lemma replace_no_match (old new : string) (c : ascii) (s : string) :
  Str.startswith (String c s) old = false ->
  Str.replace old new (String c s) = String c (Str.replace old new s).
Proof. unfold Str.replace. cbn [Str.replace_from]. intros ->. reflexivity. Qed.

Lemma replace_without_char (sep : ascii) (old new s : string) :
  has_char sep old = true -> has_char sep s = false ->
  Str.replace old new s = s.
Proof.
  intros Hold. induction s as [|c s IH]; [reflexivity|].
  intros Hs. rewrite replace_no_match.
  - cbn [has_char] in Hs. apply orb_false_iff in Hs as [_ Hs]. now rewrite IH.
  - destruct (Str.startswith (String c s) old) eqn:E; [|reflexivity].
    apply startswith_spec in E as [post E]. rewrite E, has_char_app, Hold in Hs.
    discriminate.
Qed.

(** Dropping the prefix [Pro/] of the model [BAAI/bge-m3] changes neither
    the last segment of a name nor whether it has a slash. *)
Lemma normalize_keeps_last_segment (n : nat) (s : string) :
  (String.length s <= n)%nat ->
  after_last "/" (normalize_embedding_model_name s) = after_last "/" s
  /\ has_char "/" (normalize_embedding_model_name s) = has_char "/" s.
Proof.
  unfold normalize_embedding_model_name.
  revert s. induction n as [|n IH]; intros s Hn.
  { destruct s; [split; reflexivity | cbn [String.length] in Hn; lia]. }
  destruct s as [|c s]; [split; reflexivity|].
  destruct (Str.startswith (String c s) "Pro/BAAI/bge-m3") eqn:E.
  - apply startswith_spec in E as [rest E]. rewrite E.
    rewrite replace_match.
    assert (Hrest : (String.length rest <= n)%nat).
    { apply (f_equal String.length) in E. rewrite string_length_app in E.
      cbn [String.length] in *. lia. }
    destruct (IH rest Hrest) as [IH1 IH2].
    rewrite !after_last_app, !has_char_app, IH1, IH2.
    destruct (has_char "/" rest) eqn:Hr.
    + split; [reflexivity | now rewrite !orb_true_r].
    + rewrite (replace_without_char "/" "Pro/BAAI/bge-m3" "BAAI/bge-m3" rest
                 eq_refl Hr).
      split; reflexivity.
  - rewrite (replace_no_match _ _ _ _ E).
    assert (Hs : (String.length s <= n)%nat) by (cbn [String.length] in Hn; lia).
    destruct (IH s Hs) as [IH1 IH2].
    cbn [after_last has_char]. rewrite IH1, IH2.
    destruct (has_char "/" s) eqn:Hr; [split; reflexivity|].
    rewrite (replace_without_char "/" "Pro/BAAI/bge-m3" "BAAI/bge-m3" s
               eq_refl Hr).
    split; reflexivity.
Qed.

(** X22.  Of the embedding model the cache file name keeps the last
    path segment only: two parameter sets that differ in the embedding
    model alone get the same file when the names of the two models end
    with the same segment.  The normalisation of the name does not change
    that segment ([normalize_keeps_last_segment]). *)
Theorem cache_file_name_keeps_the_last_segment (params : selected_params)
    (model1 model2 cache_version : string) :
  after_last "/" model1 = after_last "/" model2 ->
  generate_cache_filename (with_embedding_model params model1) cache_version
  = generate_cache_filename (with_embedding_model params model2) cache_version.
Proof.
  intros H.
  assert (E : embedding_model_short model1 = embedding_model_short model2).
  { unfold embedding_model_short.
    destruct (normalize_keeps_last_segment _ model1 (le_n _)) as [-> _].
    destruct (normalize_keeps_last_segment _ model2 (le_n _)) as [-> _].
    now rewrite H. }
  unfold generate_cache_filename.
  cbn [with_embedding_model sp_dataset sp_rag_response_model
       sp_embedding_model sp_rerank_model sp_evaluate_model sp_k
       sp_rerank_range sp_chunk_size sp_chunk_overlap].
  destruct (first_of (sp_dataset params) _); try reflexivity.
  destruct (first_of (sp_rag_response_model params) _); try reflexivity.
  cbn [first_of]. cbv beta iota delta [bind]. rewrite E. reflexivity.
Qed.

(** The same for the two names of the reranker. *)
Lemma pro_and_standard_rerankers_share_a_cache_file (params : selected_params)
    (cache_version : string) :
  generate_cache_filename
    (with_rerank_model params "Pro/BAAI/bge-reranker-v2-m3") cache_version
  = generate_cache_filename
      (with_rerank_model params "BAAI/bge-reranker-v2-m3") cache_version.
Proof. reflexivity. Qed.

Section CacheKey.

Context {ext : External}.

(** X23.  The cache file name does not depend on the corpus, which
    [create_workflow] reads from the same parameters: two parameter sets
    that differ in the corpus alone build different workflows and get the
    same cache file. *)
Theorem cache_file_name_ignores_the_corpus (params : selected_params)
    (corpus1 corpus2 : string) (cache_version : string)
    (w1 w2 : workflow_arguments) :
  create_workflow (with_corpus params corpus1) = Ok w1 ->
  create_workflow (with_corpus params corpus2) = Ok w2 ->
  generate_cache_filename (with_corpus params corpus1) cache_version
  = generate_cache_filename (with_corpus params corpus2) cache_version
  /\ wa_corpus_name w1 = corpus1 /\ wa_corpus_name w2 = corpus2
  /\ (corpus1 <> corpus2 -> w1 <> w2).
Proof.
  intros H1 H2. split; [reflexivity|].
  assert (K : forall c w, create_workflow (with_corpus params c) = Ok w ->
                wa_corpus_name w = c).
  { intros c w. unfold create_workflow.
    cbn [with_corpus sp_rag_response_model sp_embedding_model sp_rerank_model
         sp_evaluate_model sp_k sp_rerank_range sp_chunk_size sp_chunk_overlap
         sp_corpus].
    repeat match goal with
           | |- context [first_of (?f params) ?d] =>
               destruct (first_of (f params) d);
               cbv beta iota delta [bind]; try discriminate
           | |- context [call (int_of_str ?v)] =>
               destruct (call (int_of_str v));
               cbv beta iota delta [bind]; try discriminate
           end.
    cbn [first_of]. cbv beta iota delta [bind]. intros [= <-]. reflexivity. }
  pose proof (K _ _ H1) as K1. pose proof (K _ _ H2) as K2.
  repeat split; try assumption. intros Hne ->. congruence.
Qed.

End CacheKey.

Lemma cache_file_name_is_a_plain_name_witness :
  exists stem : string,
    generate_cache_filename
      (with_corpus (with_embedding_model no_params "Pro/BAAI/bge-m3") "../x")
      "v2.0"
    = Ok (stem ++ ".pkl")%string
    /\ has_char "/" stem = false /\ has_char "-" stem = false
    /\ has_char "." stem = false.
Proof.
  apply (cache_file_name_is_a_plain_name
           (with_corpus (with_embedding_model no_params "Pro/BAAI/bge-m3") "../x")
           "v2.0").
  reflexivity.
Defined.

Lemma cache_file_name_keeps_the_last_segment_witness :
  generate_cache_filename (with_embedding_model no_params "Pro/BAAI/bge-m3")
    "v2.0"
  = generate_cache_filename (with_embedding_model no_params "BAAI/bge-m3")
      "v2.0".
Proof.
  apply (cache_file_name_keeps_the_last_segment no_params "Pro/BAAI/bge-m3"
           "BAAI/bge-m3" "v2.0").
  reflexivity.
Defined.

Lemma cache_file_name_ignores_the_corpus_witness :
  generate_cache_filename (with_corpus no_params "news") "v2.0"
  = generate_cache_filename (with_corpus no_params "wiki") "v2.0"
  /\ wa_corpus_name (default_arguments "news") = "news"%string
  /\ wa_corpus_name (default_arguments "wiki") = "wiki"%string
  /\ ("news"%string <> "wiki"%string ->
      default_arguments "news" <> default_arguments "wiki").
Proof.
  apply (cache_file_name_ignores_the_corpus (ext := Sample.ext) no_params
           "news" "wiki" "v2.0" (default_arguments "news")
           (default_arguments "wiki")); reflexivity.
Defined.

(* ===================================================================== *)
(** * The rate limiter *)
(* ===================================================================== *)


Lemma lower_app (a b : string) :
  Str.lower (a ++ b) = (Str.lower a ++ Str.lower b)%string.
Proof.
  induction a as [|c a IH]; [reflexivity|].
  rewrite string_app_cons. cbn [Str.lower]. rewrite IH. reflexivity.
Qed.

Lemma occurs_app (needle pre s post : string) :
  occurs needle s -> occurs needle (pre ++ s ++ post).
Proof.
  intros (a & b & ->). exists (pre ++ a)%string, (b ++ post)%string.
  rewrite !string_app_assoc. reflexivity.
Qed.

(** X24.  A message is taken for a rate-limit error as soon as a part of
    it is: the test looks for the keywords anywhere in the lower-cased
    message. *)
Theorem rate_limit_keyword_anywhere (pre error_msg post : string) :
  is_rate_limit_error error_msg = true ->
  is_rate_limit_error (pre ++ error_msg ++ post) = true.
Proof.
  unfold is_rate_limit_error. rewrite !lower_app.
  intros H. apply existsb_exists in H as (keyword & Hin & H).
  apply existsb_exists. exists keyword. split; [exact Hin|].
  apply contains_spec. apply occurs_app. apply contains_spec. exact H.
Qed.

Section TokenEstimate.

Import Binary64.
Local Open Scope Q_scope.

Lemma of_int_exact (n : Z) :
  (0 <= n)%Z -> (n <= 2 ^ 53)%Z -> of_int n == inject_Z n.
Proof.
  intros H0 H1. unfold of_int. apply Qle_antisym.
  - apply rnd_le_int; [rewrite <- (Zle_Qle 0); exact H0 | apply Qle_refl | exact H1].
  - destruct (Z.eq_dec n (2 ^ 53)%Z) as [->|Hne].
    + vm_compute. discriminate.
    + apply rnd_ge_int; [exact H0 | apply Qle_refl |].
      rewrite <- two_pow_inject by lia. rewrite <- Zlt_Qlt. lia.
Qed.

Lemma int_of_float_floor (x : float) (k : Z) :
  inject_Z k <= x -> x < inject_Z (k + 1) -> (0 <= k)%Z -> int_of_float x = k.
Proof.
  intros H1 H2 Hk. unfold int_of_float.
  assert (Hx : (0 <= Qnum x)%Z).
  { assert (H0 : 0 <= x) by (assert (0 <= inject_Z k)
      by (rewrite <- (Zle_Qle 0); exact Hk); lra).
    unfold Qle in H0. simpl in H0. lia. }
  rewrite Z.quot_div_nonneg by lia.
  assert (Ef : (Qnum x / Zpos (Qden x))%Z = Qfloor x) by (destruct x; reflexivity).
  rewrite Ef.
  apply Qfloor_resp_le in H1. rewrite Qfloor_Z in H1.
  assert (H3 : (Qfloor x < k + 1)%Z).
  { rewrite Zlt_Qlt. eapply Qle_lt_trans; [apply Qfloor_le | exact H2]. }
  lia.
Qed.

(** The float quotient [n / 3.5], truncated, is the integer quotient
    [2n / 7]. *)
Lemma truncated_quotient (n : Z) :
  (0 <= n)%Z -> (n < 2 ^ 50)%Z ->
  int_of_float (rnd (of_int n / (7 # 2))) = (2 * n / 7)%Z.
Proof.
  intros H0 Hbig.
  set (k := (2 * n / 7)%Z).
  assert (Hk0 : (0 <= k)%Z) by (unfold k; apply Z.div_pos; lia).
  pose proof (Z.div_mod (2 * n) 7 ltac:(lia)) as Hdm. fold k in Hdm.
  pose proof (Z.mod_pos_bound (2 * n) 7 ltac:(lia)) as Hr.
  set (r := ((2 * n) mod 7)%Z) in *.
  set (q := inject_Z n / (7 # 2)).
  assert (Eof : of_int n / (7 # 2) == q).
  { unfold q. rewrite (of_int_exact n H0) by lia. reflexivity. }
  rewrite (rnd_comp _ _ Eof).
  assert (Eq : 7 * q == inject_Z (7 * k + r)).
  { rewrite <- Hdm, inject_Z_mult. unfold q. change (inject_Z 2) with 2. field. }
  rewrite inject_Z_plus, inject_Z_mult in Eq. change (inject_Z 7) with 7 in Eq.
  assert (Hr0 : 0 <= inject_Z r) by (rewrite <- (Zle_Qle 0); lia).
  assert (Hr6 : inject_Z r <= 6) by (change 6 with (inject_Z 6); rewrite <- Zle_Qle; lia).
  assert (Hn50 : inject_Z n < 2 ^ 50).
  { rewrite <- two_pow_inject by lia. rewrite <- Zlt_Qlt. exact Hbig. }
  assert (Hn0 : 0 <= inject_Z n) by (rewrite <- (Zle_Qle 0); exact H0).
  assert (Eqn : 7 * q == 2 * inject_Z n) by (unfold q; field).
  assert (Hq50 : q < 2 ^ 50) by lra.
  assert (P5053 : 2 ^ 50 < 2 ^ 53) by reflexivity.
  assert (HkQ : 0 <= inject_Z k) by (rewrite <- (Zle_Qle 0); exact Hk0).
  clearbody q k r.
  apply int_of_float_floor; [ | | exact Hk0].
  - apply rnd_ge_int; [exact Hk0 | lra | lra].
  - rewrite inject_Z_plus. change (inject_Z 1) with 1.
    destruct (Z.eq_dec r 0%Z) as [R0|R0].
    + assert (Ek : q == inject_Z k).
      { rewrite R0 in Eq. change (inject_Z 0) with 0 in Eq. lra. }
      assert (Hle : rnd q <= inject_Z k).
      { apply rnd_le_int; [lra | lra |].
        assert (inject_Z k < 2 ^ 53) by lra.
        rewrite <- two_pow_inject in H by lia. rewrite <- Zlt_Qlt in H. lia. }
      lra.
    + assert (Hr1 : 1 <= inject_Z r)
        by (change 1 with (inject_Z 1); rewrite <- Zle_Qle; lia).
      assert (Hq : 0 < q) by lra.
      pose proof (exponent_lt q 50 Hq Hq50) as He.
      set (s := frac_bits q).
      assert (Hs3 : (3 <= s)%Z) by (unfold s, frac_bits; lia).
      assert (Hp8 : 2 ^ (- s) <= 1 # 8).
      { change (1 # 8) with (2 ^ (- 3)). apply two_pow_le. lia. }
      pose proof (two_pow_pos (- s)) as Hps.
      set (g := inject_Z (k + 1) - 2 ^ (- s)).
      assert (Hqg : q <= g).
      { unfold g. rewrite inject_Z_plus. change (inject_Z 1) with 1. lra. }
      assert (Hrg : rnd q <= g).
      { apply (rnd_le_grid q g ((k + 1) * 2 ^ s - 1)%Z Hq Hqg).
        fold s. unfold g.
        assert (Ej : inject_Z ((k + 1) * 2 ^ s - 1)
                     == inject_Z (k + 1) * 2 ^ s - 1).
        { replace ((k + 1) * 2 ^ s - 1)%Z with ((k + 1) * 2 ^ s + (-1))%Z by lia.
          rewrite inject_Z_plus, inject_Z_mult, two_pow_inject by lia.
          change (inject_Z (-1)) with (- (1)). ring. }
        rewrite Ej.
        pose proof (two_pow_cancel s) as Hc.
        rewrite (Qmult_comm (2 ^ s)) in Hc.
        transitivity (inject_Z (k + 1) * 2 ^ s - 2 ^ (- s) * 2 ^ s); [ring|].
        rewrite Hc. ring. }
      unfold g in Hrg. rewrite inject_Z_plus in Hrg.
      change (inject_Z 1) with 1 in Hrg. lra.
Qed.

Lemma total_chars_nonneg (texts : list string) (acc : Z) :
  (0 <= acc)%Z ->
  (0 <= foldl (fun a text => (a + Z.of_nat (Str.len text))%Z) acc texts)%Z.
Proof.
  revert acc. induction texts as [|t texts IH]; intros acc H; [exact H|].
  cbn [foldl]. apply IH. lia.
Qed.

(** X25.  For fewer than [2^50] characters the token estimate, computed
    with a binary64 division by [3.5] and a truncation, is exactly the
    integer quotient [2 * total_chars / 7], raised to the number of
    texts; a single string is estimated to at least one token. *)
Theorem token_estimate_is_exact (texts : texts_argument) :
  (total_chars (text_list texts) < 2 ^ 50)%Z ->
  _estimate_tokens texts
  = Z.max (2 * total_chars (text_list texts) / 7)
          (Z.of_nat (length (text_list texts)))
  /\ (Z.of_nat (length (text_list texts)) <= _estimate_tokens texts)%Z
  /\ (forall text, texts = Text text -> (1 <= _estimate_tokens texts)%Z).
Proof.
  intros Hbig.
  assert (H0 : (0 <= total_chars (text_list texts))%Z)
    by (apply total_chars_nonneg; lia).
  assert (E : _estimate_tokens texts
              = Z.max (2 * total_chars (text_list texts) / 7)
                  (Z.of_nat (length (text_list texts)))).
  { unfold _estimate_tokens. rewrite (truncated_quotient _ H0 Hbig). reflexivity. }
  split; [exact E|]. rewrite E. split; [lia|].
  intros text ->. cbn [text_list length]. lia.
Qed.

End TokenEstimate.

Lemma rate_limit_keyword_anywhere_witness :
  is_rate_limit_error ("HTTP " ++ "429 Too Many Requests" ++ " for url") = true.
Proof.
  apply (rate_limit_keyword_anywhere "HTTP " "429 Too Many Requests" " for url").
  reflexivity.
Defined.

Lemma token_estimate_is_exact_witness :
  let texts := Texts ["What is the capital of France?"%string; "Paris"%string] in
  _estimate_tokens texts
  = Z.max (2 * total_chars (text_list texts) / 7)
          (Z.of_nat (length (text_list texts)))
  /\ (Z.of_nat (length (text_list texts)) <= _estimate_tokens texts)
  /\ (forall text, texts = Text text -> 1 <= _estimate_tokens texts).
Proof.
  apply (token_estimate_is_exact
           (Texts ["What is the capital of France?"%string; "Paris"%string])).
  vm_compute. reflexivity.
Defined.
